(** * LayerForge: layer transform, z-order, history and processed-image cache

    A shallow embedding of the parts of the canvas editor that the
    specification's testable properties talk about:

    - [CanvasInteractions.performZoomOperation], [startLayerTransform],
      [resizeLayerFromHandle] and the wheel handlers
      (js/CanvasInteractions.js),
    - [CanvasLayers.getHandles], [getLayerAtPosition],
      [getHandleAtPosition], [moveLayers], [fuseLayers],
      [addLayerWithImage], [copySelectedLayers], [pasteLayers],
      [autoAdjustOutputToSelection] and the processed-image cache
      (CanvasLayers.ts),
    - [CanvasState.saveState], [undo], [redo] and [clearHistory]
      (src/CanvasState.ts).

    JavaScript numbers are modelled as exact rationals ([Q]): rounding, NaN
    and the infinities of IEEE doubles are outside that model.  Where a
    statement stands or falls with the rounding, the function is embedded
    again over binary64 floats (module [Double]).  [Math.cos], [Math.sin],
    [Math.PI] and the grid-snapping helper are parameters. *)

From Stdlib Require Import ZArith QArith Qminmax Lia Lqa List Bool String Ascii.
From Stdlib Require Import Permutation Qround Qabs Sorted Floats.
From stdpp Require Import gmap strings list pretty.
Import ListNotations.

Local Open Scope Q_scope.

(** ** JavaScript number helpers *)

Module JS.

(** [a < b] on numbers. *)
Definition ltb (a b : Q) : bool := if Qlt_le_dec a b then true else false.

(** [a > b] on numbers. *)
Definition gtb (a b : Q) : bool := ltb b a.

Definition Math_max (a b : Q) : Q := if Qlt_le_dec a b then b else a.
Definition Math_min (a b : Q) : Q := if Qlt_le_dec b a then b else a.
Definition Math_abs (a : Q) : Q := if Qlt_le_dec a 0 then - a else a.

(** [Math.sign]: -1, 0 or 1. *)
Definition Math_sign (a : Q) : Q :=
    if Qlt_le_dec a 0 then -1 else if Qlt_le_dec 0 a then 1 else 0.

(** Truthiness of a number: every number but 0 is truthy. *)
Definition truthy (a : Q) : bool := negb (Qeq_bool a 0).

(** [a || b] on numbers. *)
Definition or_else (a b : Q) : Q := if truthy a then a else b.

End JS.

(** ** Data model *)

Record Point := mkPoint { px : Q; py : Q }.

Record Rect := mkRect { rx : Q; ry : Q; rwidth : Q; rheight : Q }.

(** The viewport: world coordinate under the screen's top-left, and zoom. *)
Record Viewport := mkViewport { vx : Q; vy : Q; zoom : Q }.

(** A layer object.  [image] stands for the reference to the decoded raster;
    [cropBounds] and [blendArea] are optional properties. *)
Module Layer.
Record t := mk {
    id : string;
    image : nat;
    imageId : string;
    name : string;
    x : Q;
    y : Q;
    width : Q;
    height : Q;
    originalWidth : Q;
    originalHeight : Q;
    rotation : Q;
    zIndex : Z;
    blendMode : string;
    opacity : Q;
    visible : bool;
    flipH : bool;
    flipV : bool;
    cropMode : bool;
    cropBounds : option Rect;
    blendArea : option Z
  }.

Definition set_frame (l : t) (nx ny nw nh : Q) : t :=
    mk (id l) (image l) (imageId l) (name l) nx ny nw nh
       (originalWidth l) (originalHeight l) (rotation l) (zIndex l)
       (blendMode l) (opacity l) (visible l) (flipH l) (flipV l)
       (cropMode l) (cropBounds l) (blendArea l).

Definition set_position (l : t) (nx ny : Q) : t :=
    set_frame l nx ny (width l) (height l).

Definition set_cropBounds (l : t) (cb : option Rect) : t :=
    mk (id l) (image l) (imageId l) (name l) (x l) (y l) (width l) (height l)
       (originalWidth l) (originalHeight l) (rotation l) (zIndex l)
       (blendMode l) (opacity l) (visible l) (flipH l) (flipV l)
       (cropMode l) cb (blendArea l).

Definition set_zIndex (l : t) (z : Z) : t :=
    mk (id l) (image l) (imageId l) (name l) (x l) (y l) (width l) (height l)
       (originalWidth l) (originalHeight l) (rotation l) z
       (blendMode l) (opacity l) (visible l) (flipH l) (flipV l)
       (cropMode l) (cropBounds l) (blendArea l).
End Layer.

(** The eight resize handles, named by the keys of [getHandles]. *)
Inductive Handle := H_n | H_ne | H_e | H_se | H_s | H_sw | H_w | H_nw.

Definition handle_key (h : Handle) : string :=
  match h with
  | H_n => "n" | H_ne => "ne" | H_e => "e" | H_se => "se"
  | H_s => "s" | H_sw => "sw" | H_w => "w" | H_nw => "nw"
  end%string.

(** [key.includes(c)] for a one-character [c]. *)
Fixpoint str_includes (key : string) (c : ascii) : bool :=
  match key with
  | EmptyString => false
  | String a rest => if Ascii.eqb a c then true else str_includes rest c
  end.

(** [handle?.includes(c)]: a missing handle gives [undefined], which is falsy. *)
Definition includes (handle : option Handle) (c : ascii) : bool :=
  match handle with
  | None => false
  | Some h => str_includes (handle_key h) c
  end.

(** [oppositeHandleKey] of [startLayerTransform]. *)
Definition oppositeHandleKey (h : Handle) : Handle :=
  match h with
  | H_n => H_s | H_s => H_n | H_e => H_w | H_w => H_e
  | H_nw => H_se | H_se => H_nw | H_ne => H_sw | H_sw => H_ne
  end.

(** ** Geometry: viewport zoom, handles and resize (CanvasInteractions.js) *)

(** The numeric library the code calls ([Math.cos], [Math.sin], [Math.PI])
    and the grid helper [snapToGrid] of utils/CommonUtils.js. *)
Class MathEnv := {
  Math_cos : Q -> Q;
  Math_sin : Q -> Q;
  Math_PI : Q;
  snapToGrid : Q -> Q
}.

(** The buffer (screen) position of a world point: [mouseBufferX] and
    [mouseBufferY] of [performZoomOperation]. *)
Definition mouseBuffer (vp : Viewport) (worldCoords : Point) : Point :=
  {| px := (px worldCoords - vx vp) * zoom vp;
     py := (py worldCoords - vy vp) * zoom vp |}.

Definition performZoomOperation (vp : Viewport) (worldCoords : Point)
    (zoomFactor : Q) : Viewport :=
  let mouseBufferX := (px worldCoords - vx vp) * zoom vp in
  let mouseBufferY := (py worldCoords - vy vp) * zoom vp in
  let newZoom := JS.Math_max (1 # 10) (JS.Math_min 10 (zoom vp * zoomFactor)) in
  {| vx := px worldCoords - (mouseBufferX / newZoom);
     vy := py worldCoords - (mouseBufferY / newZoom);
     zoom := newZoom |}.

Inductive Mode :=
| M_none | M_potential_drag | M_dragging | M_resizing | M_rotating
| M_panning | M_resizingCanvas | M_movingCanvas | M_transformingOutputArea
| M_drawingMask.

(** [interaction.transformOrigin]: the geometry of the layer at drag start. *)
Record TransformOrigin := mkOrigin {
  o_x : Q; o_y : Q; o_width : Q; o_height : Q; o_rotation : Q;
  o_centerX : Q; o_centerY : Q;
  o_originalWidth : Q; o_originalHeight : Q;
  o_cropBounds : option Rect
}.

(** The part of the interaction record the resize code reads and writes.
    [transformingLayer] holds the layer object under transformation. *)
Record Interaction := mkInteraction {
  mode : Mode;
  dragStart : Point;
  transformOrigin : option TransformOrigin;
  resizeHandle : option Handle;
  resizeAnchor : Point;
  isCtrlPressed : bool;
  transformingLayer : option Layer.t
}.

(** A key of the table returned by [getHandles]. *)
Inductive HandleKey := K_resize (h : Handle) | K_rot.

(** [localHandles] of [getHandles]. *)
Definition localHandles (halfW halfH : Q) (vp : Viewport) (k : HandleKey) : Point :=
  match k with
  | K_resize H_n => mkPoint 0 (- halfH)
  | K_resize H_ne => mkPoint halfW (- halfH)
  | K_resize H_e => mkPoint halfW 0
  | K_resize H_se => mkPoint halfW halfH
  | K_resize H_s => mkPoint 0 halfH
  | K_resize H_sw => mkPoint (- halfW) halfH
  | K_resize H_w => mkPoint (- halfW) 0
  | K_resize H_nw => mkPoint (- halfW) (- halfH)
  | K_rot => mkPoint 0 (- halfH - 20 / zoom vp)
  end.

(** [CanvasLayers.getHandles]: world position of every handle of a layer. *)
Definition getHandles {M : MathEnv} (vp : Viewport) (layer : Layer.t)
    (k : HandleKey) : Point :=
  let layerCenterX := Layer.x layer + Layer.width layer / 2 in
  let layerCenterY := Layer.y layer + Layer.height layer / 2 in
  let rad := Layer.rotation layer * Math_PI / 180 in
  let cos := Math_cos rad in
  let sin := Math_sin rad in
  let '(handleCenterX, handleCenterY, halfW, halfH) :=
    match Layer.cropBounds layer with
    | Some cb =>
      if Layer.cropMode layer && JS.truthy (Layer.originalWidth layer) then
        let layerScaleX := Layer.width layer / Layer.originalWidth layer in
        let layerScaleY := Layer.height layer / Layer.originalHeight layer in
        let cropRectW := rwidth cb * layerScaleX in
        let cropRectH := rheight cb * layerScaleY in
        let effectiveCropX :=
          if Layer.flipH layer
          then Layer.originalWidth layer - (rx cb + rwidth cb) else rx cb in
        let effectiveCropY :=
          if Layer.flipV layer
          then Layer.originalHeight layer - (ry cb + rheight cb) else ry cb in
        let cropCenterX_local :=
          (- Layer.width layer / 2) + ((effectiveCropX + rwidth cb / 2) * layerScaleX) in
        let cropCenterY_local :=
          (- Layer.height layer / 2) + ((effectiveCropY + rheight cb / 2) * layerScaleY) in
        (layerCenterX + (cropCenterX_local * cos - cropCenterY_local * sin),
         layerCenterY + (cropCenterX_local * sin + cropCenterY_local * cos),
         cropRectW / 2, cropRectH / 2)
      else (layerCenterX, layerCenterY, Layer.width layer / 2, Layer.height layer / 2)
    | None => (layerCenterX, layerCenterY, Layer.width layer / 2, Layer.height layer / 2)
    end in
  let p := localHandles halfW halfH vp k in
  {| px := handleCenterX + (px p * cos - py p * sin);
     py := handleCenterY + (px p * sin + py p * cos) |}.

(** [startLayerTransform]: record the geometry at drag start and, for a
    resize handle, the world position of the opposite handle as anchor. *)
Definition startLayerTransform {M : MathEnv} (vp : Viewport) (ia : Interaction)
    (layer : Layer.t) (handle : HandleKey) (worldCoords : Point) : Interaction :=
  let o := {| o_x := Layer.x layer; o_y := Layer.y layer;
              o_width := Layer.width layer; o_height := Layer.height layer;
              o_rotation := Layer.rotation layer;
              o_centerX := Layer.x layer + Layer.width layer / 2;
              o_centerY := Layer.y layer + Layer.height layer / 2;
              o_originalWidth := Layer.originalWidth layer;
              o_originalHeight := Layer.originalHeight layer;
              o_cropBounds := Layer.cropBounds layer |} in
  match handle with
  | K_rot =>
    {| mode := M_rotating; dragStart := worldCoords;
       transformOrigin := Some o; resizeHandle := resizeHandle ia;
       resizeAnchor := resizeAnchor ia; isCtrlPressed := isCtrlPressed ia;
       transformingLayer := Some layer |}
  | K_resize h =>
    {| mode := M_resizing; dragStart := worldCoords;
       transformOrigin := Some o; resizeHandle := Some h;
       resizeAnchor := getHandles vp layer (K_resize (oppositeHandleKey h));
       isCtrlPressed := isCtrlPressed ia;
       transformingLayer := Some layer |}
  end.

(** Crop mode, first half: the image-space delta goes to the edges of the
    crop rectangle chosen by the handle and the flip state.  One definition
    per [if (handle?.includes(...))] statement. *)
Definition cropDeltaW (handle : option Handle) (isFlippedH : bool)
    (delta_image_x : Q) (b : Rect) : Rect :=
  if includes handle "w" then
    if isFlippedH
    then mkRect (rx b) (ry b) (rwidth b + delta_image_x) (rheight b)
    else mkRect (rx b + delta_image_x) (ry b) (rwidth b - delta_image_x) (rheight b)
  else b.

Definition cropDeltaE (handle : option Handle) (isFlippedH : bool)
    (delta_image_x : Q) (b : Rect) : Rect :=
  if includes handle "e" then
    if isFlippedH
    then mkRect (rx b + delta_image_x) (ry b) (rwidth b - delta_image_x) (rheight b)
    else mkRect (rx b) (ry b) (rwidth b + delta_image_x) (rheight b)
  else b.

Definition cropDeltaN (handle : option Handle) (isFlippedV : bool)
    (delta_image_y : Q) (b : Rect) : Rect :=
  if includes handle "n" then
    if isFlippedV
    then mkRect (rx b) (ry b) (rwidth b) (rheight b + delta_image_y)
    else mkRect (rx b) (ry b + delta_image_y) (rwidth b) (rheight b - delta_image_y)
  else b.

Definition cropDeltaS (handle : option Handle) (isFlippedV : bool)
    (delta_image_y : Q) (b : Rect) : Rect :=
  if includes handle "s" then
    if isFlippedV
    then mkRect (rx b) (ry b + delta_image_y) (rwidth b) (rheight b - delta_image_y)
    else mkRect (rx b) (ry b) (rwidth b) (rheight b + delta_image_y)
  else b.

Definition applyCropDelta (handle : option Handle) (isFlippedH isFlippedV : bool)
    (delta_image_x delta_image_y : Q) (b : Rect) : Rect :=
  cropDeltaS handle isFlippedV delta_image_y
    (cropDeltaN handle isFlippedV delta_image_y
       (cropDeltaE handle isFlippedH delta_image_x
          (cropDeltaW handle isFlippedH delta_image_x b))).

(** Crop mode, second half: the clamp "to stay within the original image and
    maintain minimum size".  One definition per [if] statement, in the order
    of the code. *)
Definition clampMinWidth (handle : option Handle) (ocb b : Rect) : Rect :=
  if JS.ltb (rwidth b) 1 then
    mkRect (if includes handle "w" then rx ocb + rwidth ocb - 1 else rx b)
           (ry b) 1 (rheight b)
  else b.

Definition clampMinHeight (handle : option Handle) (ocb b : Rect) : Rect :=
  if JS.ltb (rheight b) 1 then
    mkRect (rx b)
           (if includes handle "n" then ry ocb + rheight ocb - 1 else ry b)
           (rwidth b) 1
  else b.

Definition clampLeft (b : Rect) : Rect :=
  if JS.ltb (rx b) 0 then mkRect 0 (ry b) (rwidth b + rx b) (rheight b) else b.

Definition clampTop (b : Rect) : Rect :=
  if JS.ltb (ry b) 0 then mkRect (rx b) 0 (rwidth b) (rheight b + ry b) else b.

Definition clampRight (originalWidth : Q) (b : Rect) : Rect :=
  if JS.gtb (rx b + rwidth b) originalWidth
  then mkRect (rx b) (ry b) (originalWidth - rx b) (rheight b) else b.

Definition clampBottom (originalHeight : Q) (b : Rect) : Rect :=
  if JS.gtb (ry b + rheight b) originalHeight
  then mkRect (rx b) (ry b) (rwidth b) (originalHeight - ry b) else b.

Definition clampCropBounds (handle : option Handle) (o : TransformOrigin)
    (ocb : Rect) (b : Rect) : Rect :=
  clampBottom (o_originalHeight o)
    (clampRight (o_originalWidth o)
       (clampTop (clampLeft (clampMinHeight handle ocb (clampMinWidth handle ocb b))))).

(** The crop-mode branch of [resizeLayerFromHandle]. *)
Definition resizeCropBounds (layer : Layer.t) (o : TransformOrigin) (ocb : Rect)
    (handle : option Handle) (dragStart : Point)
    (mouseX mouseY cos sin : Q) : Rect :=
  let dragStartX_local := px dragStart - o_centerX o in
  let dragStartY_local := py dragStart - o_centerY o in
  let mouseX_local := mouseX - o_centerX o in
  let mouseY_local := mouseY - o_centerY o in
  let deltaX_world := mouseX_local - dragStartX_local in
  let deltaY_world := mouseY_local - dragStartY_local in
  let mouseDeltaX_local0 := deltaX_world * cos + deltaY_world * sin in
  let mouseDeltaY_local0 := deltaY_world * cos - deltaX_world * sin in
  let mouseDeltaX_local :=
    if Layer.flipH layer then mouseDeltaX_local0 * -1 else mouseDeltaX_local0 in
  let mouseDeltaY_local :=
    if Layer.flipV layer then mouseDeltaY_local0 * -1 else mouseDeltaY_local0 in
  let screenToImageScaleX := o_originalWidth o / o_width o in
  let screenToImageScaleY := o_originalHeight o / o_height o in
  let delta_image_x := mouseDeltaX_local * screenToImageScaleX in
  let delta_image_y := mouseDeltaY_local * screenToImageScaleY in
  clampCropBounds handle o ocb
    (applyCropDelta handle (Layer.flipH layer) (Layer.flipV layer)
                    delta_image_x delta_image_y ocb).

(** The transform-mode branch of [resizeLayerFromHandle]. *)
Definition resizeTransformFrame (layer : Layer.t) (o : TransformOrigin)
    (signX signY localVecX localVecY cos sin : Q)
    (isShiftPressed : bool) : Layer.t :=
  let originalAspectRatio := o_width o / o_height o in
  let '(newWidth0, newHeight0) :=
    if isShiftPressed then
      if JS.gtb (JS.Math_abs localVecX) (JS.Math_abs localVecY * originalAspectRatio)
      then (localVecX,
            JS.or_else (JS.Math_sign localVecY) 1 * JS.Math_abs localVecX / originalAspectRatio)
      else (JS.or_else (JS.Math_sign localVecX) 1 * JS.Math_abs localVecY * originalAspectRatio,
            localVecY)
    else (localVecX, localVecY) in
  let newWidth := if JS.ltb newWidth0 10 then 10 else newWidth0 in
  let newHeight := if JS.ltb newHeight0 10 then 10 else newHeight0 in
  let deltaW := newWidth - o_width o in
  let deltaH := newHeight - o_height o in
  let shiftX := (deltaW / 2) * signX in
  let shiftY := (deltaH / 2) * signY in
  let worldShiftX := shiftX * cos - shiftY * sin in
  let worldShiftY := shiftX * sin + shiftY * cos in
  let newCenterX := o_centerX o + worldShiftX in
  let newCenterY := o_centerY o + worldShiftY in
  Layer.set_frame layer (newCenterX - newWidth / 2) (newCenterY - newHeight / 2)
                  newWidth newHeight.

(** [resizeLayerFromHandle]: one pointer-move of a resize drag. *)
Definition resizeLayerFromHandle {M : MathEnv} (vp : Viewport) (ia : Interaction)
    (worldCoords : Point) (isShiftPressed : bool) : Interaction :=
  match transformingLayer ia with
  | None => ia
  | Some layer =>
    let snapThreshold := 10 / zoom vp in
    let snap (m : Q) :=
      if isCtrlPressed ia then
        if JS.ltb (JS.Math_abs (m - snapToGrid m)) snapThreshold
        then snapToGrid m else m
      else m in
    let mouseX := snap (px worldCoords) in
    let mouseY := snap (py worldCoords) in
    match transformOrigin ia with
    | None => ia
    | Some o =>
      let handle := resizeHandle ia in
      let anchor := resizeAnchor ia in
      let rad := o_rotation o * Math_PI / 180 in
      let cos := Math_cos rad in
      let sin := Math_sin rad in
      let vecX := mouseX - px anchor in
      let vecY := mouseY - py anchor in
      let signX := if includes handle "e" then 1 else if includes handle "w" then -1 else 0 in
      let signY := if includes handle "s" then 1 else if includes handle "n" then -1 else 0 in
      let localVecX0 := (vecX * cos + vecY * sin) * signX in
      let localVecY0 := (vecY * cos - vecX * sin) * signY in
      let localVecX := if Qeq_bool signX 0 then o_width o else localVecX0 in
      let localVecY := if Qeq_bool signY 0 then o_height o else localVecY0 in
      let transformed :=
        resizeTransformFrame layer o signX signY localVecX localVecY cos sin
                             isShiftPressed in
      let layer' :=
        match o_cropBounds o with
        | Some ocb =>
          if Layer.cropMode layer && JS.truthy (o_originalWidth o)
             && JS.truthy (o_originalHeight o)
          then Layer.set_cropBounds layer
                 (Some (resizeCropBounds layer o ocb handle (dragStart ia)
                                         mouseX mouseY cos sin))
          else transformed
        | None => transformed
        end in
      mkInteraction (mode ia) (dragStart ia) (transformOrigin ia)
                    (resizeHandle ia) (resizeAnchor ia) (isCtrlPressed ia)
                    (Some layer')
    end
  end.

(** ** Layer store and z-order (CanvasLayers.ts)

    Layer objects live in a store of objects addressed by reference;
    [canvas.layers], the selection and the arguments of [moveLayers] are
    arrays of references, so that an assignment to [layer.zIndex] is seen
    through every array that holds the object. *)

Module Store.

Local Open Scope Z_scope.

Record Canvas := mkCanvas {
  heap : gmap nat Layer.t;
  layers : list nat;
  selectedLayers : list nat;
  internalClipboard : list Layer.t;
  lastMousePosition : Point;
  outputAreaBounds : Rect
}.

(** [layer.zIndex] read through a reference. *)
Definition zIndexOf (h : gmap nat Layer.t) (r : nat) : Z :=
  match h !! r with Some l => Layer.zIndex l | None => 0 end.

(** [layer.zIndex = z] written through a reference. *)
Definition setZIndex (h : gmap nat Layer.t) (r : nat) (z : Z) : gmap nat Layer.t :=
  alter (fun l => Layer.set_zIndex l z) r h.

(** The zIndex values of the layers of the store, in array order. *)
Definition zIndices (c : Canvas) : list Z := map (zIndexOf (heap c)) (layers c).

(** [Array.prototype.sort] with a comparator: a stable sort.  [before a b]
    tells that [a] may stay in front of [b]. *)
Fixpoint insert_by {A} (before : A -> A -> bool) (a : A) (l : list A) : list A :=
  match l with
  | [] => [a]
  | b :: t => if before a b then a :: b :: t else b :: insert_by before a t
  end.

Fixpoint sort_by {A} (before : A -> A -> bool) (l : list A) : list A :=
  match l with
  | [] => []
  | a :: t => insert_by before a (sort_by before t)
  end.

(** [arr.sort((a, b) => a.zIndex - b.zIndex)] *)
Definition sortByZIndexAsc (h : gmap nat Layer.t) (arr : list nat) : list nat :=
  sort_by (fun a b => zIndexOf h a <=? zIndexOf h b) arr.

(** [arr.sort((a, b) => b.zIndex - a.zIndex)] *)
Definition sortByZIndexDesc (h : gmap nat Layer.t) (arr : list nat) : list nat :=
  sort_by (fun a b => zIndexOf h b <=? zIndexOf h a) arr.

(** [arr.indexOf(r)], -1 when absent. *)
Fixpoint indexOf (arr : list nat) (r : nat) : Z :=
  match arr with
  | [] => -1
  | a :: t =>
    if Nat.eqb a r then 0
    else let i := indexOf t r in if i <? 0 then -1 else i + 1
  end.

(** [arr.includes(r)] *)
Definition arr_includes (arr : list nat) (r : nat) : bool :=
  existsb (Nat.eqb r) arr.

(** [new Set(indices)] keeps the first occurrence of every index. *)
Fixpoint toSet (l : list Z) (seen : list Z) : list Z :=
  match l with
  | [] => []
  | i :: t => if existsb (Z.eqb i) seen then toSet t seen
              else i :: toSet t (i :: seen)
  end.

Definition set_has (s : list Z) (i : Z) : bool := existsb (Z.eqb i) s.

(** An array element read at an index: [undefined] ([None]) outside the
    elements. *)
Definition arr_get (arr : list (option nat)) (i : Z) : option nat :=
  if i <? 0 then None
  else match arr !! Z.to_nat i with Some v => v | None => None end.

(** An array element written at an index.  A write at a negative index sets
    a property that is not an element; the code never writes at or above
    the length. *)
Definition arr_set (arr : list (option nat)) (i : Z) (v : option nat)
  : list (option nat) :=
  if i <? 0 then arr else <[Z.to_nat i := v]> arr.

(** [[arr[i], arr[j]] = [arr[j], arr[i]]] *)
Definition arr_swap (arr : list (option nat)) (i j : Z) : list (option nat) :=
  let ai := arr_get arr i in
  let aj := arr_get arr j in
  arr_set (arr_set arr i aj) j ai.

Inductive Direction := Up | Down.

Record MoveOptions := mkMoveOptions {
  direction : option Direction;
  toIndex : option Z
}.

(** The [forEach] of the 'up' branch. *)
Definition moveUpStep (selectedIndices : list Z) (allLayers : list (option nat))
    (index : Z) : list (option nat) :=
  let targetIndex := index + 1 in
  if (targetIndex <? Z.of_nat (length allLayers))
     && negb (set_has selectedIndices targetIndex)
  then arr_swap allLayers index targetIndex
  else allLayers.

(** The [forEach] of the 'down' branch. *)
Definition moveDownStep (selectedIndices : list Z) (allLayers : list (option nat))
    (index : Z) : list (option nat) :=
  let targetIndex := index - 1 in
  if (0 <=? targetIndex) && negb (set_has selectedIndices targetIndex)
  then arr_swap allLayers index targetIndex
  else allLayers.

(** The reordering of the [direction] branch of [moveLayers]. *)
Definition reorderByDirection (d : Direction) (layersToMove : list nat)
    (store : list nat) : list (option nat) :=
  let allLayers := map Some store in
  let selectedIndices := toSet (map (indexOf store) layersToMove) [] in
  match d with
  | Up =>
    let sorted := sort_by (fun a b => b <=? a) selectedIndices in
    fold_left (moveUpStep selectedIndices) sorted allLayers
  | Down =>
    let sorted := sort_by (fun a b => a <=? b) selectedIndices in
    fold_left (moveDownStep selectedIndices) sorted allLayers
  end.

(** The loop of the [toIndex] branch, from position [i] of
    [displayedLayers] on; the result is the rest of [reorderedFinal] and
    the flag [inserted]. *)
Fixpoint reorderLoop (layersToMove : list nat) (toIdx : Z)
    (displayed : list nat) (i : Z) (inserted : bool) : list nat * bool :=
  match displayed with
  | [] => ([], inserted)
  | currentLayer :: rest =>
    let here := i =? toIdx in
    let '(tail, ins) :=
      reorderLoop layersToMove toIdx rest (i + 1) (inserted || here) in
    ((if here then layersToMove else [])
       ++ (if arr_includes layersToMove currentLayer then [] else [currentLayer])
       ++ tail, ins)
  end.

(** The reordering of the [toIndex] branch of [moveLayers]. *)
Definition reorderToIndex (h : gmap nat Layer.t) (layersToMove : list nat)
    (toIdx : Z) (store : list nat) : list nat :=
  let displayedLayers := sortByZIndexDesc h store in
  let '(reorderedFinal, inserted) :=
    reorderLoop layersToMove toIdx displayedLayers 0 false in
  if inserted then reorderedFinal else reorderedFinal ++ layersToMove.

(** What a call leaves behind: it returns, or it throws a [TypeError]
    (an assignment to a property of [undefined]) from the state reached. *)
Inductive Outcome :=
| Returned (c : Canvas)
| Threw (c : Canvas).

(** [finalLayers.forEach((layer, index) => layer.zIndex = zOf index)],
    started at [index]; [inr] when an element is [undefined]. *)
Fixpoint assignZIndices (zOf : Z -> Z) (finalLayers : list (option nat))
    (index : Z) (h : gmap nat Layer.t)
  : gmap nat Layer.t + gmap nat Layer.t :=
  match finalLayers with
  | [] => inl h
  | None :: _ => inr h
  | Some r :: rest =>
    assignZIndices zOf rest (index + 1) (setZIndex h r (zOf index))
  end.

(** The references held by an array without holes. *)
Definition elements_of (arr : list (option nat)) : list nat :=
  omap (fun v => v) arr.

Definition with_heap_layers (c : Canvas) (h : gmap nat Layer.t)
    (ls : list nat) : Canvas :=
  mkCanvas h ls (selectedLayers c) (internalClipboard c)
           (lastMousePosition c) (outputAreaBounds c).

(** [CanvasLayers.moveLayers] *)
Definition moveLayers (c : Canvas) (layersToMove : list nat)
    (options : MoveOptions) : Outcome :=
  match layersToMove with
  | [] => Returned c
  | _ :: _ =>
    let finalLayers : option (list (option nat)) :=
      match direction options, toIndex options with
      | Some d, _ => Some (reorderByDirection d layersToMove (layers c))
      | None, Some toIdx =>
        Some (map Some (reorderToIndex (heap c) layersToMove toIdx (layers c)))
      | None, None => None
      end in
    match finalLayers with
    | None => Returned c
    | Some finalLayers =>
      let totalLayers := Z.of_nat (length finalLayers) in
      let zOf (index : Z) :=
        match toIndex options with
        | Some _ => totalLayers - 1 - index
        | None => index
        end in
      match assignZIndices zOf finalLayers 0 (heap c) with
      | inr h => Threw (with_heap_layers c h (layers c))
      | inl h =>
        Returned (with_heap_layers c h (sortByZIndexAsc h (elements_of finalLayers)))
      end
    end
  end.

(** [moveLayerUp] and [moveLayerDown] *)
Definition moveLayerUp (c : Canvas) : Outcome :=
  match selectedLayers c with
  | [] => Returned c
  | _ => moveLayers c (selectedLayers c) (mkMoveOptions (Some Up) None)
  end.

Definition moveLayerDown (c : Canvas) : Outcome :=
  match selectedLayers c with
  | [] => Returned c
  | _ => moveLayers c (selectedLayers c) (mkMoveOptions (Some Down) None)
  end.

(** [Math.min(...zs)] and [Math.max(...zs)] of a non-empty array (the code
    reaches them with at least one element). *)
Definition spread_min (zs : list Z) : Z :=
  match zs with [] => 0 | a :: t => fold_left Z.min t a end.

Definition spread_max (zs : list Z) : Z :=
  match zs with [] => 0 | a :: t => fold_left Z.max t a end.

(** A new object gets a reference that no object of the store has. *)
Definition newRef (h : gmap nat Layer.t) : nat := fresh (dom h).

(** What [fuseLayers] obtains from its surroundings: the bounding box of
    the selection ([minX], [minY], [fusedWidth], [fusedHeight]), whether a
    drawing context could be made and the flattened image loaded, the new
    image and the generated identifiers. *)
Record FuseInput := mkFuseInput {
  fusedBox : Rect;
  ctxCreated : bool;
  imageLoaded : bool;
  fusedImage : nat;
  fusedId : string;
  fusedImageId : string
}.

(** [CanvasLayers.fuseLayers], taken as one step of the event loop. *)
Definition fuseLayers (c : Canvas) (inp : FuseInput) : Canvas :=
  if (length (selectedLayers c) <? 2)%nat then c
  else
    let fusedWidth := rwidth (fusedBox inp) in
    let fusedHeight := rheight (fusedBox inp) in
    if Qle_bool fusedWidth 0 || Qle_bool fusedHeight 0 then c
    else if negb (ctxCreated inp) || negb (imageLoaded inp) then c
    else
      let minZIndex := spread_min (map (zIndexOf (heap c)) (selectedLayers c)) in
      let fusedLayer :=
        Layer.mk (fusedId inp) (fusedImage inp) (fusedImageId inp) "Fused Layer"
                 (rx (fusedBox inp)) (ry (fusedBox inp)) fusedWidth fusedHeight
                 fusedWidth fusedHeight 0%Q minZIndex "normal" 1%Q true
                 false false false None None in
      let r := newRef (heap c) in
      let h1 := <[r := fusedLayer]> (heap c) in
      let kept :=
        List.filter (fun l => negb (arr_includes (selectedLayers c) l)) (layers c) in
      let sorted := sortByZIndexAsc h1 (kept ++ [r]) in
      match assignZIndices (fun index => index) (map Some sorted) 0 h1 with
      | inl h2 | inr h2 =>
        mkCanvas h2 sorted [r] (internalClipboard c)
                 (lastMousePosition c) (outputAreaBounds c)
      end.

(** A decoded image handed to [addLayerWithImage]. *)
Record ImageRes := mkImage { img_ref : nat; img_width : Q; img_height : Q }.

Inductive AddMode := A_default | A_fit | A_mouse.

(** [layerProps : Partial<Layer>]: the properties a caller wants to set. *)
Record LayerProps := mkProps {
  p_id : option string;
  p_image : option nat;
  p_imageId : option string;
  p_name : option string;
  p_x : option Q;
  p_y : option Q;
  p_width : option Q;
  p_height : option Q;
  p_originalWidth : option Q;
  p_originalHeight : option Q;
  p_rotation : option Q;
  p_zIndex : option Z;
  p_blendMode : option string;
  p_opacity : option Q;
  p_visible : option bool;
  p_flipH : option bool;
  p_flipV : option bool;
  p_cropMode : option bool;
  p_cropBounds : option Rect;
  p_blendArea : option Z
}.

Definition noProps : LayerProps :=
  mkProps None None None None None None None None None None
          None None None None None None None None None None.

Definition or_default {A} (o : option A) (d : A) : A :=
  match o with Some v => v | None => d end.

Definition or_keep {A} (o : option A) (d : option A) : option A :=
  match o with Some v => Some v | None => d end.

(** [{ ...l, ...layerProps }] *)
Definition spreadProps (l : Layer.t) (p : LayerProps) : Layer.t :=
  Layer.mk (or_default (p_id p) (Layer.id l))
           (or_default (p_image p) (Layer.image l))
           (or_default (p_imageId p) (Layer.imageId l))
           (or_default (p_name p) (Layer.name l))
           (or_default (p_x p) (Layer.x l))
           (or_default (p_y p) (Layer.y l))
           (or_default (p_width p) (Layer.width l))
           (or_default (p_height p) (Layer.height l))
           (or_default (p_originalWidth p) (Layer.originalWidth l))
           (or_default (p_originalHeight p) (Layer.originalHeight l))
           (or_default (p_rotation p) (Layer.rotation l))
           (or_default (p_zIndex p) (Layer.zIndex l))
           (or_default (p_blendMode p) (Layer.blendMode l))
           (or_default (p_opacity p) (Layer.opacity l))
           (or_default (p_visible p) (Layer.visible l))
           (or_default (p_flipH p) (Layer.flipH l))
           (or_default (p_flipV p) (Layer.flipV l))
           (or_default (p_cropMode p) (Layer.cropMode l))
           (or_keep (p_cropBounds p) (Layer.cropBounds l))
           (or_keep (p_blendArea p) (Layer.blendArea l)).

(** The highest zIndex among existing layers, -1 for an empty store. *)
Definition maxZIndex (c : Canvas) : Z :=
  if (0 <? length (layers c))%nat then spread_max (zIndices c) else -1.

(** [CanvasLayers.addLayerWithImage], taken as one step of the event loop;
    [None] when the image is missing (a validation error is thrown).  The
    result carries the reference of the new layer.  The optional [mask]
    property, which only replaces the image of the new layer, is left out. *)
Definition addLayerWithImage (c : Canvas) (image : option ImageRes)
    (layerProps : LayerProps) (addMode : AddMode) (targetArea : option Rect)
    (newId newImageId : string) : option (Canvas * nat) :=
  match image with
  | None => None
  | Some image =>
    let bounds := outputAreaBounds c in
    let area := or_default targetArea bounds in
    let '(finalWidth, finalHeight, finalX, finalY) :=
      match addMode with
      | A_fit =>
        let scale := JS.Math_min (rwidth area / img_width image)
                                 (rheight area / img_height image) in
        let fw := (img_width image * scale)%Q in
        let fh := (img_height image * scale)%Q in
        (fw, fh, (rx area + (rwidth area - fw) / 2)%Q,
                 (ry area + (rheight area - fh) / 2)%Q)
      | A_mouse =>
        (img_width image, img_height image,
         (px (lastMousePosition c) - img_width image / 2)%Q,
         (py (lastMousePosition c) - img_height image / 2)%Q)
      | A_default =>
        (img_width image, img_height image,
         (rx area + (rwidth area - img_width image) / 2)%Q,
         (ry area + (rheight area - img_height image) / 2)%Q)
      end in
    let layer :=
      spreadProps
        (Layer.mk newId (img_ref image) newImageId "Layer"
                  finalX finalY finalWidth finalHeight
                  (img_width image) (img_height image) 0%Q
                  (maxZIndex c + 1) "normal" 1%Q true
                  false false false None None)
        layerProps in
    let r := newRef (heap c) in
    Some (mkCanvas (<[r := layer]> (heap c)) (layers c ++ [r]) [r]
                   (internalClipboard c) (lastMousePosition c)
                   (outputAreaBounds c), r)
  end.

(** [CanvasLayers.copySelectedLayers], up to the internal clipboard: the
    selected layer objects are copied in the order of the selection.  The
    rest of the function hands a flattened image to the system clipboard
    and does not touch the store. *)
Definition copySelectedLayers (c : Canvas) : Canvas :=
  match selectedLayers c with
  | [] => c
  | _ :: _ =>
    mkCanvas (heap c) (layers c) (selectedLayers c)
             (omap (fun r => heap c !! r) (selectedLayers c))
             (lastMousePosition c) (outputAreaBounds c)
  end.

(** The [forEach] of [pasteLayers] from position [index] of the clipboard
    on: every clipboard entry becomes a new object pushed on the store. *)
Fixpoint pasteLoop (offsetX offsetY : Q) (maxZ : Z) (clipboard : list Layer.t)
    (index : Z) (h : gmap nat Layer.t) (ls newLayers : list nat)
  : gmap nat Layer.t * list nat * list nat :=
  match clipboard with
  | [] => (h, ls, newLayers)
  | clipboardLayer :: rest =>
    let newLayer :=
      Layer.set_zIndex
        (Layer.set_position clipboardLayer
           (Layer.x clipboardLayer + offsetX)%Q (Layer.y clipboardLayer + offsetY)%Q)
        (maxZ + 1 + index) in
    let r := newRef h in
    pasteLoop offsetX offsetY maxZ rest (index + 1)
              (<[r := newLayer]> h) (ls ++ [r]) (newLayers ++ [r])
  end.

(** [CanvasLayers.pasteLayers] *)
Definition pasteLayers (c : Canvas) : Canvas :=
  match internalClipboard c with
  | [] => c
  | first :: rest =>
    let minX := fold_left (fun m l => JS.Math_min m (Layer.x l)) rest (Layer.x first) in
    let minY := fold_left (fun m l => JS.Math_min m (Layer.y l)) rest (Layer.y first) in
    let maxX := fold_left (fun m l => JS.Math_max m (Layer.x l + Layer.width l)%Q) rest
                          (Layer.x first + Layer.width first)%Q in
    let maxY := fold_left (fun m l => JS.Math_max m (Layer.y l + Layer.height l)%Q) rest
                          (Layer.y first + Layer.height first)%Q in
    let centerX := ((minX + maxX) / 2)%Q in
    let centerY := ((minY + maxY) / 2)%Q in
    let offsetX := (px (lastMousePosition c) - centerX)%Q in
    let offsetY := (py (lastMousePosition c) - centerY)%Q in
    let '(h, ls, newLayers) :=
      pasteLoop offsetX offsetY (maxZIndex c) (internalClipboard c) 0
                (heap c) (layers c) [] in
    mkCanvas h ls newLayers (internalClipboard c)
             (lastMousePosition c) (outputAreaBounds c)
  end.

(** The zIndex values of a store of [N] layers are exactly 0, ..., N-1. *)
Definition zIndexContiguous (c : Canvas) : Prop :=
  Permutation (zIndices c) (map Z.of_nat (seq 0 (length (layers c)))).

(** A store is well formed when its array holds every object once and every
    reference of the array and of the selection is that of an object. *)
Definition wellFormed (c : Canvas) : Prop :=
  NoDup (layers c) /\
  (forall r, In r (layers c) -> is_Some (heap c !! r)) /\
  (forall r, In r (selectedLayers c) -> is_Some (heap c !! r)).

(** A z-order operation of the panel and the keyboard. *)
Inductive ZOrderOp :=
| OpMoveDirection (layersToMove : list nat) (d : Direction)
| OpMoveToIndex (layersToMove : list nat) (toIdx : Z)
| OpFuse (inp : FuseInput).

Definition runZOrderOp (c : Canvas) (op : ZOrderOp) : Outcome :=
  match op with
  | OpMoveDirection sel d => moveLayers c sel (mkMoveOptions (Some d) None)
  | OpMoveToIndex sel toIdx => moveLayers c sel (mkMoveOptions None (Some toIdx))
  | OpFuse inp => Returned (fuseLayers c inp)
  end.

(** When an operation goes past its guards: [moveLayers] is given a
    non-empty array of distinct layers of the store, [fuseLayers] finds at
    least two layers selected, a bounding box of positive size and an
    image. *)
Definition opApplies (c : Canvas) (op : ZOrderOp) : Prop :=
  match op with
  | OpMoveDirection sel _ | OpMoveToIndex sel _ =>
    sel <> [] /\ NoDup sel /\ (forall r, In r sel -> In r (layers c))
  | OpFuse inp =>
    (2 <= length (selectedLayers c))%nat /\
    (0 < rwidth (fusedBox inp))%Q /\ (0 < rheight (fusedBox inp))%Q /\
    ctxCreated inp = true /\ imageLoaded inp = true
  end.

(** An array without holes that holds the layers of the store. *)
Definition arrangement (store : list nat) (arr : list (option nat)) : Prop :=
  exists l', arr = map Some l' /\ Permutation l' store.

(** The layers of [displayedLayers] that are not moved. *)
Definition notMoved (sel : list nat) (displayed : list nat) : list nat :=
  List.filter (fun r => negb (arr_includes sel r)) displayed.

End Store.

(** ** History (CanvasState.ts)

    The stacks are arrays with their top at the end.  [cloneLayers] copies
    every layer object, so the stacks hold layer states by value and never
    alias the live layers. *)

Module History.

(** The helpers of utils/CommonUtils.js that the history code calls: the
    deep clone of a layer array and the structural signature of a layer
    state, a value that can be compared for equality. *)
Class CommonUtils := {
  Signature : Type;
  Signature_eq_dec :: EqDecision Signature;
  cloneLayers : list Layer.t -> list Layer.t;
  getStateSignature : list Layer.t -> Signature
}.

(** The content of a mask raster; [saveMaskState] copies it on a new canvas. *)
Definition MaskCanvas : Type := list Z.

Definition historyLimit : nat := 100.

Record State := mkState {
  layers : list Layer.t;
  hasMaskTool : bool;
  maskIsActive : bool;
  mask : MaskCanvas;
  layersUndoStack : list (list Layer.t);
  layersRedoStack : list (list Layer.t);
  maskUndoStack : list MaskCanvas;
  maskRedoStack : list MaskCanvas
}.

(** [arr.pop()], [arr.push(v)] and [arr.shift()] on the array itself. *)
Definition pop {A} (arr : list A) : list A := removelast arr.
Definition push {A} (arr : list A) (v : A) : list A := arr ++ [v].
Definition shift {A} (arr : list A) : list A := tl arr.

Definition set_layers (s : State) (ls : list Layer.t) : State :=
  mkState ls (hasMaskTool s) (maskIsActive s) (mask s)
          (layersUndoStack s) (layersRedoStack s)
          (maskUndoStack s) (maskRedoStack s).

Definition set_layer_stacks (s : State) (undo redo : list (list Layer.t)) : State :=
  mkState (layers s) (hasMaskTool s) (maskIsActive s) (mask s)
          undo redo (maskUndoStack s) (maskRedoStack s).

Definition set_mask_stacks (s : State) (undo redo : list MaskCanvas) : State :=
  mkState (layers s) (hasMaskTool s) (maskIsActive s) (mask s)
          (layersUndoStack s) (layersRedoStack s) undo redo.

Definition set_mask (s : State) (m : MaskCanvas) : State :=
  mkState (layers s) (hasMaskTool s) (maskIsActive s) m
          (layersUndoStack s) (layersRedoStack s)
          (maskUndoStack s) (maskRedoStack s).

(** [this.canvas.maskTool && this.canvas.maskTool.isActive] *)
Definition maskToolActive (s : State) : bool := hasMaskTool s && maskIsActive s.

(** [CanvasState.saveLayersState] *)
Definition saveLayersState {U : CommonUtils} (replaceLast : bool) (s : State) : State :=
  let stack0 :=
    if replaceLast && (0 <? length (layersUndoStack s))%nat
    then pop (layersUndoStack s) else layersUndoStack s in
  let currentState := cloneLayers (layers s) in
  let currentStateSignature := getStateSignature currentState in
  let unchanged :=
    match last stack0 with
    | Some lastState =>
      bool_decide (getStateSignature lastState = currentStateSignature)
    | None => false
    end in
  if unchanged then set_layer_stacks s stack0 (layersRedoStack s)
  else
    let stack1 := push stack0 currentState in
    let stack2 :=
      if (historyLimit <? length stack1)%nat then shift stack1 else stack1 in
    set_layer_stacks s stack2 [].

(** [CanvasState.saveMaskState] *)
Definition saveMaskState (replaceLast : bool) (s : State) : State :=
  if negb (hasMaskTool s) then s
  else
    let stack0 :=
      if replaceLast && (0 <? length (maskUndoStack s))%nat
      then pop (maskUndoStack s) else maskUndoStack s in
    let clonedCanvas := mask s in
    let stack1 := push stack0 clonedCanvas in
    let stack2 :=
      if (historyLimit <? length stack1)%nat then shift stack1 else stack1 in
    set_mask_stacks s stack2 [].

(** [CanvasState.saveState] *)
Definition saveState {U : CommonUtils} (replaceLast : bool) (s : State) : State :=
  if maskToolActive s then saveMaskState replaceLast s
  else saveLayersState replaceLast s.

(** [CanvasState.undoLayersState] *)
Definition undoLayersState {U : CommonUtils} (s : State) : State :=
  if (length (layersUndoStack s) <=? 1)%nat then s
  else
    match last (layersUndoStack s) with
    | None => s
    | Some currentState =>
      let undo := pop (layersUndoStack s) in
      let redo := push (layersRedoStack s) currentState in
      match last undo with
      | None => set_layer_stacks s undo redo
      | Some prevState =>
        set_layers (set_layer_stacks s undo redo) (cloneLayers prevState)
      end
    end.

(** [CanvasState.redoLayersState] *)
Definition redoLayersState {U : CommonUtils} (s : State) : State :=
  match last (layersRedoStack s) with
  | None => s
  | Some nextState =>
    set_layers
      (set_layer_stacks s (push (layersUndoStack s) nextState)
                        (pop (layersRedoStack s)))
      (cloneLayers nextState)
  end.

(** [CanvasState.undoMaskState]; [restoreMaskFromSavedState] puts the saved
    raster back in the mask tool. *)
Definition undoMaskState (s : State) : State :=
  if negb (hasMaskTool s) || (length (maskUndoStack s) <=? 1)%nat then s
  else
    match last (maskUndoStack s) with
    | None => s
    | Some currentState =>
      let undo := pop (maskUndoStack s) in
      let redo := push (maskRedoStack s) currentState in
      match last undo with
      | None => set_mask_stacks s undo redo
      | Some prevState => set_mask (set_mask_stacks s undo redo) prevState
      end
    end.

(** [CanvasState.redoMaskState] *)
Definition redoMaskState (s : State) : State :=
  if negb (hasMaskTool s) then s
  else
    match last (maskRedoStack s) with
    | None => s
    | Some nextState =>
      set_mask
        (set_mask_stacks s (push (maskUndoStack s) nextState)
                         (pop (maskRedoStack s)))
        nextState
    end.

(** [CanvasState.undo] and [CanvasState.redo] *)
Definition undo {U : CommonUtils} (s : State) : State :=
  if maskToolActive s then undoMaskState s else undoLayersState s.

Definition redo {U : CommonUtils} (s : State) : State :=
  if maskToolActive s then redoMaskState s else redoLayersState s.

(** The undo and redo stacks that [undo] and [redo] work on, by their
    lengths. *)
Definition activeUndoCount (s : State) : nat :=
  if maskToolActive s then length (maskUndoStack s)
  else length (layersUndoStack s).

Definition activeRedoCount (s : State) : nat :=
  if maskToolActive s then length (maskRedoStack s)
  else length (layersRedoStack s).

(** Mutate the layer store to [ls], then take a snapshot. *)
Definition snapshotOf {U : CommonUtils} (s : State) (ls : list Layer.t) : State :=
  saveState false (set_layers s ls).

(** [n] calls of [undo]. *)
Fixpoint undoTimes {U : CommonUtils} (n : nat) (s : State) : State :=
  match n with
  | O => s
  | S k => undoTimes k (undo s)
  end.

(** A session that has not taken any snapshot yet. *)
Definition freshSession (ls : list Layer.t) : State :=
  mkState ls true false [] [] [] [] [].

(** [CanvasState.clearHistory] *)
Definition clearHistory (s : State) : State :=
  if maskToolActive s then set_mask_stacks s [] []
  else set_layer_stacks s [] [].

(** [CanvasState.getHistoryInfo] *)
Record HistoryInfo := mkHistoryInfo {
  undoCount : nat;
  redoCount : nat;
  canUndo : bool;
  canRedo : bool;
  info_historyLimit : nat
}.

Definition getHistoryInfo (s : State) : HistoryInfo :=
  if maskToolActive s then
    mkHistoryInfo (length (maskUndoStack s)) (length (maskRedoStack s))
                  (1 <? length (maskUndoStack s))%nat
                  (0 <? length (maskRedoStack s))%nat historyLimit
  else
    mkHistoryInfo (length (layersUndoStack s)) (length (layersRedoStack s))
                  (1 <? length (layersUndoStack s))%nat
                  (0 <? length (layersRedoStack s))%nat historyLimit.

Definition set_maskIsActive (s : State) (b : bool) : State :=
  mkState (layers s) (hasMaskTool s) b (mask s)
          (layersUndoStack s) (layersRedoStack s)
          (maskUndoStack s) (maskRedoStack s).

(** What can happen to a session between two looks at its history: a call
    of the history, an edit of the layers or of the mask, the mask tool
    switched on or off. *)
Inductive HistoryOp :=
| DoSave (replaceLast : bool)
| DoUndo
| DoRedo
| DoClear
| DoEditLayers (ls : list Layer.t)
| DoEditMask (m : MaskCanvas)
| DoSwitchMaskTool (active : bool).

Definition applyOp {U : CommonUtils} (s : State) (op : HistoryOp) : State :=
  match op with
  | DoSave replaceLast => saveState replaceLast s
  | DoUndo => undo s
  | DoRedo => redo s
  | DoClear => clearHistory s
  | DoEditLayers ls => set_layers s ls
  | DoEditMask m => set_mask s m
  | DoSwitchMaskTool active => set_maskIsActive s active
  end.

Definition applyOps {U : CommonUtils} (s : State) (ops : list HistoryOp) : State :=
  fold_left applyOp ops s.

(** Both histories hold at most [historyLimit] states, undo and redo
    stacks together. *)
Definition withinLimit (s : State) : Prop :=
  (length (layersUndoStack s) + length (layersRedoStack s) <= historyLimit)%nat
  /\ (length (maskUndoStack s) + length (maskRedoStack s) <= historyLimit)%nat.

(** Modelled from the spec: [cloneLayers] and [getStateSignature] of
    utils/CommonUtils.js, which is not among the sources.  The clone copies
    every serializable field and shares the image; the signature is
    structural over the serializable fields and leaves the image out.
    Numbers are compared by value. *)
Definition signatureOfLayer (l : Layer.t) : Layer.t :=
  Layer.mk (Layer.id l) 0 (Layer.imageId l) (Layer.name l)
           (Qred (Layer.x l)) (Qred (Layer.y l))
           (Qred (Layer.width l)) (Qred (Layer.height l))
           (Qred (Layer.originalWidth l)) (Qred (Layer.originalHeight l))
           (Qred (Layer.rotation l)) (Layer.zIndex l) (Layer.blendMode l)
           (Qred (Layer.opacity l)) (Layer.visible l)
           (Layer.flipH l) (Layer.flipV l) (Layer.cropMode l)
           (option_map (fun b => mkRect (Qred (rx b)) (Qred (ry b))
                                        (Qred (rwidth b)) (Qred (rheight b)))
                       (Layer.cropBounds l))
           (Layer.blendArea l).

#[export] Instance Q_eq_dec : EqDecision Q.
Proof. solve_decision. Defined.

#[export] Instance Rect_eq_dec : EqDecision Rect.
Proof. solve_decision. Defined.

#[export] Instance Layer_eq_dec : EqDecision Layer.t.
Proof. solve_decision. Defined.

Definition structuralUtils : CommonUtils :=
  {| Signature := list Layer.t;
     cloneLayers := fun ls => ls;
     getStateSignature := map signatureOfLayer |}.

End History.

(** ** Compositor: the processed-image cache (CanvasLayers.ts) *)

Module Compositor.

Local Open Scope Z_scope.

(** Template-literal formatting of a number, [`${n}`]. *)
Class NumberFormat := { numberToString : Q -> string }.

(** A processed image, by reference. *)
Definition Image : Type := nat.

(** [layer.blendArea ?? 0] *)
Definition blendAreaOf (l : Layer.t) : Z := Store.or_default (Layer.blendArea l) 0.

(** The crop part of a fingerprint. *)
Definition cropKeyOf {F : NumberFormat} (l : Layer.t) : string :=
  match Layer.cropBounds l with
  | Some b =>
    numberToString (rx b) +:+ "," +:+ numberToString (ry b) +:+ ","
      +:+ numberToString (rwidth b) +:+ "," +:+ numberToString (rheight b)
  | None => "nocrop"
  end.

(** [getProcessedImageCacheKey] *)
Definition getProcessedImageCacheKey {F : NumberFormat} (l : Layer.t) : string :=
  Layer.id l +:+ "_" +:+ pretty (blendAreaOf l) +:+ "_" +:+ cropKeyOf l
    +:+ "_" +:+ numberToString (Layer.width l)
    +:+ "_" +:+ numberToString (Layer.height l).

(** [s.split(sep)] for a one-character separator. *)
Fixpoint split_on (sep : ascii) (s : string) : list string :=
  match s with
  | EmptyString => [EmptyString]
  | String a rest =>
    let parts := split_on sep rest in
    if Ascii.eqb a sep then EmptyString :: parts
    else match parts with
         | p :: ps => String a p :: ps
         | [] => [String a EmptyString]
         end
  end.

(** [parseInt(s)]: leading white space, a sign, then the longest run of
    digits (hexadecimal after [0x]); [None] stands for [NaN]. *)
Definition is_white (a : ascii) : bool :=
  let n := nat_of_ascii a in
  (n =? 32)%nat || ((9 <=? n)%nat && (n <=? 13)%nat).

Fixpoint skip_white (s : string) : string :=
  match s with
  | String a rest => if is_white a then skip_white rest else s
  | EmptyString => s
  end.

Definition digit_value (radix : Z) (a : ascii) : option Z :=
  let n := Z.of_nat (nat_of_ascii a) in
  let v :=
    if (48 <=? n) && (n <=? 57) then Some (n - 48)
    else if (97 <=? n) && (n <=? 102) then Some (n - 87)
    else if (65 <=? n) && (n <=? 70) then Some (n - 55)
    else None in
  match v with
  | Some d => if d <? radix then Some d else None
  | None => None
  end.

Fixpoint parse_digits (radix : Z) (s : string) (acc : Z) (seen : bool) : option Z :=
  match s with
  | EmptyString => if seen then Some acc else None
  | String a rest =>
    match digit_value radix a with
    | Some d => parse_digits radix rest (acc * radix + d) true
    | None => if seen then Some acc else None
    end
  end.

Definition parseInt (s : string) : option Z :=
  let s1 := skip_white s in
  let '(negative, s2) :=
    match s1 with
    | String "-" rest => (true, rest)
    | String "+" rest => (false, rest)
    | _ => (false, s1)
    end in
  let '(radix, s3) :=
    match s2 with
    | String "0" (String "x" rest) => (16, rest)
    | String "0" (String "X" rest) => (16, rest)
    | _ => (10, s2)
    end in
  match parse_digits radix s3 0 false with
  | Some v => Some (if negative then - v else v)
  | None => None
  end.

(** The score of one cache entry in the best-match search of [_drawLayer];
    [None] stands for [NaN]. *)
Definition scoreEntry {F : NumberFormat} (layer : Layer.t) (key : string) : option Z :=
  let currentCacheKey := getProcessedImageCacheKey layer in
  let currentBlendArea := blendAreaOf layer in
  let currentCropKey := cropKeyOf layer in
  let keyParts := split_on "_" key in
  if (3 <=? length keyParts)%nat then
    let cacheBlendArea := parseInt (nth 1 keyParts "") in
    let cacheCropKey := nth 2 keyParts "" in
    match cacheBlendArea with
    | None => None
    | Some cacheBlendArea =>
      let s1 :=
        if cacheBlendArea =? currentBlendArea
        then 0 + 100 else 0 - Z.abs (cacheBlendArea - currentBlendArea) in
      let s2 := if String.eqb cacheCropKey currentCropKey then s1 + 200 else s1 - 150 in
      let s3 := if String.eqb key currentCacheKey then s2 + 50 else s2 in
      Some s3
    end
  else Some 0.

(** One turn of the loop over [processedImageCache.entries()]. *)
Definition bestStep {F : NumberFormat} (layer : Layer.t)
    (acc : Z * option Image) (entry : string * Image) : Z * option Image :=
  let '(bestScore, bestMatchingCache) := acc in
  let '(key, image) := entry in
  if String.prefix (Layer.id layer +:+ "_") key then
    match scoreEntry layer key with
    | Some score =>
      if bestScore <? score then (score, Some image) else acc
    | None => acc
    end
  else acc.

(** The best-match search: the loop started with [bestScore = -1]. *)
Definition findBestMatchingCache {F : NumberFormat} (layer : Layer.t)
    (cache : list (string * Image)) : option Image :=
  snd (fold_left (bestStep layer) cache (-1, None)).

(** [Map.get], [Map.set] and [Map.delete] on a map kept in insertion order. *)
Fixpoint cache_get (cache : list (string * Image)) (key : string) : option Image :=
  match cache with
  | [] => None
  | (k, v) :: rest => if String.eqb k key then Some v else cache_get rest key
  end.

Fixpoint cache_set (cache : list (string * Image)) (key : string) (v : Image)
  : list (string * Image) :=
  match cache with
  | [] => [(key, v)]
  | (k, w) :: rest =>
    if String.eqb k key then (k, v) :: rest else (k, w) :: cache_set rest key v
  end.

Inductive TransformType := T_crop | T_scale | T_wheel.

Definition transformTypeName (t : TransformType) : string :=
  match t with T_crop => "crop" | T_scale => "scale" | T_wheel => "wheel" end.

(** The closures handed to [setTimeout]: the debounced creation of
    [scheduleProcessedImageCreation] and [executeTransform] of
    [handleTransformEnd] (with the timer key to forget when it was
    debounced).  Each holds the layer object and the fingerprint computed
    when the timer was set. *)
Inductive Callback :=
| CbDebouncedCreate (layer : nat) (cacheKey : string)
| CbExecuteTransform (layer : nat) (layerId : string) (cacheKey : string)
    (transformType : TransformType) (timerKey : option string).

Record Timer := mkTimer { timer_id : nat; due : nat; callback : Callback }.

(** Which code path called [createProcessedImage]. *)
Inductive CreationSource := FromDebounce | FromTransformEnd.

(** One call of [createProcessedImage]: when, for which layer, from where. *)
Record Creation := mkCreation {
  c_time : nat;
  c_layer : string;
  c_source : CreationSource
}.

(** The state of the compositor and of the timers of the window.  Time is
    counted in milliseconds; [creationLog] records the calls of
    [createProcessedImage] and has no counterpart in the code. *)
Record Comp := mkComp {
  processedImageCache : list (string * Image);
  processedImageDebounceTimers : gmap string nat;
  layersAdjustingBlendArea : gset string;
  layersTransformingCropBounds : gset string;
  layersTransformingScale : gset string;
  layersWheelScaling : gset string;
  now : nat;
  nextTimerId : nat;
  timers : list Timer;
  nextImage : Image;
  creationLog : list Creation
}.

Definition PROCESSED_IMAGE_DEBOUNCE_DELAY : nat := 1000.

Definition with_cache (c : Comp) (cache : list (string * Image)) : Comp :=
  mkComp cache (processedImageDebounceTimers c) (layersAdjustingBlendArea c)
         (layersTransformingCropBounds c) (layersTransformingScale c)
         (layersWheelScaling c) (now c) (nextTimerId c) (timers c)
         (nextImage c) (creationLog c).

Definition with_debounceTimers (c : Comp) (m : gmap string nat) : Comp :=
  mkComp (processedImageCache c) m (layersAdjustingBlendArea c)
         (layersTransformingCropBounds c) (layersTransformingScale c)
         (layersWheelScaling c) (now c) (nextTimerId c) (timers c)
         (nextImage c) (creationLog c).

Definition with_timers (c : Comp) (nextId : nat) (ts : list Timer) : Comp :=
  mkComp (processedImageCache c) (processedImageDebounceTimers c)
         (layersAdjustingBlendArea c)
         (layersTransformingCropBounds c) (layersTransformingScale c)
         (layersWheelScaling c) (now c) nextId ts
         (nextImage c) (creationLog c).

Definition with_now (c : Comp) (t : nat) : Comp :=
  mkComp (processedImageCache c) (processedImageDebounceTimers c)
         (layersAdjustingBlendArea c)
         (layersTransformingCropBounds c) (layersTransformingScale c)
         (layersWheelScaling c) t (nextTimerId c) (timers c)
         (nextImage c) (creationLog c).

(** The set a transform type keeps its layers in. *)
Definition transformingSet (c : Comp) (t : TransformType) : gset string :=
  match t with
  | T_crop => layersTransformingCropBounds c
  | T_scale => layersTransformingScale c
  | T_wheel => layersWheelScaling c
  end.

Definition with_transformingSet (c : Comp) (t : TransformType)
    (s : gset string) : Comp :=
  mkComp (processedImageCache c) (processedImageDebounceTimers c)
         (layersAdjustingBlendArea c)
         (match t with T_crop => s | _ => layersTransformingCropBounds c end)
         (match t with T_scale => s | _ => layersTransformingScale c end)
         (match t with T_wheel => s | _ => layersWheelScaling c end)
         (now c) (nextTimerId c) (timers c) (nextImage c) (creationLog c).

(** [window.setTimeout(cb, delay)]: timer identifiers are positive. *)
Definition setTimeout (c : Comp) (cb : Callback) (delay : nat) : Comp * nat :=
  let tid := nextTimerId c in
  (with_timers c (S tid) (timers c ++ [mkTimer tid (now c + delay) cb]), tid).

(** [clearTimeout(tid)] *)
Definition clearTimeout (c : Comp) (tid : nat) : Comp :=
  with_timers c (nextTimerId c)
              (List.filter (fun t => negb (timer_id t =? tid)%nat) (timers c)).

(** [createProcessedImage]: a new image; a drawing context is taken to be
    available.  The call is recorded. *)
Definition createProcessedImage (c : Comp) (layer : Layer.t)
    (source : CreationSource) : Comp * Image :=
  let img := nextImage c in
  (mkComp (processedImageCache c) (processedImageDebounceTimers c)
          (layersAdjustingBlendArea c)
          (layersTransformingCropBounds c) (layersTransformingScale c)
          (layersWheelScaling c) (now c) (nextTimerId c) (timers c)
          (S img)
          (creationLog c ++ [mkCreation (now c) (Layer.id layer) source]),
   img).

(** [scheduleProcessedImageCreation]: clear the timer of the layer, if any,
    and set a new one. *)
Definition scheduleProcessedImageCreation (c : Comp) (r : nat)
    (layer : Layer.t) (cacheKey : string) : Comp :=
  let c1 :=
    match processedImageDebounceTimers c !! Layer.id layer with
    | Some existingTimer =>
      if (existingTimer =? 0)%nat then c else clearTimeout c existingTimer
    | None => c
    end in
  let '(c2, timer) :=
    setTimeout c1 (CbDebouncedCreate r cacheKey) PROCESSED_IMAGE_DEBOUNCE_DELAY in
  with_debounceTimers c2 (<[Layer.id layer := timer]> (processedImageDebounceTimers c2)).

(** [getProcessedImage] of the layer object [r] with state [layer]. *)
Definition getProcessedImage {F : NumberFormat} (c : Comp) (r : nat)
    (layer : Layer.t) : Comp * option Image :=
  let needsBlendAreaEffect := 0 <? blendAreaOf layer in
  let needsCropEffect :=
    match Layer.cropBounds layer with
    | Some _ => JS.truthy (Layer.originalWidth layer)
                && JS.truthy (Layer.originalHeight layer)
    | None => false
    end in
  if negb needsBlendAreaEffect && negb needsCropEffect then (c, None)
  else if bool_decide (Layer.id layer ∈ layersAdjustingBlendArea c) then (c, None)
  else
    let cacheKey := getProcessedImageCacheKey layer in
    if bool_decide (Layer.id layer ∈ layersWheelScaling c)
    then (c, cache_get (processedImageCache c) cacheKey)
    else
      match cache_get (processedImageCache c) cacheKey with
      | Some img => (c, Some img)
      | None => (scheduleProcessedImageCreation c r layer cacheKey, None)
      end.

(** How [_drawLayer] ends up drawing a layer. *)
Inductive DrawPath :=
| DrawProcessed (img : Image)
| DrawBestMatching (img : Image)
| DrawLiveBlendArea
| DrawLayerImage.

(** [_drawLayer] for the layer object [r] with state [layer]; [resizing]
    is the id of [interaction.transformingLayer] while the interaction mode
    is 'resizing'. *)
Definition _drawLayer {F : NumberFormat} (resizing : option string) (c : Comp)
    (r : nat) (layer : Layer.t) : Comp * DrawPath :=
  let needsBlendAreaEffect := 0 <? blendAreaOf layer in
  let resizingThis :=
    match resizing with
    | Some i => String.eqb i (Layer.id layer)
    | None => false
    end in
  let isTransformingCropBounds := resizingThis && Layer.cropMode layer in
  let isTransformingScale := resizingThis && negb (Layer.cropMode layer) in
  let isThisLayerBeingAdjusted :=
    bool_decide (Layer.id layer ∈ layersAdjustingBlendArea c) in
  let isTransformingCropBoundsSet :=
    bool_decide (Layer.id layer ∈ layersTransformingCropBounds c) in
  let isTransformingScaleSet :=
    bool_decide (Layer.id layer ∈ layersTransformingScale c) in
  let isWheelScaling := bool_decide (Layer.id layer ∈ layersWheelScaling c) in
  let shouldRenderLive :=
    isTransformingCropBounds || isTransformingScale || isThisLayerBeingAdjusted
    || isTransformingCropBoundsSet || isTransformingScaleSet || isWheelScaling in
  let '(c1, processedImage) := getProcessedImage c r layer in
  let scaling := isTransformingScale || isTransformingScaleSet || isWheelScaling in
  let bestMatchingCache :=
    if scaling then findBestMatchingCache layer (processedImageCache c1) else None in
  (c1,
   match processedImage, bestMatchingCache with
   | Some img, _ =>
     if negb shouldRenderLive then DrawProcessed img
     else match bestMatchingCache with
          | Some best => DrawBestMatching best
          | None =>
            if needsBlendAreaEffect && shouldRenderLive && negb isWheelScaling
            then DrawLiveBlendArea else DrawLayerImage
          end
   | None, Some best => DrawBestMatching best
   | None, None =>
     if needsBlendAreaEffect && shouldRenderLive && negb isWheelScaling
     then DrawLiveBlendArea else DrawLayerImage
   end).

(** A session: the layer store, the viewport, the interaction record and
    the compositor.  The interaction record holds the layer under
    transformation; [transformingRef] is the reference of that object in the
    store, through which the store sees its mutations. *)
Record Session := mkSession {
  heap : gmap nat Layer.t;
  layers : list nat;
  viewport : Viewport;
  interaction : Interaction;
  transformingRef : option nat;
  comp : Comp
}.

Definition with_comp (s : Session) (c : Comp) : Session :=
  mkSession (heap s) (layers s) (viewport s) (interaction s)
            (transformingRef s) c.

(** The id of [interaction.transformingLayer] while the mode is 'resizing'. *)
Definition resizingId (s : Session) : option string :=
  match mode (interaction s), transformingLayer (interaction s) with
  | M_resizing, Some l => Some (Layer.id l)
  | _, _ => None
  end.

(** One turn of the [forEach] of [_drawLayers]. *)
Definition drawStep {F : NumberFormat} (resizing : option string)
    (h : gmap nat Layer.t) (c : Comp) (r : nat) : Comp :=
  match h !! r with
  | Some layer =>
    if Layer.visible layer then fst (_drawLayer resizing c r layer) else c
  | None => c
  end.

(** [_drawLayers]: the visible layers in ascending zIndex. *)
Definition _drawLayers {F : NumberFormat} (resizing : option string)
    (h : gmap nat Layer.t) (c : Comp) (ls : list nat) : Comp :=
  fold_left (drawStep resizing h) (Store.sortByZIndexAsc h ls) c.

(** Modelled from the spec: [canvas.render()], whose renderer is not among
    the sources.  Rendering is synchronous and draws the current layer
    store with [_drawLayers]. *)
Definition render {F : NumberFormat} (s : Session) : Session :=
  with_comp s (_drawLayers (resizingId s) (heap s) (comp s) (layers s)).

(** [handleTransformEnd] *)
Definition handleTransformEnd {F : NumberFormat} (c : Comp) (r : nat)
    (layer : Layer.t) (transformType : TransformType) (delay : nat) : Comp :=
  if blendAreaOf layer =? 0 then c
  else
    let layerId := Layer.id layer in
    let cacheKey := getProcessedImageCacheKey layer in
    let c1 :=
      with_transformingSet c transformType
        ({[layerId]} ∪ transformingSet c transformType) in
    if (0 <? delay)%nat then
      let timerKey := layerId +:+ "_" +:+ transformTypeName transformType +:+ "scaling" in
      let c2 :=
        match processedImageDebounceTimers c1 !! timerKey with
        | Some existingTimer =>
          if (existingTimer =? 0)%nat then c1 else clearTimeout c1 existingTimer
        | None => c1
        end in
      let '(c3, timer) :=
        setTimeout c2 (CbExecuteTransform r layerId cacheKey transformType (Some timerKey))
                   delay in
      with_debounceTimers c3 (<[timerKey := timer]> (processedImageDebounceTimers c3))
    else
      fst (setTimeout c1 (CbExecuteTransform r layerId cacheKey transformType None) 0).

(** [handleCropBoundsTransformEnd], [handleScaleTransformEnd] and
    [handleWheelScalingEnd] *)
Definition handleCropBoundsTransformEnd {F : NumberFormat} (c : Comp) (r : nat)
    (layer : Layer.t) : Comp :=
  if negb (Layer.cropMode layer) || (blendAreaOf layer =? 0) then c
  else handleTransformEnd c r layer T_crop 0.

Definition handleScaleTransformEnd {F : NumberFormat} (c : Comp) (r : nat)
    (layer : Layer.t) : Comp :=
  if blendAreaOf layer =? 0 then c
  else handleTransformEnd c r layer T_scale 0.

Definition handleWheelScalingEnd {F : NumberFormat} (c : Comp) (r : nat)
    (layer : Layer.t) : Comp :=
  if blendAreaOf layer =? 0 then c
  else handleTransformEnd c r layer T_wheel 500.

(** The body of a timer callback. *)
Definition fire {F : NumberFormat} (s : Session) (cb : Callback) : Session :=
  match cb with
  | CbDebouncedCreate r cacheKey =>
    match heap s !! r with
    | None => s
    | Some layer =>
      let '(c1, processedImage) := createProcessedImage (comp s) layer FromDebounce in
      let c2 := with_cache c1 (cache_set (processedImageCache c1) cacheKey processedImage) in
      let s1 := render (with_comp s c2) in
      with_comp s1
        (with_debounceTimers (comp s1)
           (delete (Layer.id layer) (processedImageDebounceTimers (comp s1))))
    end
  | CbExecuteTransform r layerId cacheKey transformType timerKey =>
    match heap s !! r with
    | None => s
    | Some layer =>
      let '(c1, processedImage) :=
        createProcessedImage (comp s) layer FromTransformEnd in
      let c2 := with_cache c1 (cache_set (processedImageCache c1) cacheKey processedImage) in
      let c3 :=
        with_transformingSet c2 transformType
          (transformingSet c2 transformType ∖ {[layerId]}) in
      let s1 := render (with_comp s c3) in
      match timerKey with
      | Some k =>
        with_comp s1
          (with_debounceTimers (comp s1)
             (delete k (processedImageDebounceTimers (comp s1))))
      | None => s1
      end
    end
  end.

(** Run one timer, unless a callback run before it has cleared it. *)
Definition fireIfPending {F : NumberFormat} (s : Session) (tid : nat) : Session :=
  match List.find (fun t => (timer_id t =? tid)%nat) (timers (comp s)) with
  | Some t => fire (with_comp s (clearTimeout (comp s) tid)) (callback t)
  | None => s
  end.

(** The timers that are due at the current instant, oldest first.  The
    callbacks above set timers with a positive delay only, so no timer set
    during the instant is due within it. *)
Definition dueTimers (c : Comp) : list nat :=
  map timer_id (List.filter (fun t => (due t <=? now c)%nat) (timers c)).

Definition runDue {F : NumberFormat} (s : Session) : Session :=
  fold_left fireIfPending (dueTimers (comp s)) s.

Definition tick (s : Session) : Session :=
  with_comp s (with_now (comp s) (S (now (comp s)))).

(** Let [d] milliseconds pass with no input, running the timers as they
    fall due. *)
Fixpoint wait {F : NumberFormat} (d : nat) (s : Session) : Session :=
  match d with
  | O => runDue s
  | S k => wait k (tick (runDue s))
  end.

(** [handleMouseDown] when the pointer hits resize handle [h] of layer
    [r]: [startLayerTransform], which ends with a render. *)
Definition handleMouseDownOnHandle {M : MathEnv} {F : NumberFormat} (s : Session)
    (r : nat) (h : Handle) (worldCoords : Point) : Session :=
  match heap s !! r with
  | None => s
  | Some layer =>
    render (mkSession (heap s) (layers s) (viewport s)
                      (startLayerTransform (viewport s) (interaction s) layer
                                           (K_resize h) worldCoords)
                      (Some r) (comp s))
  end.

(** [handleMouseMove] in mode 'resizing': [resizeLayerFromHandle], which
    mutates the layer and ends with a render.  Other modes are not part of
    this model. *)
Definition handleMouseMove {M : MathEnv} {F : NumberFormat} (s : Session)
    (worldCoords : Point) (shiftKey : bool) : Session :=
  match mode (interaction s) with
  | M_resizing =>
    match transformingLayer (interaction s) with
    | None => s
    | Some _ =>
      let ia := resizeLayerFromHandle (viewport s) (interaction s) worldCoords shiftKey in
      let h :=
        match transformingRef s, transformingLayer ia with
        | Some r, Some layer => <[r := layer]> (heap s)
        | _, _ => heap s
        end in
      match transformOrigin (interaction s) with
      | None => s
      | Some _ =>
        render (mkSession h (layers s) (viewport s) ia (transformingRef s) (comp s))
      end
    end
  | _ => s
  end.

(** [resetInteractionState] *)
Definition resetInteractionState (ia : Interaction) : Interaction :=
  mkInteraction M_none (dragStart ia) (transformOrigin ia) None
                (resizeAnchor ia) (isCtrlPressed ia) None.

(** [handleMouseUp] in modes 'resizing' and 'none': the transform-end
    handlers of the compositor, the render of [renderAndSave], the reset of
    the interaction and the final render. *)
Definition handleMouseUp {F : NumberFormat} (s : Session) : Session :=
  let c1 :=
    match mode (interaction s), transformingRef s, transformingLayer (interaction s) with
    | M_resizing, Some r, Some layer =>
      if Layer.cropMode layer
      then handleCropBoundsTransformEnd (comp s) r layer
      else handleScaleTransformEnd (comp s) r layer
    | _, _, _ => comp s
    end in
  let s1 := with_comp s c1 in
  let s2 :=
    match mode (interaction s) with
    | M_dragging | M_resizing | M_rotating => render s1
    | _ => s1
    end in
  render (mkSession (heap s2) (layers s2) (viewport s2)
                    (resetInteractionState (interaction s2)) None (comp s2)).

(** Input events and the passing of time. *)
Inductive Event :=
| EvMouseDownOnHandle (r : nat) (h : Handle) (worldCoords : Point)
| EvMouseMove (worldCoords : Point) (shiftKey : bool)
| EvMouseUp
| EvWait (d : nat).

Definition step {M : MathEnv} {F : NumberFormat} (s : Session) (e : Event) : Session :=
  match e with
  | EvMouseDownOnHandle r h p => handleMouseDownOnHandle s r h p
  | EvMouseMove p shiftKey => handleMouseMove s p shiftKey
  | EvMouseUp => handleMouseUp s
  | EvWait d => wait d s
  end.

Definition run {M : MathEnv} {F : NumberFormat} (s : Session) (es : list Event) : Session :=
  fold_left step es s.

(** A drag of a handle: press, moves some milliseconds apart, release. *)
Definition dragEvents (r : nat) (h : Handle) (start : Point)
    (moves : list (nat * Point)) (hold : nat) : list Event :=
  EvMouseDownOnHandle r h start
    :: flat_map (fun m => [EvWait (fst m); EvMouseMove (snd m) false]) moves
    ++ [EvWait hold; EvMouseUp].

(** The time a drag takes. *)
Definition dragDuration (moves : list (nat * Point)) (hold : nat) : nat :=
  fold_right (fun m acc => (fst m + acc)%nat) hold moves.

(** The recorded calls for one layer, and those made from a drag end. *)
Definition creationsFor (layerId : string) (c : Comp) : list Creation :=
  List.filter (fun e => String.eqb (c_layer e) layerId) (creationLog c).

Definition fromTransformEnd (cs : list Creation) : list Creation :=
  List.filter (fun e => match c_source e with FromTransformEnd => true | _ => false end) cs.

(** The parts of a cache key that the best-match search reads:
    [keyParts.length >= 3], [parseInt(keyParts[1])] and [keyParts[2]]. *)
Definition keyHasParts (key : string) : bool :=
  (3 <=? length (split_on "_" key))%nat.

Definition keyBlendArea (key : string) : option Z :=
  parseInt (nth 1 (split_on "_" key) "").

Definition keyCropKey (key : string) : string := nth 2 (split_on "_" key) "".

(** The three terms of a score. *)
Definition blendTerm (cacheBlendArea currentBlendArea : Z) : Z :=
  if cacheBlendArea =? currentBlendArea then 100
  else - Z.abs (cacheBlendArea - currentBlendArea).

Definition cropTerm (cacheCropKey currentCropKey : string) : Z :=
  if String.eqb cacheCropKey currentCropKey then 200 else -150.

Definition exactBonus (key currentCacheKey : string) : Z :=
  if String.eqb key currentCacheKey then 50 else 0.

(** A cache entry that the search scores for the layer: its key starts
    with the id of the layer and its score is a number. *)
Definition scored {F : NumberFormat} (layer : Layer.t)
    (entry : string * Image) (score : Z) : Prop :=
  String.prefix (Layer.id layer +:+ "_") (fst entry) = true /\
  scoreEntry layer (fst entry) = Some score.

(** The layer is being scaled: by a handle in transform mode, or after a
    scale drag or a wheel step while its cache entry is awaited. *)
Definition isScaling (resizing : option string) (c : Comp) (layer : Layer.t)
  : bool :=
  (match resizing with
   | Some i => String.eqb i (Layer.id layer)
   | None => false
   end && negb (Layer.cropMode layer))
  || bool_decide (Layer.id layer ∈ layersTransformingScale c)
  || bool_decide (Layer.id layer ∈ layersWheelScaling c).

(** Renders [d1], [d2], ... milliseconds apart. *)
Definition renderEvery {F : NumberFormat} (s : Session) (gaps : list nat) : Session :=
  fold_left (fun s d => render (wait d s)) gaps s.

(** Two states of the compositor that differ at most in the timers set and
    in the timer identifiers kept by layer. *)
Definition sameButTimers (c c' : Comp) : Prop :=
  processedImageCache c' = processedImageCache c
  /\ layersAdjustingBlendArea c' = layersAdjustingBlendArea c
  /\ layersTransformingCropBounds c' = layersTransformingCropBounds c
  /\ layersTransformingScale c' = layersTransformingScale c
  /\ layersWheelScaling c' = layersWheelScaling c
  /\ now c' = now c /\ nextImage c' = nextImage c
  /\ creationLog c' = creationLog c.

(** [invalidateProcessedImageCache]: the entries whose key starts with the
    id of the layer and an underscore go, and so does the pending debounce
    timer of the layer. *)
Definition invalidateProcessedImageCache (c : Comp) (layerId : string) : Comp :=
  let keysToDelete :=
    List.filter (fun key => String.prefix (layerId +:+ "_") key)
                (map fst (processedImageCache c)) in
  let cache' :=
    List.filter (fun kv => negb (existsb (String.eqb (fst kv)) keysToDelete))
                (processedImageCache c) in
  let c1 := with_cache c cache' in
  match processedImageDebounceTimers c1 !! layerId with
  | Some existingTimer =>
    if (existingTimer =? 0)%nat then c1
    else
      let c2 := clearTimeout c1 existingTimer in
      with_debounceTimers c2 (delete layerId (processedImageDebounceTimers c2))
  | None => c1
  end.

(** The timers whose callback is not the debounced creation. *)
Definition isDebounce (cb : Callback) : bool :=
  match cb with CbDebouncedCreate _ _ => true | _ => false end.

Definition nonDebounce (ts : list Timer) : list Timer :=
  List.filter (fun t => negb (isDebounce (callback t))) ts.

(** The state of the timers between the events of a scenario that started
    less than the quiet period before [T]: the pending timers other than
    debounced creations are [oe]; a pending debounced creation is due at [T]
    at the earliest; timer identifiers are distinct and below the next one;
    and the identifiers kept in [processedImageDebounceTimers] are below the
    next one and are not those of [oe]. *)
Definition TimersInv (T : nat) (oe : list Timer) (c : Comp) : Prop :=
  (T <= now c + PROCESSED_IMAGE_DEBOUNCE_DELAY)%nat /\
  nonDebounce (timers c) = oe /\
  (forall t, In t (timers c) -> isDebounce (callback t) = true -> (T <= due t)%nat) /\
  (forall t, In t (timers c) -> (timer_id t < nextTimerId c)%nat) /\
  List.NoDup (map timer_id (timers c)) /\
  (forall k v, processedImageDebounceTimers c !! k = Some v ->
               (v < nextTimerId c)%nat /\ forall e, In e oe -> timer_id e <> v).

(** A layer in crop mode with blend area 40 and the given id. *)
Definition cropBlendLayer (layerId : string) (l : Layer.t) : Prop :=
  Layer.id l = layerId /\ Layer.cropMode l = true /\ Layer.blendArea l = Some 40.

(** The layer object [r] is in the store, in crop mode with blend area 40. *)
Definition atRest (layerId : string) (r : nat) (s : Session) : Prop :=
  exists l, heap s !! r = Some l /\ cropBlendLayer layerId l.

(** A resize handle of the layer object [r] is being dragged. *)
Definition dragging (layerId : string) (r : nat) (s : Session) : Prop :=
  mode (interaction s) = M_resizing /\ transformingRef s = Some r /\
  exists l, transformingLayer (interaction s) = Some l /\ heap s !! r = Some l
            /\ cropBlendLayer layerId l.

End Compositor.

(** ** More of the number library *)

Module Num.

(** [a <= b] on numbers. *)
Definition leb (a b : Q) : bool := negb (JS.ltb b a).

(** [Math.floor], [Math.ceil] and [Math.round] (halves go up). *)
Definition Math_floor (a : Q) : Q := inject_Z (Qfloor a).
Definition Math_ceil (a : Q) : Q := inject_Z (Qceiling a).
Definition Math_round (a : Q) : Q := inject_Z (Qfloor (a + (1 # 2))).

(** The result of a division that JavaScript may give as [Infinity] or
    [NaN]: a number, or a value that [isFinite] rejects. *)
Inductive Quotient := Finite (q : Q) | NotFinite.

(** [a / b] where [a] is not 0. *)
Definition div_nonzero (a b : Q) : Quotient :=
  if Qeq_bool b 0 then NotFinite else Finite (a / b).

End Num.

(** ** The mouse wheel (js/CanvasInteractions.js)

    [handleWheel] zooms the viewport, or scales or rotates the selected
    layers when the pointer is over one of them.  The selection is the array
    [canvasSelection.selectedLayers] of layer objects, here references into
    the heap of the session.  [requestSaveState], which ends [handleWheel],
    only arms the timer of a later history save and is left out. *)

Module Wheel.

Import Compositor.

Definition set_rotation (l : Layer.t) (r : Q) : Layer.t :=
  Layer.mk (Layer.id l) (Layer.image l) (Layer.imageId l) (Layer.name l)
           (Layer.x l) (Layer.y l) (Layer.width l) (Layer.height l)
           (Layer.originalWidth l) (Layer.originalHeight l) r (Layer.zIndex l)
           (Layer.blendMode l) (Layer.opacity l) (Layer.visible l)
           (Layer.flipH l) (Layer.flipV l) (Layer.cropMode l)
           (Layer.cropBounds l) (Layer.blendArea l).

(** The test shared by [isPointInSelectedLayers] and [getLayerAtPosition]:
    the point, turned back by the rotation of the layer, and whether it
    falls in the frame. *)
Definition rotatedPoint {M : MathEnv} (layer : Layer.t) (worldX worldY : Q) : Point :=
  let centerX := Layer.x layer + Layer.width layer / 2 in
  let centerY := Layer.y layer + Layer.height layer / 2 in
  let dx := worldX - centerX in
  let dy := worldY - centerY in
  let rad := - Layer.rotation layer * Math_PI / 180 in
  {| px := dx * Math_cos rad - dy * Math_sin rad;
     py := dx * Math_sin rad + dy * Math_cos rad |}.

Definition inFrame {M : MathEnv} (layer : Layer.t) (worldX worldY : Q) : bool :=
  let p := rotatedPoint layer worldX worldY in
  Num.leb (JS.Math_abs (px p)) (Layer.width layer / 2)
  && Num.leb (JS.Math_abs (py p)) (Layer.height layer / 2).

(** [isPointInSelectedLayers] *)
Definition isPointInSelectedLayers {M : MathEnv} (h : gmap nat Layer.t)
    (selectedLayers : list nat) (worldX worldY : Q) : bool :=
  existsb (fun r =>
             match h !! r with
             | Some layer => Layer.visible layer && inFrame layer worldX worldY
             | None => false
             end) selectedLayers.

(** [handleLayerRotation] *)
Definition handleLayerRotation (layer : Layer.t) (isCtrlPressed : bool)
    (direction rotationStep : Q) : Layer.t :=
  if isCtrlPressed then
    let snapAngle := 5 in
    if JS.gtb direction 0
    then set_rotation layer
           (Num.Math_ceil ((Layer.rotation layer + (1 # 10)) / snapAngle) * snapAngle)
    else set_rotation layer
           (Num.Math_floor ((Layer.rotation layer - (1 # 10)) / snapAngle) * snapAngle)
  else set_rotation layer (Layer.rotation layer + rotationStep).

(** [calculateGridBasedScaling]; the final division is by [oldHeight],
    which may be 0, while [targetHeight] is at least 32 whenever the
    division is reached. *)
Definition calculateGridBasedScaling (oldHeight deltaY : Q) : Num.Quotient :=
  let gridSize := 64 in
  let direction := if JS.gtb deltaY 0 then -1 else 1 in
  let targetHeight0 :=
    if JS.gtb direction 0
    then (Num.Math_floor (oldHeight / gridSize) + 1) * gridSize
    else (Num.Math_ceil (oldHeight / gridSize) - 1) * gridSize in
  let targetHeight1 :=
    if JS.ltb targetHeight0 (gridSize / 2) then gridSize / 2 else targetHeight0 in
  if JS.ltb (JS.Math_abs (oldHeight - targetHeight1)) 1 then
    let targetHeight2 :=
      if JS.gtb direction 0 then targetHeight1 + gridSize
      else targetHeight1 - gridSize in
    if JS.ltb targetHeight2 (gridSize / 2) then Num.Finite 0
    else Num.div_nonzero targetHeight2 oldHeight
  else Num.div_nonzero targetHeight1 oldHeight.

(** The scale factor chosen by [handleLayerScaling]; [None] where the
    function returns before scaling. *)
Definition scaleFactorOf (layer : Layer.t) (isCtrlPressed : bool) (deltaY : Q)
  : option Num.Quotient :=
  if isCtrlPressed then
    let direction := if JS.gtb deltaY 0 then -1 else 1 in
    let baseDimension := JS.Math_max (Layer.width layer) (Layer.height layer) in
    let newBaseDimension := baseDimension + direction in
    if JS.ltb newBaseDimension 10 then None
    else Some (Num.Finite (newBaseDimension / baseDimension))
  else Some (calculateGridBasedScaling (Layer.height layer) deltaY).

(** [handleLayerScaling]; the layer object is [r]. *)
Definition handleLayerScaling {F : NumberFormat} (c : Comp) (r : nat)
    (layer : Layer.t) (isCtrlPressed : bool) (deltaY : Q) : Comp * Layer.t :=
  let oldWidth := Layer.width layer in
  let oldHeight := Layer.height layer in
  match scaleFactorOf layer isCtrlPressed deltaY with
  | Some (Num.Finite scaleFactor) =>
    if JS.truthy scaleFactor then
      let newWidth := Layer.width layer * scaleFactor in
      let newHeight := Layer.height layer * scaleFactor in
      let layer' :=
        Layer.set_frame layer (Layer.x layer + (oldWidth - newWidth) / 2)
                        (Layer.y layer + (oldHeight - newHeight) / 2)
                        newWidth newHeight in
      (handleWheelScalingEnd c r layer', layer')
    else (c, layer)
  | _ => (c, layer)
  end.

(** [getModifierState], for the two modifiers the wheel reads. *)
Definition modifier (held eventKey : bool) : bool := held || eventKey || false.

(** One turn of the [forEach] of [handleLayerWheelTransformation]. *)
Definition wheelStep {F : NumberFormat} (ctrl shift : bool) (deltaY : Q)
    (s : Session) (r : nat) : Session :=
  match heap s !! r with
  | None => s
  | Some layer =>
    let rotationStep := 5 * (if JS.gtb deltaY 0 then -1 else 1) in
    let direction := if JS.ltb deltaY 0 then 1 else -1 in
    if shift then
      mkSession (<[r := handleLayerRotation layer ctrl direction rotationStep]> (heap s))
                (layers s) (viewport s) (interaction s) (transformingRef s) (comp s)
    else
      let '(c', layer') := handleLayerScaling (comp s) r layer ctrl deltaY in
      mkSession (<[r := layer']> (heap s)) (layers s) (viewport s)
                (interaction s) (transformingRef s) c'
  end.

(** [handleLayerWheelTransformation] *)
Definition handleLayerWheelTransformation {F : NumberFormat} (s : Session)
    (selectedLayers : list nat) (isShiftPressed : bool)
    (deltaY : Q) (ctrlKey shiftKey : bool) : Session :=
  let ctrl := modifier (isCtrlPressed (interaction s)) ctrlKey in
  let shift := modifier isShiftPressed shiftKey in
  fold_left (wheelStep ctrl shift deltaY) selectedLayers s.

Definition with_viewport (s : Session) (vp : Viewport) : Session :=
  mkSession (heap s) (layers s) vp (interaction s) (transformingRef s) (comp s).

(** The zoom factor of one wheel notch. *)
Definition wheelZoomFactor (deltaY : Q) : Q :=
  if JS.ltb deltaY 0 then 11 # 10 else 1 / (11 # 10).

(** [handleWheel] at world position [world] of the pointer. *)
Definition handleWheel {M : MathEnv} {F : NumberFormat} (s : Session)
    (selectedLayers : list nat) (maskToolActive isShiftPressed : bool)
    (world : Point) (deltaY : Q) (ctrlKey shiftKey : bool) : Session :=
  let s1 :=
    if maskToolActive || (length selectedLayers =? 0)%nat then
      with_viewport s (performZoomOperation (viewport s) world (wheelZoomFactor deltaY))
    else if isPointInSelectedLayers (heap s) selectedLayers (px world) (py world) then
      handleLayerWheelTransformation s selectedLayers isShiftPressed deltaY ctrlKey shiftKey
    else
      with_viewport s (performZoomOperation (viewport s) world (wheelZoomFactor deltaY)) in
  render s1.

End Wheel.

(** ** Hit tests (CanvasLayers.ts, js/CanvasInteractions.js)

    For zoom 0 the radii below are [Infinity] in the code; the statements
    about them take a positive zoom. *)

Module HitTest.

Import Wheel.

(** What [getLayerAtPosition] returns for a hit. *)
Record LayerHit := mkLayerHit { hit_layer : nat; localX : Q; localY : Q }.

(** The loop of [getLayerAtPosition], over the layers from the last of the
    sorted array to the first. *)
Fixpoint hitLoop {M : MathEnv} (h : gmap nat Layer.t) (fromTop : list nat)
    (worldX worldY : Q) : option LayerHit :=
  match fromTop with
  | [] => None
  | r :: rest =>
    match h !! r with
    | Some layer =>
      if negb (Layer.visible layer) then hitLoop h rest worldX worldY
      else
        let p := rotatedPoint layer worldX worldY in
        if Num.leb (JS.Math_abs (px p)) (Layer.width layer / 2)
           && Num.leb (JS.Math_abs (py p)) (Layer.height layer / 2)
        then Some (mkLayerHit r (px p + Layer.width layer / 2)
                              (py p + Layer.height layer / 2))
        else hitLoop h rest worldX worldY
    | None => hitLoop h rest worldX worldY
    end
  end.

(** [getLayerAtPosition]: sorts [canvas.layers] by zIndex, in place, and
    returns the topmost visible layer under the point. *)
Definition getLayerAtPosition {M : MathEnv} (c : Store.Canvas) (worldX worldY : Q)
  : Store.Canvas * option LayerHit :=
  let sorted := Store.sortByZIndexAsc (Store.heap c) (Store.layers c) in
  (Store.with_heap_layers c (Store.heap c) sorted,
   hitLoop (Store.heap c) (rev sorted) worldX worldY).

(** The keys of the table of [getHandles], in the order of its literal. *)
Definition handleKeys : list HandleKey :=
  [K_resize H_n; K_resize H_ne; K_resize H_e; K_resize H_se;
   K_resize H_s; K_resize H_sw; K_resize H_w; K_resize H_nw; K_rot].

(** The test of [getHandleAtPosition] for one handle. *)
Definition nearHandle {M : MathEnv} (vp : Viewport) (layer : Layer.t)
    (worldX worldY : Q) (k : HandleKey) : bool :=
  let handleRadius := 8 / zoom vp in
  let handlePos := getHandles vp layer k in
  let dx := worldX - px handlePos in
  let dy := worldY - py handlePos in
  Num.leb (dx * dx + dy * dy) (handleRadius * handleRadius).

(** The loops of [getHandleAtPosition], over the selection from its last
    layer to its first. *)
Fixpoint handleLoop {M : MathEnv} (vp : Viewport) (h : gmap nat Layer.t)
    (fromLast : list nat) (worldX worldY : Q) : option (nat * HandleKey) :=
  match fromLast with
  | [] => None
  | r :: rest =>
    match h !! r with
    | Some layer =>
      match List.find (nearHandle vp layer worldX worldY) handleKeys with
      | Some k => Some (r, k)
      | None => handleLoop vp h rest worldX worldY
      end
    | None => handleLoop vp h rest worldX worldY
    end
  end.

(** [getHandleAtPosition] *)
Definition getHandleAtPosition {M : MathEnv} (vp : Viewport) (c : Store.Canvas)
    (worldX worldY : Q) : option (nat * HandleKey) :=
  match Store.selectedLayers c with
  | [] => None
  | _ => handleLoop vp (Store.heap c) (rev (Store.selectedLayers c)) worldX worldY
  end.

(** [getGrabIconAtPosition]: the first visible selected layer whose centre
    is within 20 screen pixels of the point. *)
Definition getGrabIconAtPosition (vp : Viewport) (c : Store.Canvas)
    (worldX worldY : Q) : option nat :=
  let grabIconRadius := 20 / zoom vp in
  List.find
    (fun r =>
       match Store.heap c !! r with
       | Some layer =>
         Layer.visible layer
         && (let centerX := Layer.x layer + Layer.width layer / 2 in
             let centerY := Layer.y layer + Layer.height layer / 2 in
             let dx := worldX - centerX in
             let dy := worldY - centerY in
             Num.leb (dx * dx + dy * dy) (grabIconRadius * grabIconRadius))
       | None => false
       end)
    (Store.selectedLayers c).

(** A visible layer of the store whose frame holds the point. *)
Definition hits {M : MathEnv} (h : gmap nat Layer.t) (worldX worldY : Q) (r : nat)
  : Prop :=
  exists layer, h !! r = Some layer /\ Layer.visible layer = true
                /\ inFrame layer worldX worldY = true.

End HitTest.

(** ** Fitting the output area to the selection (CanvasLayers.ts)

    [autoAdjustOutputToSelection] sets [outputAreaBounds] to the bounding
    box of the selected layers: of their crop rectangle in crop mode, of
    their whole frame otherwise, rotated about the centre of the layer.
    The selection is an array of references into the heap of the store.
    The canvas size, the size of the mask and the remembered original size
    get the same width and height; the store keeps [outputAreaBounds]. *)

Module OutputArea.

Import Store.

Local Open Scope Q_scope.

Section WithMath.

Context {M : MathEnv}.

(** The variables [minX], [minY], [maxX] and [maxY] of the function.  They
    start as [Infinity], [Infinity], [-Infinity] and [-Infinity] ([None])
    and every corner updates the four of them together. *)
Definition Box : Type := Q * Q * Q * Q.

(** The four assignments made for one corner [(worldX, worldY)]:
    [Math.min(Infinity, v)] and [Math.max(-Infinity, v)] are [v]. *)
Definition includeCorner (b : option Box) (world : Point) : option Box :=
  match b with
  | None => Some (px world, py world, px world, py world)
  | Some (minX, minY, maxX, maxY) =>
    Some (JS.Math_min minX (px world), JS.Math_min minY (py world),
          JS.Math_max maxX (px world), JS.Math_max maxY (py world))
  end.

(** The world positions of the corners of the whole frame of a layer: the
    branch of the function for a layer that is not in crop mode. *)
Definition frameCorners (layer : Layer.t) : list Point :=
  let centerX := Layer.x layer + Layer.width layer / 2 in
  let centerY := Layer.y layer + Layer.height layer / 2 in
  let rad := Layer.rotation layer * Math_PI / 180 in
  let cos := Math_cos rad in
  let sin := Math_sin rad in
  let halfW := Layer.width layer / 2 in
  let halfH := Layer.height layer / 2 in
  let corners :=
    [ mkPoint (- halfW) (- halfH); mkPoint halfW (- halfH);
      mkPoint halfW halfH; mkPoint (- halfW) halfH ] in
  map (fun p =>
         let worldX := centerX + (px p * cos - py p * sin) in
         let worldY := centerY + (px p * sin + py p * cos) in
         mkPoint worldX worldY)
      corners.

(** The world positions of the corners of the crop rectangle: the branch
    for a layer in crop mode, whose [originalWidth] and [originalHeight]
    are not 0. *)
Definition cropCorners (layer : Layer.t) (cropBounds : Rect) : list Point :=
  let layerScaleX := Layer.width layer / Layer.originalWidth layer in
  let layerScaleY := Layer.height layer / Layer.originalHeight layer in
  let cropWidth := rwidth cropBounds * layerScaleX in
  let cropHeight := rheight cropBounds * layerScaleY in
  let effectiveCropX :=
    if Layer.flipH layer
    then Layer.originalWidth layer - (rx cropBounds + rwidth cropBounds)
    else rx cropBounds in
  let effectiveCropY :=
    if Layer.flipV layer
    then Layer.originalHeight layer - (ry cropBounds + rheight cropBounds)
    else ry cropBounds in
  let cropOffsetX := effectiveCropX * layerScaleX in
  let cropOffsetY := effectiveCropY * layerScaleY in
  let centerX := Layer.x layer + Layer.width layer / 2 in
  let centerY := Layer.y layer + Layer.height layer / 2 in
  let rad := Layer.rotation layer * Math_PI / 180 in
  let cos := Math_cos rad in
  let sin := Math_sin rad in
  let corners :=
    [ mkPoint cropOffsetX cropOffsetY;
      mkPoint (cropOffsetX + cropWidth) cropOffsetY;
      mkPoint (cropOffsetX + cropWidth) (cropOffsetY + cropHeight);
      mkPoint cropOffsetX (cropOffsetY + cropHeight) ] in
  map (fun p =>
         let localX := px p - Layer.width layer / 2 in
         let localY := py p - Layer.height layer / 2 in
         let worldX := centerX + (localX * cos - localY * sin) in
         let worldY := centerY + (localX * sin + localY * cos) in
         mkPoint worldX worldY)
      corners.

(** The corners that the function visits for one layer, in the order of its
    [corners] array: [layer.cropMode && layer.cropBounds &&
    layer.originalWidth && layer.originalHeight] chooses the branch. *)
Definition worldCorners (layer : Layer.t) : list Point :=
  match Layer.cropBounds layer with
  | Some cropBounds =>
    if Layer.cropMode layer && JS.truthy (Layer.originalWidth layer)
       && JS.truthy (Layer.originalHeight layer)
    then cropCorners layer cropBounds
    else frameCorners layer
  | None => frameCorners layer
  end.

(** The corners of the layer behind a reference of the selection. *)
Definition cornersOf (h : gmap nat Layer.t) (r : nat) : list Point :=
  match h !! r with
  | Some layer => worldCorners layer
  | None => []
  end.

(** The body of [selectedLayers.forEach]. *)
Definition includeLayer (h : gmap nat Layer.t) (b : option Box) (r : nat)
  : option Box :=
  fold_left includeCorner (cornersOf h r) b.

(** [CanvasLayers.autoAdjustOutputToSelection]: the store after the call and
    the boolean that the call returns. *)
Definition autoAdjustOutputToSelection (c : Canvas) : Canvas * bool :=
  match selectedLayers c with
  | [] => (c, false)
  | _ :: _ =>
    match fold_left (includeLayer (heap c)) (selectedLayers c) None with
    | None => (c, false)
    | Some (minX, minY, maxX, maxY) =>
      let newWidth := Num.Math_ceil (maxX - minX) in
      let newHeight := Num.Math_ceil (maxY - minY) in
      if Num.leb newWidth 0 || Num.leb newHeight 0 then (c, false)
      else
        (mkCanvas (heap c) (layers c) (selectedLayers c) (internalClipboard c)
                  (lastMousePosition c) (mkRect minX minY newWidth newHeight),
         true)
    end
  end.

(** What the four variables hold once the corners [ps] have been visited:
    bounds of all of them, each reached by one of them. *)
Definition boundsOf (b : option Box) (ps : list Point) : Prop :=
  match b with
  | None => ps = []
  | Some (minX, minY, maxX, maxY) =>
    (forall p, In p ps ->
               minX <= px p /\ px p <= maxX /\ minY <= py p /\ py p <= maxY)
    /\ (exists p, In p ps /\ minX = px p)
    /\ (exists p, In p ps /\ minY = py p)
    /\ (exists p, In p ps /\ maxX = px p)
    /\ (exists p, In p ps /\ maxY = py p)
  end.

End WithMath.

End OutputArea.

(** ** Arithmetic with rounding

    Every arithmetic operation of the code yields the exact result rounded
    to a binary64 number.  Here [rnd] stands for that rounding, applied to
    the result of every operation and to the literal [0.1]; the literal
    [10] is a binary64 number as it stands. *)

Module Rounded.

Section WithRounding.

Variable rnd : Q -> Q.

(** [mouseBufferX] and [mouseBufferY] of [performZoomOperation]. *)
Definition mouseBuffer (vp : Viewport) (worldCoords : Point) : Point :=
  {| px := rnd (rnd (px worldCoords - vx vp) * zoom vp);
     py := rnd (rnd (py worldCoords - vy vp) * zoom vp) |}.

Definition performZoomOperation (vp : Viewport) (worldCoords : Point)
    (zoomFactor : Q) : Viewport :=
  let mouseBufferX := rnd (rnd (px worldCoords - vx vp) * zoom vp) in
  let mouseBufferY := rnd (rnd (py worldCoords - vy vp) * zoom vp) in
  let newZoom :=
    JS.Math_max (rnd (1 # 10)) (JS.Math_min 10 (rnd (zoom vp * zoomFactor))) in
  {| vx := rnd (px worldCoords - rnd (mouseBufferX / newZoom));
     vy := rnd (py worldCoords - rnd (mouseBufferY / newZoom));
     zoom := newZoom |}.

(** A division whose result is rounded; [NotFinite] where JavaScript gives
    [Infinity] or [NaN] for a divisor 0. *)
Definition div (a b : Q) : Num.Quotient :=
  if Qeq_bool b 0 then Num.NotFinite else Num.Finite (rnd (a / b)).

(** [calculateGridBasedScaling] *)
Definition calculateGridBasedScaling (oldHeight deltaY : Q) : Num.Quotient :=
  let gridSize := 64 in
  let direction := if JS.gtb deltaY 0 then -1 else 1 in
  let targetHeight0 :=
    if JS.gtb direction 0
    then rnd (rnd (Num.Math_floor (rnd (oldHeight / gridSize)) + 1) * gridSize)
    else rnd (rnd (Num.Math_ceil (rnd (oldHeight / gridSize)) - 1) * gridSize) in
  let targetHeight1 :=
    if JS.ltb targetHeight0 (rnd (gridSize / 2)) then rnd (gridSize / 2)
    else targetHeight0 in
  if JS.ltb (JS.Math_abs (rnd (oldHeight - targetHeight1))) 1 then
    let targetHeight2 :=
      if JS.gtb direction 0 then rnd (targetHeight1 + gridSize)
      else rnd (targetHeight1 - gridSize) in
    if JS.ltb targetHeight2 (rnd (gridSize / 2)) then Num.Finite 0
    else div targetHeight2 oldHeight
  else div targetHeight1 oldHeight.

(** The scale factor chosen by [handleLayerScaling]; [None] where the
    function returns before scaling. *)
Definition scaleFactorOf (layer : Layer.t) (isCtrlPressed : bool) (deltaY : Q)
  : option Num.Quotient :=
  if isCtrlPressed then
    let direction := if JS.gtb deltaY 0 then -1 else 1 in
    let baseDimension := JS.Math_max (Layer.width layer) (Layer.height layer) in
    let newBaseDimension := rnd (baseDimension + direction) in
    if JS.ltb newBaseDimension 10 then None
    else Some (div newBaseDimension baseDimension)
  else Some (calculateGridBasedScaling (Layer.height layer) deltaY).

(** [handleLayerScaling], as far as the layer goes: the call of
    [handleWheelScalingEnd] that ends it only touches the bookkeeping of the
    processed images. *)
Definition handleLayerScaling (layer : Layer.t) (isCtrlPressed : bool)
    (deltaY : Q) : Layer.t :=
  let oldWidth := Layer.width layer in
  let oldHeight := Layer.height layer in
  match scaleFactorOf layer isCtrlPressed deltaY with
  | Some (Num.Finite scaleFactor) =>
    if JS.truthy scaleFactor then
      let newWidth := rnd (Layer.width layer * scaleFactor) in
      let newHeight := rnd (Layer.height layer * scaleFactor) in
      Layer.set_frame layer
        (rnd (Layer.x layer + rnd (rnd (oldWidth - newWidth) / 2)))
        (rnd (Layer.y layer + rnd (rnd (oldHeight - newHeight) / 2)))
        newWidth newHeight
    else layer
  | _ => layer
  end.

(** [CanvasLayers.addLayerWithImage] *)
Definition addLayerWithImage (c : Store.Canvas) (image : option Store.ImageRes)
    (layerProps : Store.LayerProps) (addMode : Store.AddMode)
    (targetArea : option Rect) (newId newImageId : string)
  : option (Store.Canvas * nat) :=
  match image with
  | None => None
  | Some image =>
    let bounds := Store.outputAreaBounds c in
    let area := Store.or_default targetArea bounds in
    let '(finalWidth, finalHeight, finalX, finalY) :=
      match addMode with
      | Store.A_fit =>
        let scale := JS.Math_min (rnd (rwidth area / Store.img_width image))
                                 (rnd (rheight area / Store.img_height image)) in
        let fw := rnd (Store.img_width image * scale) in
        let fh := rnd (Store.img_height image * scale) in
        (fw, fh, rnd (rx area + rnd (rnd (rwidth area - fw) / 2)),
                 rnd (ry area + rnd (rnd (rheight area - fh) / 2)))
      | Store.A_mouse =>
        (Store.img_width image, Store.img_height image,
         rnd (px (Store.lastMousePosition c) - rnd (Store.img_width image / 2)),
         rnd (py (Store.lastMousePosition c) - rnd (Store.img_height image / 2)))
      | Store.A_default =>
        (Store.img_width image, Store.img_height image,
         rnd (rx area + rnd (rnd (rwidth area - Store.img_width image) / 2)),
         rnd (ry area + rnd (rnd (rheight area - Store.img_height image) / 2)))
      end in
    let layer :=
      Store.spreadProps
        (Layer.mk newId (Store.img_ref image) newImageId "Layer"
                  finalX finalY finalWidth finalHeight
                  (Store.img_width image) (Store.img_height image) 0
                  (Store.maxZIndex c + 1)%Z "normal" 1 true
                  false false false None None)
        layerProps in
    let r := Store.newRef (Store.heap c) in
    Some (Store.mkCanvas (<[r := layer]> (Store.heap c)) (Store.layers c ++ [r]) [r]
                         (Store.internalClipboard c) (Store.lastMousePosition c)
                         (Store.outputAreaBounds c), r)
  end.

End WithRounding.

(** A rounding whose relative error is at most [u]: binary64 arithmetic
    rounds to nearest, with [u] = 2^-53, as long as the result neither
    overflows nor underflows. *)
Definition roundsWithin (u : Q) (rnd : Q -> Q) : Prop :=
  forall x, Qabs (rnd x - x) <= u * Qabs x.

End Rounded.

(** ** Double-precision numbers

    The exact rationals used above leave out the rounding of the binary64
    numbers that JavaScript computes with.  Where a statement stands or
    falls with that rounding, the function is embedded a second time over
    the binary64 floats of the standard library, whose operations round as
    IEEE 754 prescribes. *)

Module Double.

Local Open Scope float_scope.

Record Point := mkPoint { px : float; py : float }.

Record Viewport := mkViewport { vx : float; vy : float; zoom : float }.

(** [Math.max] and [Math.min] of two numbers: NaN when one of them is NaN,
    and +0 counts as larger than -0. *)
Definition Math_max (a b : float) : float :=
  if (PrimFloat.is_nan a || PrimFloat.is_nan b)%bool then nan
  else if a <? b then b
  else if b <? a then a
  else if PrimFloat.get_sign a then b else a.

Definition Math_min (a b : float) : float :=
  if (PrimFloat.is_nan a || PrimFloat.is_nan b)%bool then nan
  else if b <? a then b
  else if a <? b then a
  else if PrimFloat.get_sign a then a else b.

(** [mouseBufferX] and [mouseBufferY] of [performZoomOperation]. *)
Definition mouseBuffer (vp : Viewport) (worldCoords : Point) : Point :=
  {| px := (px worldCoords - vx vp) * zoom vp;
     py := (py worldCoords - vy vp) * zoom vp |}.

(** [performZoomOperation]; [0x1.999999999999ap-4] is the number that the
    literal [0.1] denotes. *)
Definition performZoomOperation (vp : Viewport) (worldCoords : Point)
    (zoomFactor : float) : Viewport :=
  let mouseBufferX := (px worldCoords - vx vp) * zoom vp in
  let mouseBufferY := (py worldCoords - vy vp) * zoom vp in
  let newZoom :=
    Math_max 0x1.999999999999ap-4 (Math_min 10 (zoom vp * zoomFactor)) in
  {| vx := px worldCoords - (mouseBufferX / newZoom);
     vy := py worldCoords - (mouseBufferY / newZoom);
     zoom := newZoom |}.

(** The zoom factor of a wheel notch towards the user: the number that the
    literal [1.1] of [handleWheel] denotes. *)
Definition wheelInFactor : float := 0x1.199999999999ap+0.

End Double.

(** ** Sample data used to exercise the statements below *)

(** A numeric library that is exact at angle 0, as [Math.cos] and
    [Math.sin] are. *)
Definition sampleMath : MathEnv :=
  {| Math_cos := fun r => Qred (1 - r * r / 2);
     Math_sin := fun r => Qred r;
     Math_PI := 355 # 113;
     snapToGrid := fun q => q |}.

(** The layer of the resize scenario: frame (0,0,100,100), rotation 0. *)
Definition scenarioLayer : Layer.t :=
  Layer.mk "layer-1" 0 "image-1" "Layer" 0 0 100 100 100 100 0 0%Z
           "normal" 1 true false false false None None.

(** A horizontally flipped layer in crop mode, showing its whole image. *)
Definition flippedCropLayer : Layer.t :=
  Layer.mk "layer-1" 0 "image-1" "Layer" 0 0 100 100 100 100 0 0%Z
           "normal" 1 true true false true (Some (mkRect 0 0 100 100))
           (Some 40%Z).

(** [Math.cos] and [Math.sin] return 1 and 0 at angle 0. *)
Definition exactAtZero (M : MathEnv) : Prop :=
  (forall r, r == 0 -> Math_cos r = 1) /\ (forall r, r == 0 -> Math_sin r = 0).

(** A crop rectangle that lies inside the original image with both extents
    at least 1. *)
Definition cropInside (W H : Q) (b : Rect) : Prop :=
  0 <= rx b /\ 0 <= ry b /\ 1 <= rwidth b /\ 1 <= rheight b /\
  rx b + rwidth b <= W /\ ry b + rheight b <= H.

(** The two numbers of a crop rectangle along each axis. *)
Definition xAxis (b : Rect) : Q * Q := (rx b, rwidth b).
Definition yAxis (b : Rect) : Q * Q := (ry b, rheight b).

(** One axis of [applyCropDelta]: the position and the extent after the
    delta, for a handle that holds the low edge ([lowHandle]: 'w' or 'n') or
    the high edge ([highHandle]: 'e' or 's') of the axis. *)
Definition deltaLow (lowHandle isFlipped : bool) (delta : Q) (a : Q * Q) : Q * Q :=
  if lowHandle then
    if isFlipped then (fst a, snd a + delta) else (fst a + delta, snd a - delta)
  else a.

Definition deltaHigh (highHandle isFlipped : bool) (delta : Q) (a : Q * Q) : Q * Q :=
  if highHandle then
    if isFlipped then (fst a + delta, snd a - delta) else (fst a, snd a + delta)
  else a.

Definition deltaAxis (lowHandle highHandle isFlipped : bool) (delta : Q)
    (a : Q * Q) : Q * Q :=
  deltaHigh highHandle isFlipped delta (deltaLow lowHandle isFlipped delta a).

(** One axis of [clampCropBounds]. *)
Definition axisMin (lowHandle : bool) (origin extent : Q) (a : Q * Q) : Q * Q :=
  if JS.ltb (snd a) 1
  then ((if lowHandle then origin + extent - 1 else fst a), 1) else a.

Definition axisLow (a : Q * Q) : Q * Q :=
  if JS.ltb (fst a) 0 then (0, snd a + fst a) else a.

Definition axisHigh (limit : Q) (a : Q * Q) : Q * Q :=
  if JS.gtb (fst a + snd a) limit then (fst a, limit - fst a) else a.

Definition clampAxis (lowHandle : bool) (origin extent limit : Q) (a : Q * Q)
  : Q * Q :=
  axisHigh limit (axisLow (axisMin lowHandle origin extent a)).

(** A store of three layers with zIndex 0, 1 and 5 (a layer with a zIndex
    in between was removed), and a clipboard of two layers. *)
Definition sampleStoreLayer (z : Z) : Layer.t :=
  Layer.mk "layer" 0 "image" "Layer" 0 0 100 100 100 100 0 z
           "normal" 1 true false false false None None.

Definition sampleCanvas : Store.Canvas :=
  Store.mkCanvas
    (<[0%nat := sampleStoreLayer 0]>
       (<[1%nat := sampleStoreLayer 1]> (<[2%nat := sampleStoreLayer 5]> ∅)))
    [0%nat; 1%nat; 2%nat] [0%nat; 1%nat]
    [sampleStoreLayer 7; sampleStoreLayer 3]
    (mkPoint 0 0) (mkRect 0 0 512 512).

Definition sampleImage : Store.ImageRes := Store.mkImage 9 64 64.

(** A layer told from the others by its id. *)
Definition namedLayer (id : string) (z : Z) : Layer.t :=
  Layer.mk id 0 "image" id 0 0 100 100 100 100 0 z
           "normal" 1 true false false false None None.

(** Two stacked layers, selected from the top: the upper one was clicked
    first, the lower one added to the selection with Ctrl held. *)
Definition stackedCanvas : Store.Canvas :=
  Store.mkCanvas
    (<[0%nat := namedLayer "lower" 0]> (<[1%nat := namedLayer "upper" 1]> ∅))
    [0%nat; 1%nat] [1%nat; 0%nat] []
    (mkPoint 0 0) (mkRect 0 0 512 512).

(** Layer states told apart by the position of their one layer, and a
    session in which two snapshots were taken and one was undone. *)
Definition sampleState (i : nat) : list Layer.t :=
  [sampleStoreLayer (Z.of_nat i)].

Definition sessionAfterUndo : History.State :=
  History.undo (U := History.structuralUtils)
    (History.snapshotOf (U := History.structuralUtils)
       (History.snapshotOf (U := History.structuralUtils)
          (History.freshSession []) (sampleState 1))
       (sampleState 2)).

(** A rounding that is off by the relative error 2^-53 on every number. *)
Definition roundAway (x : Q) : Q := x * (1 + (1 # 9007199254740992)).

(** A session with one snapshot on the layer-state stack whose layer has
    been changed since. *)
Definition editedSession : History.State :=
  History.mkState (sampleState 2) true false [1%Z; 2%Z] [sampleState 1] [] [] [].

(** A session with the mask tool active and one mask snapshot. *)
Definition maskSession : History.State :=
  History.mkState (sampleState 1) true true [1%Z; 2%Z] [] [] [[0%Z; 0%Z]] [].

(** The clone of a layer state has the signature of the state. *)
Definition cloneKeepsSignature (U : History.CommonUtils) : Prop :=
  forall ls, History.getStateSignature (History.cloneLayers ls)
             = History.getStateSignature ls.

(** What holds of a session after [k] snapshots, the first of which was
    of the state whose clone is [b]: the layer stack starts with [b] and
    has at most [k] entries, and its top has the signature of the layer
    store. *)
Definition afterSnapshots (U : History.CommonUtils) (b : list Layer.t)
    (k : nat) (s : History.State) : Prop :=
  History.maskToolActive s = false /\
  (exists rest, History.layersUndoStack s = b :: rest /\ (length rest < k)%nat) /\
  (exists top, last (History.layersUndoStack s) = Some top /\
               History.getStateSignature top
               = History.getStateSignature (History.cloneLayers (History.layers s))).

(** A number format that prints whole numbers the way JavaScript does
    (other numbers are printed as a fraction). *)
Definition sampleFormat : Compositor.NumberFormat :=
  {| Compositor.numberToString := fun q =>
       let r := Qred q in
       if Pos.eqb (Qden r) 1 then pretty (Qnum r)
       else pretty (Qnum r) +:+ "/" +:+ pretty (Zpos (Qden r)) |}.

(** A 100 x 100 layer with blend area 40 and no crop, being wheel-scaled. *)
Definition blendLayer : Layer.t :=
  Layer.mk "a" 0 "image" "Layer" 0 0 100 100 100 100 0 0%Z
           "normal" 1 true false false false None (Some 40%Z).

(** A cache key with the blend area of [blendLayer] and another crop, and
    one with its crop and another blend area. *)
Definition keyBlendOnly : string := "a_40_0,0,50,50_100_100".
Definition keyCropOnly : string := "a_10_nocrop_50_50".

Definition wheelScalingComp (cache : list (string * Compositor.Image))
  : Compositor.Comp :=
  Compositor.mkComp cache ∅ ∅ ∅ ∅ {["a"]} 0%nat 1%nat [] 10%nat [].

(** A 100 x 100 layer in crop mode with blend area 40, alone in a store
    with a compositor that has done nothing yet; and two drags of its east
    handle, 25 ms each. *)
Definition cropDragLayer : Layer.t :=
  Layer.mk "a" 0 "image" "Layer" 0 0 100 100 100 100 0 0%Z
           "normal" 1 true false false true (Some (mkRect 0 0 100 100)) (Some 40%Z).

Definition freshComp : Compositor.Comp :=
  Compositor.mkComp [] ∅ ∅ ∅ ∅ ∅ 0%nat 1%nat [] 0%nat [].

Definition cropSession : Compositor.Session :=
  Compositor.mkSession (<[0%nat := cropDragLayer]> ∅) [0%nat] (mkViewport 0 0 1)
    (mkInteraction M_none (mkPoint 0 0) None None (mkPoint 0 0) false None)
    None freshComp.

Definition firstDrag : list Compositor.Event :=
  Compositor.dragEvents 0%nat H_e (mkPoint 100 50)
    [(10%nat, mkPoint 90 50); (10%nat, mkPoint 80 50)] 5%nat.

Definition secondDrag : list Compositor.Event :=
  Compositor.dragEvents 0%nat H_e (mkPoint 80 50)
    [(10%nat, mkPoint 70 50); (10%nat, mkPoint 60 50)] 5%nat.

Definition idleInteraction : Interaction :=
  mkInteraction M_none (mkPoint 0 0) None None (mkPoint 0 0) false None.

Definition unitViewport : Viewport := mkViewport 0 0 1.

(** * Theorems *)

(** ** Numbers *)

Module JSFacts.
Import JS.

Lemma ltb_true a b : ltb a b = true <-> a < b.
Proof.
  unfold ltb. destruct (Qlt_le_dec a b) as [H|H]; split; intros H'; try easy.
  exfalso. apply (Qle_not_lt _ _ H H').
Qed.

Lemma ltb_false a b : ltb a b = false <-> b <= a.
Proof.
  unfold ltb. destruct (Qlt_le_dec a b) as [H|H]; split; intros H'; try easy.
  exfalso. apply (Qle_not_lt _ _ H' H).
Qed.

Lemma Math_max_lb_l a b : a <= Math_max a b.
Proof. unfold Math_max. destruct (Qlt_le_dec a b); lra. Qed.

Lemma Math_min_ub_l a b : Math_min a b <= a.
Proof. unfold Math_min. destruct (Qlt_le_dec b a); lra. Qed.

Lemma Math_max_min_ub lo hi v : lo <= hi -> Math_max lo (Math_min hi v) <= hi.
Proof.
  intros Hlh. unfold Math_max, Math_min.
  destruct (Qlt_le_dec v hi); destruct (Qlt_le_dec lo _); lra.
Qed.

End JSFacts.

(** ** Rounding errors

    How the relative errors of single operations add up in the expressions
    that the code evaluates. *)

Module RoundingFacts.

Local Open Scope Q_scope.

Lemma Qabs_scale_r (x n : Q) : 0 <= n -> Qabs (x * n) == Qabs x * n.
Proof. intros Hn. rewrite Qabs_Qmult, (Qabs_pos n Hn). reflexivity. Qed.

Lemma Qabs_le_plus_err (x y : Q) : Qabs x <= Qabs y + Qabs (x - y).
Proof.
  assert (E : x == y + (x - y)) by ring.
  rewrite E at 1. apply Qabs_triangle.
Qed.

(** The error of the round trip of [performZoomOperation]: a buffer
    position [mb] is divided by the new zoom [n], subtracted from the world
    coordinate [p], subtracted from [p] again and multiplied by [n], each
    result [q], [x'], [d], [s'] being off by a relative error [u] at most. *)
Lemma pin_error (u n mb p q x' d s' : Q) :
  0 <= u -> 0 < n ->
  Qabs (q - mb / n) <= u * Qabs (mb / n) ->
  Qabs (x' - (p - q)) <= u * Qabs (p - q) ->
  Qabs (d - (p - x')) <= u * Qabs (p - x') ->
  Qabs (s' - d * n) <= u * Qabs (d * n) ->
  Qabs (s' - mb)
  <= ((1 + u) ^ 4 - 1) * Qabs mb + u * (1 + u) ^ 2 * (Qabs p * n).
Proof.
  intros Hu Hn H1 H2 H3 H4.
  assert (Hn0 : 0 <= n) by lra.
  assert (Ea : Qabs (mb / n) * n == Qabs mb).
  { rewrite <- Qabs_scale_r by exact Hn0.
    assert (E : mb / n * n == mb) by (field; lra). now rewrite E. }
  assert (Hsum : Qabs (s' - mb)
                 <= Qabs (s' - d * n) + Qabs (d - (p - x')) * n
                    + Qabs (x' - (p - q)) * n + Qabs (q - mb / n) * n).
  { rewrite <- !Qabs_scale_r by exact Hn0.
    assert (E : s' - mb
                == (s' - d * n) + (d - (p - x')) * n
                   + - ((x' - (p - q)) * n) + (q - mb / n) * n)
      by (field; lra).
    rewrite E.
    pose proof (Qabs_triangle ((s' - d * n) + (d - (p - x')) * n
                               + - ((x' - (p - q)) * n)) ((q - mb / n) * n)) as T1.
    pose proof (Qabs_triangle ((s' - d * n) + (d - (p - x')) * n)
                              (- ((x' - (p - q)) * n))) as T2.
    pose proof (Qabs_triangle (s' - d * n) ((d - (p - x')) * n)) as T3.
    rewrite Qabs_opp in T2. lra. }
  rewrite (Qabs_scale_r d n Hn0) in H4.
  pose proof (Qabs_le_plus_err q (mb / n)) as Tq.
  pose proof (Qabs_triangle p (- q)) as Tpq. rewrite Qabs_opp in Tpq.
  assert (Epq : p + - q == p - q) by ring. rewrite Epq in Tpq. clear Epq.
  pose proof (Qabs_triangle q (- (x' - (p - q)))) as Tpx. rewrite Qabs_opp in Tpx.
  assert (Epx : q + - (x' - (p - q)) == p - x') by ring. rewrite Epx in Tpx. clear Epx.
  pose proof (Qabs_le_plus_err d (p - x')) as Td.
  pose proof (Qabs_nonneg p) as Hp0.
  pose proof (Qabs_nonneg mb) as Hmb0.
  set (a := Qabs mb) in *. set (P := Qabs p) in *.
  set (A := Qabs (mb / n)) in *. set (Q1 := Qabs q) in *.
  set (PQ := Qabs (p - q)) in *. set (PX := Qabs (p - x')) in *.
  set (D := Qabs d) in *.
  set (e1 := Qabs (q - mb / n)) in *. set (e2 := Qabs (x' - (p - q))) in *.
  set (e3 := Qabs (d - (p - x'))) in *. set (e4 := Qabs (s' - d * n)) in *.
  set (G := Qabs (s' - mb)) in *.
  clearbody a P A Q1 PQ PX D e1 e2 e3 e4 G.
  assert (S1 : e1 * n <= u * a) by nra.
  assert (Sq : Q1 * n <= a + u * a) by nra.
  assert (Spq : PQ * n <= P * n + a + u * a) by nra.
  assert (S2 : e2 * n <= u * (P * n + a + u * a)) by nra.
  assert (Spx : PX * n <= a + u * a + u * (P * n + a + u * a)) by nra.
  assert (S3 : e3 * n <= u * (a + u * a + u * (P * n + a + u * a))) by nra.
  assert (Sd : D * n <= (1 + u) * (a + u * a + u * (P * n + a + u * a))) by nra.
  assert (S4 : e4 <= u * ((1 + u) * (a + u * a + u * (P * n + a + u * a)))) by nra.
  set (Pn := P * n) in *. clearbody Pn.
  assert (Epoly : ((1 + u) ^ 4 - 1) * a + u * (1 + u) ^ 2 * Pn
                  == u * ((1 + u) * (a + u * a + u * (Pn + a + u * a)))
                     + u * (a + u * a + u * (Pn + a + u * a))
                     + u * (Pn + a + u * a) + u * a) by ring.
  rewrite Epoly. lra.
Qed.

(** The error of [x += (oldWidth - width) / 2]: the centre [x + width / 2]
    of the frame moves by the three rounding errors only. *)
Lemma centre_error (u x w w' a b x' : Q) :
  0 <= u -> u <= 1 # 100 ->
  Qabs (a - (w - w')) <= u * Qabs (w - w') ->
  Qabs (b - a / 2) <= u * Qabs (a / 2) ->
  Qabs (x' - (x + b)) <= u * Qabs (x + b) ->
  Qabs (x' + w' / 2 - (x + w / 2)) <= 4 * u * (Qabs x + Qabs w + Qabs w').
Proof.
  intros Hu0 Hu1 Ha Hb Hx.
  assert (E : x' + w' / 2 - (x + w / 2)
              == (x' - (x + b)) + (b - a / 2) + (a - (w - w')) * (1 # 2))
    by field.
  rewrite E.
  pose proof (Qabs_triangle ((x' - (x + b)) + (b - a / 2))
                            ((a - (w - w')) * (1 # 2))) as T1.
  pose proof (Qabs_triangle (x' - (x + b)) (b - a / 2)) as T2.
  rewrite (Qabs_scale_r (a - (w - w')) (1 # 2)) in T1 by discriminate.
  pose proof (Qabs_triangle x b) as Txb.
  pose proof (Qabs_le_plus_err b (a / 2)) as Tb.
  assert (Ea2 : Qabs (a / 2) == Qabs a * (1 # 2)).
  { assert (E2 : a / 2 == a * (1 # 2)) by field. rewrite E2.
    apply Qabs_scale_r. discriminate. }
  rewrite Ea2 in Hb, Tb.
  pose proof (Qabs_le_plus_err a (w - w')) as Ta.
  pose proof (Qabs_triangle w (- w')) as Tw. rewrite Qabs_opp in Tw.
  assert (Ew : w + - w' == w - w') by ring. rewrite Ew in Tw. clear Ew.
  pose proof (Qabs_nonneg x) as Nx. pose proof (Qabs_nonneg w) as Nw.
  pose proof (Qabs_nonneg w') as Nw'.
  set (X := Qabs x) in *. set (W := Qabs w) in *. set (W' := Qabs w') in *.
  set (D := Qabs (w - w')) in *. set (A := Qabs a) in *. set (B := Qabs b) in *.
  set (XB := Qabs (x + b)) in *.
  set (e1 := Qabs (a - (w - w'))) in *. set (e2 := Qabs (b - a * (1 # 2))) in *.
  assert (Ee2 : Qabs (b - a / 2) == e2).
  { subst e2. assert (E2 : b - a / 2 == b - a * (1 # 2)) by field. now rewrite E2. }
  rewrite Ee2 in Hb, T2.
  assert (Ee2' : Qabs (b - a * (1 # 2)) == e2) by reflexivity.
  set (e3 := Qabs (x' - (x + b))) in *.
  set (G := Qabs (x' - (x + b) + (b - a / 2) + (a - (w - w')) * (1 # 2))) in *.
  set (G2 := Qabs (x' - (x + b) + (b - a / 2))) in *.
  assert (Tb' : B <= A * (1 # 2) + e2).
  { subst B A e2.
    pose proof (Qabs_le_plus_err b (a * (1 # 2))) as T.
    rewrite (Qabs_scale_r a (1 # 2)) in T by discriminate. exact T. }
  clear Tb Ee2 Ee2'.
  clearbody X W W' D A B XB e1 e2 e3 G G2.
  assert (S1 : e1 <= u * (W + W')) by nra.
  assert (SA : A <= (101 # 100) * (W + W')) by nra.
  assert (S2 : e2 <= u * ((101 # 100) * (W + W'))) by nra.
  assert (SB : B <= (103 # 100) * (W + W')) by nra.
  assert (S3 : e3 <= u * (X + (103 # 100) * (W + W'))) by nra.
  nra.
Qed.

(** The error of [width *= scaleFactor; height *= scaleFactor]: the two
    sides keep their proportion up to the two rounding errors. *)
Lemma proportion_error (u w h sf w' h' : Q) :
  0 <= u -> u <= 1 # 100 ->
  Qabs (w' - w * sf) <= u * Qabs (w * sf) ->
  Qabs (h' - h * sf) <= u * Qabs (h * sf) ->
  Qabs (w' * h - w * h') <= 5 * u * Qabs (w' * h).
Proof.
  intros Hu0 Hu1 Hw Hh.
  assert (E : w' * h - w * h' == (w' - w * sf) * h + - (w * (h' - h * sf))) by ring.
  rewrite E.
  pose proof (Qabs_triangle ((w' - w * sf) * h) (- (w * (h' - h * sf)))) as T.
  rewrite Qabs_opp, !Qabs_Qmult in T.
  rewrite !Qabs_Qmult in *.
  pose proof (Qabs_le_plus_err (w * sf) w') as Tw.
  assert (Esw : Qabs (w * sf - w') == Qabs (w' - w * sf)).
  { assert (E2 : w * sf - w' == - (w' - w * sf)) by ring.
    rewrite E2. apply Qabs_opp. }
  rewrite Esw, Qabs_Qmult in Tw.
  pose proof (Qabs_nonneg w) as Nw. pose proof (Qabs_nonneg h) as Nh.
  pose proof (Qabs_nonneg sf) as Ns. pose proof (Qabs_nonneg w') as Nw'.
  set (W := Qabs w) in *. set (H := Qabs h) in *. set (S := Qabs sf) in *.
  set (W' := Qabs w') in *.
  set (e1 := Qabs (w' - w * sf)) in *. set (e2 := Qabs (h' - h * sf)) in *.
  set (G := Qabs ((w' - w * sf) * h + - (w * (h' - h * sf)))) in *.
  pose proof (Qabs_nonneg (w' - w * sf)) as Ne1. fold e1 in Ne1.
  pose proof (Qabs_nonneg (h' - h * sf)) as Ne2. fold e2 in Ne2.
  clearbody W H S W' e1 e2 G.
  assert (P0 : 0 <= W * S) by nra.
  assert (P1 : W * S * (1 - u) <= W') by nra.
  assert (P2 : e1 * H <= u * ((W * S) * H)) by nra.
  assert (P3 : W * e2 <= u * ((W * S) * H)) by nra.
  assert (P4 : (W * S) * H * (1 - u) <= W' * H) by nra.
  assert (P5 : 0 <= (W * S) * H) by nra.
  set (M := (W * S) * H) in *. set (N := W' * H) in *. clearbody M N.
  assert (P6 : M <= (100 # 99) * N) by nra.
  assert (P7 : u * M <= u * ((100 # 99) * N)) by nra.
  assert (P8 : 0 <= u * N) by nra.
  lra.
Qed.

(** The error of [base * ((base + direction) / base)]: the sum [nb], the
    quotient [sf] and the product [b'] are each off by a relative error [u]
    at most. *)
Lemma one_pixel_error (u b t nb sf b' : Q) :
  0 <= u -> u <= 1 # 100 -> 0 < b ->
  Qabs (nb - t) <= u * Qabs t ->
  Qabs (sf - nb / b) <= u * Qabs (nb / b) ->
  Qabs (b' - b * sf) <= u * Qabs (b * sf) ->
  Qabs (b' - t) <= 5 * u * Qabs t.
Proof.
  intros Hu0 Hu1 Hb Hnb Hsf Hb'.
  assert (E : b' - t == (b' - b * sf) + (sf - nb / b) * b + (nb - t))
    by (field; lra).
  rewrite E.
  pose proof (Qabs_triangle ((b' - b * sf) + (sf - nb / b) * b) (nb - t)) as T1.
  pose proof (Qabs_triangle (b' - b * sf) ((sf - nb / b) * b)) as T2.
  rewrite (Qabs_scale_r (sf - nb / b) b) in T2 by lra.
  assert (Enb : Qabs (nb / b) * b == Qabs nb).
  { rewrite <- Qabs_scale_r by lra.
    assert (E2 : nb / b * b == nb) by (field; lra). now rewrite E2. }
  assert (Ebs : Qabs (b * sf) == Qabs sf * b).
  { assert (E2 : b * sf == sf * b) by ring. rewrite E2. apply Qabs_scale_r. lra. }
  rewrite Ebs in Hb'.
  pose proof (Qabs_le_plus_err nb t) as Tnb.
  pose proof (Qabs_le_plus_err sf (nb / b)) as Tsf.
  pose proof (Qabs_nonneg t) as Nt.
  set (T := Qabs t) in *. set (NB := Qabs nb) in *. set (SF := Qabs sf) in *.
  set (Q1 := Qabs (nb / b)) in *.
  set (e1 := Qabs (nb - t)) in *. set (e2 := Qabs (sf - nb / b)) in *.
  set (e3 := Qabs (b' - b * sf)) in *.
  set (G := Qabs (b' - b * sf + (sf - nb / b) * b + (nb - t))) in *.
  set (G2 := Qabs (b' - b * sf + (sf - nb / b) * b)) in *.
  clearbody T NB SF Q1 e1 e2 e3 G G2.
  assert (S1 : NB <= (101 # 100) * T) by nra.
  assert (S2 : e2 * b <= u * NB) by nra.
  assert (S2' : e2 * b <= u * ((101 # 100) * T)) by nra.
  assert (S3 : SF * b <= NB + e2 * b) by nra.
  assert (S3' : SF * b <= (103 # 100) * T) by nra.
  assert (S4 : e3 <= u * ((103 # 100) * T)) by nra.
  nra.
Qed.

Lemma roundAway_within : Rounded.roundsWithin (1 # 9007199254740992) roundAway.
Proof.
  intros x. unfold roundAway.
  assert (E : x * (1 + (1 # 9007199254740992)) - x
              == (1 # 9007199254740992) * x) by ring.
  rewrite E, Qabs_Qmult. apply Qle_refl.
Qed.

(** The error of [mouse.x - width / 2]: the centre of the frame is at the
    mouse up to the two rounding errors. *)
Lemma mouse_centre_error (u m w b x : Q) :
  0 <= u -> u <= 1 # 100 ->
  Qabs (b - w / 2) <= u * Qabs (w / 2) ->
  Qabs (x - (m - b)) <= u * Qabs (m - b) ->
  Qabs (x + w / 2 - m) <= 3 * u * (Qabs m + Qabs w).
Proof.
  intros Hu0 Hu1 Hb Hx.
  assert (E : x + w / 2 - m == (x - (m - b)) + - (b - w / 2)) by field.
  rewrite E.
  pose proof (Qabs_triangle (x - (m - b)) (- (b - w / 2))) as T.
  rewrite Qabs_opp in T.
  assert (Ew2 : Qabs (w / 2) == Qabs w * (1 # 2)).
  { assert (E2 : w / 2 == w * (1 # 2)) by field. rewrite E2.
    apply Qabs_scale_r. discriminate. }
  rewrite Ew2 in Hb.
  pose proof (Qabs_triangle m (- b)) as Tm. rewrite Qabs_opp in Tm.
  assert (Em : m + - b == m - b) by ring. rewrite Em in Tm. clear Em.
  pose proof (Qabs_le_plus_err b (w / 2)) as Tb. rewrite Ew2 in Tb.
  pose proof (Qabs_nonneg m) as Nm. pose proof (Qabs_nonneg w) as Nw.
  set (M := Qabs m) in *. set (W := Qabs w) in *. set (B := Qabs b) in *.
  set (MB := Qabs (m - b)) in *.
  set (e1 := Qabs (b - w / 2)) in *. set (e2 := Qabs (x - (m - b))) in *.
  set (G := Qabs (x - (m - b) + - (b - w / 2))) in *.
  clearbody M W B MB e1 e2 G.
  assert (S1 : B <= (101 # 100) * W) by nra.
  assert (S2 : e2 <= u * (M + (101 # 100) * W)) by nra.
  nra.
Qed.

(** The error of [width * min(areaWidth / width, ...)]: the side is not
    larger than the side of the area, and equal to it when the minimum is
    this quotient, up to the rounding errors. *)
Lemma fit_side_error (u iw aw sw scale fw : Q) :
  0 <= u -> u <= 1 # 100 -> 0 < iw -> 0 <= aw ->
  Qabs (sw - aw / iw) <= u * Qabs (aw / iw) ->
  0 <= scale -> scale <= sw ->
  Qabs (fw - iw * scale) <= u * Qabs (iw * scale) ->
  fw <= (1 + 3 * u) * aw
  /\ (scale = sw -> Qabs (fw - aw) <= 3 * u * aw).
Proof.
  intros Hu0 Hu1 Hiw Haw Hsw Hs0 Hs1 Hfw.
  assert (Hq : 0 <= aw / iw) by (apply Qle_shift_div_l; lra).
  rewrite (Qabs_pos (aw / iw)) in Hsw by exact Hq.
  assert (Eq : aw / iw * iw == aw) by (field; lra).
  apply Qabs_Qle_condition in Hsw. destruct Hsw as [Hsw1 Hsw2].
  assert (Hp : 0 <= iw * scale) by nra.
  rewrite (Qabs_pos (iw * scale)) in Hfw by exact Hp.
  apply Qabs_Qle_condition in Hfw. destruct Hfw as [Hfw1 Hfw2].
  set (q := aw / iw) in *. clearbody q.
  assert (A1 : iw * sw <= (1 + u) * aw) by nra.
  assert (A2 : (1 - u) * aw <= iw * sw) by nra.
  assert (A3 : iw * scale <= iw * sw) by nra.
  assert (A4 : u * (iw * scale) <= u * ((1 + u) * aw)) by nra.
  split; [nra |].
  intros ->. apply Qabs_Qle_condition.
  assert (A5 : u * (iw * sw) <= u * ((1 + u) * aw)) by nra.
  split; nra.
Qed.

End RoundingFacts.

(** ** Viewport zoom and resize *)

Module GeometryFacts.
Import RoundingFacts.

(** The new zoom of [performZoomOperation] is positive. *)
Lemma performZoomOperation_zoom_pos vp p f :
  0 < zoom (performZoomOperation vp p f).
Proof.
  unfold performZoomOperation. cbn [zoom].
  pose proof (JSFacts.Math_max_lb_l (1 # 10) (JS.Math_min 10 (zoom vp * f))).
  lra.
Qed.

(** Without rounding the embedding is the exact one. *)
Lemma Rounded_exact (vp : Viewport) (p : Point) (zoomFactor : Q) :
  Rounded.performZoomOperation (fun x => x) vp p zoomFactor
  = performZoomOperation vp p zoomFactor.
Proof. reflexivity. Qed.

(** C7 (as amended): for every cursor world point and every zoom factor,
    [performZoomOperation] yields a viewport (the operation is never
    rejected) whose zoom is the old zoom times the factor, clamped into
    [0.1, 10]; [viewport.x] and [viewport.y] become
    [p - ((p - viewport.xy) * zoom) / newZoom], which leaves the buffer
    position [(p - viewport.xy) * viewport.zoom] of the cursor point the
    same before and after up to rounding: when every operation is off by a
    relative error [u] at most, the position [s] moves by
    [5 * u * (|s| + |p| * newZoom)] at most, and not at all in exact
    arithmetic. *)
Theorem performZoomOperation_clamps_and_pins (u : Q) (rnd : Q -> Q)
    (vp : Viewport) (p : Point) (zoomFactor : Q) :
  0 <= u -> u <= 1 # 100 -> Rounded.roundsWithin u rnd ->
  let vp' := Rounded.performZoomOperation rnd vp p zoomFactor in
  let target := rnd (zoom vp * zoomFactor) in
  rnd (1 # 10) <= zoom vp' /\ zoom vp' <= 10
  /\ (rnd (1 # 10) <= target -> target <= 10 -> zoom vp' == target)
  /\ (target < rnd (1 # 10) -> zoom vp' = rnd (1 # 10))
  /\ (10 < target -> zoom vp' = 10)
  /\ Qabs (px (Rounded.mouseBuffer rnd vp' p) - px (Rounded.mouseBuffer rnd vp p))
     <= 5 * u * (Qabs (px (Rounded.mouseBuffer rnd vp p)) + Qabs (px p) * zoom vp')
  /\ Qabs (py (Rounded.mouseBuffer rnd vp' p) - py (Rounded.mouseBuffer rnd vp p))
     <= 5 * u * (Qabs (py (Rounded.mouseBuffer rnd vp p)) + Qabs (py p) * zoom vp')
  /\ (u == 0 ->
      px (Rounded.mouseBuffer rnd vp' p) == px (Rounded.mouseBuffer rnd vp p)
      /\ py (Rounded.mouseBuffer rnd vp' p) == py (Rounded.mouseBuffer rnd vp p)).
Proof.
  intros Hu0 Hu1 Hrnd vp' target.
  assert (Hlo : 0 < rnd (1 # 10) /\ rnd (1 # 10) < 10).
  { pose proof (Hrnd (1 # 10)) as H. apply Qabs_Qle_condition in H.
    assert (E : Qabs (1 # 10) == 1 # 10) by reflexivity. rewrite E in H.
    destruct H as [H1 H2]. split; nra. }
  destruct Hlo as [Hlo Hlo10].
  assert (Hzoom : zoom vp' = JS.Math_max (rnd (1 # 10)) (JS.Math_min 10 target))
    by reflexivity.
  assert (Hge : rnd (1 # 10) <= zoom vp')
    by (rewrite Hzoom; apply JSFacts.Math_max_lb_l).
  assert (Hpos : 0 < zoom vp') by lra.
  assert (Hbound : forall a P : Q,
    0 <= a -> 0 <= P ->
    ((1 + u) ^ 4 - 1) * a + u * (1 + u) ^ 2 * P <= 5 * u * (a + P)).
  { intros a P Ha HP.
    assert (H4 : (1 + u) ^ 4 - 1 <= 5 * u) by nra.
    assert (H2 : u * (1 + u) ^ 2 <= 5 * u) by nra.
    nra. }
  assert (Hx :
    Qabs (px (Rounded.mouseBuffer rnd vp' p) - px (Rounded.mouseBuffer rnd vp p))
    <= 5 * u * (Qabs (px (Rounded.mouseBuffer rnd vp p)) + Qabs (px p) * zoom vp')).
  { eapply Qle_trans; [| apply Hbound; [apply Qabs_nonneg |]].
    - unfold Rounded.mouseBuffer. cbn [px].
      change (vx vp') with
        (rnd (px p - rnd (rnd (rnd (px p - vx vp) * zoom vp) / zoom vp'))).
      apply pin_error with
        (q := rnd (rnd (rnd (px p - vx vp) * zoom vp) / zoom vp'))
        (x' := rnd (px p - rnd (rnd (rnd (px p - vx vp) * zoom vp) / zoom vp')))
        (d := rnd (px p
                   - rnd (px p - rnd (rnd (rnd (px p - vx vp) * zoom vp) / zoom vp'))));
        try assumption; apply Hrnd.
    - pose proof (Qabs_nonneg (px p)). nra. }
  assert (Hy :
    Qabs (py (Rounded.mouseBuffer rnd vp' p) - py (Rounded.mouseBuffer rnd vp p))
    <= 5 * u * (Qabs (py (Rounded.mouseBuffer rnd vp p)) + Qabs (py p) * zoom vp')).
  { eapply Qle_trans; [| apply Hbound; [apply Qabs_nonneg |]].
    - unfold Rounded.mouseBuffer. cbn [py].
      change (vy vp') with
        (rnd (py p - rnd (rnd (rnd (py p - vy vp) * zoom vp) / zoom vp'))).
      apply pin_error with
        (q := rnd (rnd (rnd (py p - vy vp) * zoom vp) / zoom vp'))
        (x' := rnd (py p - rnd (rnd (rnd (py p - vy vp) * zoom vp) / zoom vp')))
        (d := rnd (py p
                   - rnd (py p - rnd (rnd (rnd (py p - vy vp) * zoom vp) / zoom vp'))));
        try assumption; apply Hrnd.
    - pose proof (Qabs_nonneg (py p)). nra. }
  split; [exact Hge |].
  split.
  { rewrite Hzoom. unfold JS.Math_max, JS.Math_min.
    destruct (Qlt_le_dec target 10); destruct (Qlt_le_dec (rnd (1 # 10)) _); lra. }
  split.
  { intros H1 H2. rewrite Hzoom. unfold JS.Math_max, JS.Math_min.
    destruct (Qlt_le_dec target 10); destruct (Qlt_le_dec (rnd (1 # 10)) _); lra. }
  split.
  { intros H1. rewrite Hzoom. unfold JS.Math_max, JS.Math_min.
    destruct (Qlt_le_dec target 10); [| lra].
    destruct (Qlt_le_dec (rnd (1 # 10)) target); [lra | reflexivity]. }
  split.
  { intros H1. rewrite Hzoom. unfold JS.Math_max, JS.Math_min.
    destruct (Qlt_le_dec target 10); [lra |].
    destruct (Qlt_le_dec (rnd (1 # 10)) 10); [reflexivity | lra]. }
  split; [exact Hx |]. split; [exact Hy |].
  intros E0.
  set (sx := px (Rounded.mouseBuffer rnd vp p)) in *.
  set (sy := py (Rounded.mouseBuffer rnd vp p)) in *.
  set (sx' := px (Rounded.mouseBuffer rnd vp' p)) in *.
  set (sy' := py (Rounded.mouseBuffer rnd vp' p)) in *.
  assert (Zx : 5 * u * (Qabs sx + Qabs (px p) * zoom vp') == 0)
    by (rewrite E0; ring).
  assert (Zy : 5 * u * (Qabs sy + Qabs (py p) * zoom vp') == 0)
    by (rewrite E0; ring).
  rewrite Zx in Hx. rewrite Zy in Hy.
  apply Qabs_Qle_condition in Hx. apply Qabs_Qle_condition in Hy.
  split; lra.
Qed.

Lemma performZoomOperation_clamps_and_pins_witness :
  Rounded.roundsWithin (1 # 9007199254740992) roundAway
  /\ zoom (Rounded.performZoomOperation roundAway unitViewport (mkPoint 29 0) 20) = 10
  /\ Qabs (px (Rounded.mouseBuffer roundAway
                 (Rounded.performZoomOperation roundAway unitViewport
                    (mkPoint 29 0) (11 # 10))
                 (mkPoint 29 0))
           - px (Rounded.mouseBuffer roundAway unitViewport (mkPoint 29 0)))
     <= 1 # 1000000000000.
Proof.
  assert (Hr : Rounded.roundsWithin (1 # 9007199254740992) roundAway).
  { intros x. unfold roundAway.
    assert (E : x * (1 + (1 # 9007199254740992)) - x
                == (1 # 9007199254740992) * x) by ring.
    rewrite E, Qabs_Qmult. apply Qle_refl. }
  split; [exact Hr |].
  pose proof (performZoomOperation_clamps_and_pins (1 # 9007199254740992) roundAway
                unitViewport (mkPoint 29 0) 20 ltac:(discriminate) ltac:(discriminate) Hr)
    as (_ & _ & _ & _ & Hhi & _).
  pose proof (performZoomOperation_clamps_and_pins (1 # 9007199254740992) roundAway
                unitViewport (mkPoint 29 0) (11 # 10)
                ltac:(discriminate) ltac:(discriminate) Hr)
    as (_ & _ & _ & _ & _ & Hx & _).
  split; [apply Hhi; vm_compute; reflexivity |].
  eapply Qle_trans; [exact Hx |]. vm_compute. discriminate.
Defined.

(** C7 as stated fails on the binary64 numbers the code computes with: at
    zoom 1 and offset (0, 0), a wheel notch towards the user (factor 1.1)
    with the pointer at world x = 29 sets the zoom to 1.1 and
    [viewport.x] to 2.6363636363636402, and the buffer position of the
    pointer, 29 before, is 28.999999999999996 after. *)
Lemma zoom_in_moves_cursor_point_by_rounding :
  Double.px (Double.mouseBuffer (Double.mkViewport 0 0 1) (Double.mkPoint 29 0))
  = 29%float
  /\ Double.zoom
       (Double.performZoomOperation (Double.mkViewport 0 0 1) (Double.mkPoint 29 0)
          Double.wheelInFactor)
     = 0x1.199999999999ap+0%float
  /\ Double.px
       (Double.mouseBuffer
          (Double.performZoomOperation (Double.mkViewport 0 0 1)
             (Double.mkPoint 29 0) Double.wheelInFactor)
          (Double.mkPoint 29 0))
     = 0x1.cffffffffffffp+4%float
  /\ PrimFloat.eqb
       (Double.px
          (Double.mouseBuffer
             (Double.performZoomOperation (Double.mkViewport 0 0 1)
                (Double.mkPoint 29 0) Double.wheelInFactor)
             (Double.mkPoint 29 0)))
       (Double.px
          (Double.mouseBuffer (Double.mkViewport 0 0 1) (Double.mkPoint 29 0)))
     = false.
Proof. vm_compute. repeat split. Qed.

Lemma sampleMath_exactAtZero : exactAtZero sampleMath.
Proof.
  split; intros r Hr; cbn.
  - change 1 with (Qred 1). apply Qred_complete. rewrite Hr. reflexivity.
  - change 0 with (Qred 0). apply Qred_complete. exact Hr.
Qed.

(** The angle of a layer that is not rotated. *)
Lemma rad_zero (M : MathEnv) : 0 * Math_PI / 180 == 0.
Proof. field. Qed.

(** C2: a layer at (0,0,100,100), rotation 0, not in crop mode; the 'se'
    handle is dragged to world point (150,150) with no modifier key.  The
    anchor taken at drag start is the 'nw' handle at (0,0); after the resize
    the layer is (0,0,150,150) and its 'nw' handle is still at (0,0). *)
Theorem resize_se_scenario (M : MathEnv) (vp : Viewport) (ia : Interaction)
    (l : Layer.t) (start : Point) :
  exactAtZero M ->
  Layer.x l = 0 -> Layer.y l = 0 -> Layer.width l = 100 -> Layer.height l = 100 ->
  Layer.rotation l = 0 -> Layer.cropMode l = false ->
  isCtrlPressed ia = false ->
  let ia1 := startLayerTransform vp ia l (K_resize H_se) start in
  let ia2 := resizeLayerFromHandle vp ia1 (mkPoint 150 150) false in
  px (resizeAnchor ia1) == 0 /\ py (resizeAnchor ia1) == 0 /\
  exists l',
    transformingLayer ia2 = Some l' /\
    Layer.x l' == 0 /\ Layer.y l' == 0 /\
    Layer.width l' == 150 /\ Layer.height l' == 150 /\
    px (getHandles vp l' (K_resize H_nw)) == 0 /\
    py (getHandles vp l' (K_resize H_nw)) == 0.
Proof.
  intros [Hcos Hsin] Hx Hy Hw Hh Hrot Hcrop Hctrl ia1 ia2.
  pose proof (Hcos _ (rad_zero M)) as Hc.
  pose proof (Hsin _ (rad_zero M)) as Hs.
  destruct l as [lid limg limgid lname lx ly lw lh low loh lrot lz lbm lop lvis lfh lfv lcm lcb lba].
  cbn in Hx, Hy, Hw, Hh, Hrot, Hcrop. subst lx ly lw lh lrot lcm.
  subst ia2 ia1.
  unfold resizeLayerFromHandle, startLayerTransform, getHandles.
  cbn -[Math_cos Math_sin Math_PI Qplus Qmult Qminus Qdiv Qopp Qeq_bool JS.truthy
        resizeTransformFrame localHandles].
  rewrite Hctrl, !Hc, !Hs.
  destruct lcb as [cb|]; cbn -[Math_cos Math_sin Math_PI Qplus Qmult Qminus Qdiv Qopp];
    rewrite ?Hc, ?Hs.
  all: split; [vm_compute; reflexivity | split; [vm_compute; reflexivity |] ].
  all: eexists; split; [reflexivity |].
  all: cbn -[Math_cos Math_sin Math_PI]; rewrite ?Hc, ?Hs.
  all: repeat split; vm_compute; reflexivity.
Qed.

Lemma resize_se_scenario_witness :
  exactAtZero sampleMath /\
  let ia1 := startLayerTransform (M := sampleMath) unitViewport idleInteraction
               scenarioLayer (K_resize H_se) (mkPoint 100 100) in
  let ia2 := resizeLayerFromHandle (M := sampleMath) unitViewport ia1
               (mkPoint 150 150) false in
  px (resizeAnchor ia1) == 0 /\ py (resizeAnchor ia1) == 0 /\
  exists l',
    transformingLayer ia2 = Some l' /\
    Layer.x l' == 0 /\ Layer.y l' == 0 /\
    Layer.width l' == 150 /\ Layer.height l' == 150 /\
    px (getHandles (M := sampleMath) unitViewport l' (K_resize H_nw)) == 0 /\
    py (getHandles (M := sampleMath) unitViewport l' (K_resize H_nw)) == 0.
Proof.
  split; [exact sampleMath_exactAtZero |].
  apply (resize_se_scenario sampleMath unitViewport idleInteraction scenarioLayer
                            (mkPoint 100 100));
    first [exact sampleMath_exactAtZero | reflexivity].
Defined.

Lemma applyCropDelta_axes handle fH fV dx dy b :
  xAxis (applyCropDelta handle fH fV dx dy b)
    = deltaAxis (includes handle "w") (includes handle "e") fH dx (xAxis b)
  /\ yAxis (applyCropDelta handle fH fV dx dy b)
    = deltaAxis (includes handle "n") (includes handle "s") fV dy (yAxis b).
Proof.
  unfold applyCropDelta, cropDeltaS, cropDeltaN, cropDeltaE, cropDeltaW,
    deltaAxis, deltaHigh, deltaLow, xAxis, yAxis.
  destruct (includes handle "w"), (includes handle "e"),
    (includes handle "n"), (includes handle "s"), fH, fV;
    split; reflexivity.
Qed.

Lemma clampMinWidth_axes handle ocb b :
  xAxis (clampMinWidth handle ocb b)
    = axisMin (includes handle "w") (rx ocb) (rwidth ocb) (xAxis b)
  /\ yAxis (clampMinWidth handle ocb b) = yAxis b.
Proof.
  unfold clampMinWidth, axisMin, xAxis, yAxis. cbn [fst snd].
  destruct (JS.ltb (rwidth b) 1); split; reflexivity.
Qed.

Lemma clampMinHeight_axes handle ocb b :
  xAxis (clampMinHeight handle ocb b) = xAxis b
  /\ yAxis (clampMinHeight handle ocb b)
    = axisMin (includes handle "n") (ry ocb) (rheight ocb) (yAxis b).
Proof.
  unfold clampMinHeight, axisMin, xAxis, yAxis. cbn [fst snd].
  destruct (JS.ltb (rheight b) 1); split; reflexivity.
Qed.

Lemma clampLeft_axes b :
  xAxis (clampLeft b) = axisLow (xAxis b) /\ yAxis (clampLeft b) = yAxis b.
Proof.
  unfold clampLeft, axisLow, xAxis, yAxis. cbn [fst snd].
  destruct (JS.ltb (rx b) 0); split; reflexivity.
Qed.

Lemma clampTop_axes b :
  xAxis (clampTop b) = xAxis b /\ yAxis (clampTop b) = axisLow (yAxis b).
Proof.
  unfold clampTop, axisLow, xAxis, yAxis. cbn [fst snd].
  destruct (JS.ltb (ry b) 0); split; reflexivity.
Qed.

Lemma clampRight_axes W b :
  xAxis (clampRight W b) = axisHigh W (xAxis b)
  /\ yAxis (clampRight W b) = yAxis b.
Proof.
  unfold clampRight, axisHigh, xAxis, yAxis. cbn [fst snd].
  destruct (JS.gtb (rx b + rwidth b) W); split; reflexivity.
Qed.

Lemma clampBottom_axes H b :
  xAxis (clampBottom H b) = xAxis b
  /\ yAxis (clampBottom H b) = axisHigh H (yAxis b).
Proof.
  unfold clampBottom, axisHigh, xAxis, yAxis. cbn [fst snd].
  destruct (JS.gtb (ry b + rheight b) H); split; reflexivity.
Qed.

Lemma clampCropBounds_axes handle o ocb b :
  xAxis (clampCropBounds handle o ocb b)
    = clampAxis (includes handle "w") (rx ocb) (rwidth ocb) (o_originalWidth o)
                (xAxis b)
  /\ yAxis (clampCropBounds handle o ocb b)
    = clampAxis (includes handle "n") (ry ocb) (rheight ocb) (o_originalHeight o)
                (yAxis b).
Proof.
  unfold clampCropBounds, clampAxis. split.
  - rewrite (proj1 (clampBottom_axes _ _)), (proj1 (clampRight_axes _ _)),
      (proj1 (clampTop_axes _)), (proj1 (clampLeft_axes _)),
      (proj1 (clampMinHeight_axes _ _ _)), (proj1 (clampMinWidth_axes _ _ _)).
    reflexivity.
  - rewrite (proj2 (clampBottom_axes _ _)), (proj2 (clampRight_axes _ _)),
      (proj2 (clampTop_axes _)), (proj2 (clampLeft_axes _)),
      (proj2 (clampMinHeight_axes _ _ _)), (proj2 (clampMinWidth_axes _ _ _)).
    reflexivity.
Qed.

(** Case analysis on a comparison whose operands hold no conditional. *)
Ltac case_innermost_comparison :=
  match goal with
  | |- context [Qlt_le_dec ?a ?b] =>
    lazymatch a with
    | context [if _ then _ else _] => fail
    | _ =>
      lazymatch b with
      | context [if _ then _ else _] => fail
      | _ => destruct (Qlt_le_dec a b); cbn [fst snd]
      end
    end
  end.

(** One axis of an unflipped layer: the clamp keeps the edge inside
    [0, limit] with an extent of at least 1. *)
Lemma clampAxis_unflipped_inside lowHandle highHandle delta origin extent limit :
  lowHandle && highHandle = false ->
  0 <= origin -> 1 <= extent -> origin + extent <= limit ->
  let a := clampAxis lowHandle origin extent limit
             (deltaAxis lowHandle highHandle false delta (origin, extent)) in
  0 <= fst a /\ 1 <= snd a /\ fst a + snd a <= limit.
Proof.
  intros Hlh Ho He Hl.
  unfold clampAxis, axisHigh, axisLow, axisMin, deltaAxis, deltaHigh, deltaLow,
    JS.gtb, JS.ltb.
  destruct lowHandle, highHandle; try discriminate; cbn [fst snd];
    repeat case_innermost_comparison;
    repeat split; lra.
Qed.

Lemma includes_low_high_x handle : includes handle "w" && includes handle "e" = false.
Proof. destruct handle as [[]|]; reflexivity. Qed.

Lemma includes_low_high_y handle : includes handle "n" && includes handle "s" = false.
Proof. destruct handle as [[]|]; reflexivity. Qed.

(** For a layer that is not flipped the clamp does its work: whatever the
    handle and the drag, a crop rectangle that was inside the image at drag
    start is inside it after the move. *)
Lemma resizeCropBounds_unflipped_inside (layer : Layer.t) (o : TransformOrigin)
    (ocb : Rect) (handle : option Handle) (dragStart : Point)
    (mouseX mouseY cos sin : Q) :
  Layer.flipH layer = false -> Layer.flipV layer = false ->
  cropInside (o_originalWidth o) (o_originalHeight o) ocb ->
  cropInside (o_originalWidth o) (o_originalHeight o)
             (resizeCropBounds layer o ocb handle dragStart mouseX mouseY cos sin).
Proof.
  intros HfH HfV (Hx & Hy & Hw & Hh & HW & HH).
  unfold resizeCropBounds. rewrite HfH, HfV.
  set (dx := _ * (o_originalWidth o / o_width o)).
  set (dy := _ * (o_originalHeight o / o_height o)).
  clearbody dx dy.
  destruct (clampCropBounds_axes handle o ocb
              (applyCropDelta handle false false dx dy ocb)) as [Ex Ey].
  destruct (applyCropDelta_axes handle false false dx dy ocb) as [Dx Dy].
  pose proof (clampAxis_unflipped_inside _ _ dx _ _ _
                (includes_low_high_x handle) Hx Hw HW) as Ax.
  pose proof (clampAxis_unflipped_inside _ _ dy _ _ _
                (includes_low_high_y handle) Hy Hh HH) as Ay.
  cbn zeta in Ax, Ay.
  change (rx ocb, rwidth ocb) with (xAxis ocb) in Ax.
  change (ry ocb, rheight ocb) with (yAxis ocb) in Ay.
  rewrite <- Dx, <- Ex in Ax. rewrite <- Dy, <- Ey in Ay.
  unfold xAxis, yAxis in Ax, Ay. cbn [fst snd] in Ax, Ay.
  unfold cropInside. tauto.
Qed.

(** C1 (the code misses the flipped case): a horizontally flipped layer in
    crop mode shows its whole 100 x 100 image; its 'e' handle is dragged from
    (100,50) to (0,50).  The clamp leaves [cropBounds] at x = 100 with
    width 0: the width is below 1. *)
Theorem crop_resize_flipped_escapes_clamp (M : MathEnv) (vp : Viewport) :
  exactAtZero M ->
  let ia1 := startLayerTransform vp idleInteraction flippedCropLayer
               (K_resize H_e) (mkPoint 100 50) in
  let ia2 := resizeLayerFromHandle vp ia1 (mkPoint 0 50) false in
  exists l' b,
    transformingLayer ia2 = Some l' /\ Layer.cropMode l' = true /\
    Layer.cropBounds l' = Some b /\
    rx b == 100 /\ ry b == 0 /\ rwidth b == 0 /\ rheight b == 100 /\
    ~ (1 <= rwidth b).
Proof.
  intros [Hcos Hsin] ia1 ia2.
  pose proof (Hcos _ (rad_zero M)) as Hc.
  pose proof (Hsin _ (rad_zero M)) as Hs.
  subst ia2 ia1.
  unfold resizeLayerFromHandle, startLayerTransform, flippedCropLayer, idleInteraction.
  cbn -[Math_cos Math_sin Math_PI Qplus Qmult Qminus Qdiv Qopp Qeq_bool JS.truthy
        resizeTransformFrame resizeCropBounds getHandles].
  rewrite !Hc, !Hs.
  do 2 eexists. split; [reflexivity |]. split; [reflexivity |].
  split; [reflexivity |].
  repeat split; try (vm_compute; reflexivity).
  vm_compute. intros H. apply H. reflexivity.
Qed.

Lemma crop_resize_flipped_escapes_clamp_witness :
  exactAtZero sampleMath /\
  let ia1 := startLayerTransform (M := sampleMath) unitViewport idleInteraction
               flippedCropLayer (K_resize H_e) (mkPoint 100 50) in
  let ia2 := resizeLayerFromHandle (M := sampleMath) unitViewport ia1
               (mkPoint 0 50) false in
  exists l' b,
    transformingLayer ia2 = Some l' /\ Layer.cropMode l' = true /\
    Layer.cropBounds l' = Some b /\
    rx b == 100 /\ ry b == 0 /\ rwidth b == 0 /\ rheight b == 100 /\
    ~ (1 <= rwidth b).
Proof.
  split; [exact sampleMath_exactAtZero |].
  apply (crop_resize_flipped_escapes_clamp sampleMath unitViewport).
  exact sampleMath_exactAtZero.
Defined.

End GeometryFacts.

(** ** Layer store and z-order *)

Module StoreFacts.
Import Store.

Local Open Scope Z_scope.

Lemma insert_by_perm {A} (before : A -> A -> bool) a l :
  Permutation (insert_by before a l) (a :: l).
Proof.
  induction l as [|b t IH]; cbn.
  - reflexivity.
  - destruct (before a b).
    + reflexivity.
    + rewrite IH. apply perm_swap.
Qed.

(** The sort of the arrays is a rearrangement. *)
Lemma sort_by_perm {A} (before : A -> A -> bool) l :
  Permutation (sort_by before l) l.
Proof.
  induction l as [|a t IH]; cbn.
  - reflexivity.
  - rewrite insert_by_perm. now constructor.
Qed.

Lemma setZIndex_lookup_same h r z l :
  h !! r = Some l -> setZIndex h r z !! r = Some (Layer.set_zIndex l z).
Proof. intros Hl. unfold setZIndex. now rewrite lookup_alter_eq, Hl. Qed.

Lemma setZIndex_lookup_other h r r' z :
  r <> r' -> setZIndex h r z !! r' = h !! r'.
Proof. intros Hne. unfold setZIndex. now rewrite lookup_alter_ne. Qed.

Lemma setZIndex_is_Some h r r' z :
  is_Some (setZIndex h r z !! r') <-> is_Some (h !! r').
Proof. unfold setZIndex. apply lookup_alter_is_Some. Qed.

(** The renumbering loop: over an array of distinct objects without holes
    it runs to its end, gives the object at position [i] the zIndex
    [zOf (start + i)] and leaves every other object alone. *)
Lemma assignZIndices_spec zOf (fl : list nat) :
  forall (start : Z) (h : gmap nat Layer.t),
    NoDup fl ->
    (forall r, In r fl -> is_Some (h !! r)) ->
    exists h',
      assignZIndices zOf (map Some fl) start h = inl h' /\
      (forall (i : nat) r,
          fl !! i = Some r -> zIndexOf h' r = zOf (start + Z.of_nat i)) /\
      (forall r, ~ In r fl -> h' !! r = h !! r) /\
      (forall r, is_Some (h' !! r) <-> is_Some (h !! r)).
Proof.
  induction fl as [|a t IH]; intros start h Hnd Hall.
  - exists h. cbn. repeat split; try tauto. intros i r Hi. destruct i; discriminate.
  - apply NoDup_cons in Hnd as [Hat Hnd].
    assert (Hat' : ~ In a t) by (now rewrite <- list_elem_of_In).
    destruct (Hall a (or_introl eq_refl)) as [la Hla].
    destruct (IH (start + 1) (setZIndex h a (zOf start)) Hnd) as (h' & Hrun & Hz & Hout & Hsome).
    { intros r Hr. apply setZIndex_is_Some. apply Hall. now right. }
    exists h'. cbn. split; [exact Hrun |]. split; [| split].
    + intros [|i] r Hi.
      * cbn in Hi. injection Hi as <-.
        unfold zIndexOf. rewrite (Hout a Hat').
        rewrite (setZIndex_lookup_same _ _ _ _ Hla). cbn.
        f_equal. lia.
      * cbn in Hi. rewrite (Hz i r Hi). f_equal. lia.
    + intros r Hr. rewrite Hout by (intros Hin; apply Hr; now right).
      apply setZIndex_lookup_other. intros ->. apply Hr. now left.
    + intros r. rewrite Hsome. apply setZIndex_is_Some.
Qed.

Lemma elements_of_map_Some (l : list nat) : elements_of (map Some l) = l.
Proof.
  unfold elements_of. induction l as [|a t IH]; cbn; [reflexivity |].
  now rewrite IH.
Qed.

(** The zIndex values read off an array are those the positions were given. *)
Lemma map_zIndexOf_positions (h : gmap nat Layer.t) zOf (fl : list nat) start :
  (forall (i : nat) r, fl !! i = Some r -> zIndexOf h r = zOf (start + Z.of_nat i)) ->
  map (zIndexOf h) fl
    = map (fun i => zOf (start + Z.of_nat i)) (seq 0 (length fl)).
Proof.
  revert start. induction fl as [|a t IH]; intros start Hz; cbn; [reflexivity |].
  f_equal.
  - apply (Hz 0%nat a). reflexivity.
  - rewrite <- seq_shift, map_map.
    rewrite (IH (start + 1)).
    + apply map_ext. intros i. f_equal. lia.
    + intros i r Hi. rewrite (Hz (S i) r Hi). f_equal. lia.
Qed.

(** Counting down from [n - 1] visits the same numbers as counting up. *)
Lemma countdown_perm (n : nat) :
  Permutation (map (fun i => Z.of_nat n - 1 - (0 + Z.of_nat i)) (seq 0 n))
              (map Z.of_nat (seq 0 n)).
Proof.
  induction n as [|n IH].
  - reflexivity.
  - rewrite seq_S at 2. rewrite map_app. cbn [map seq Nat.add].
    rewrite <- seq_shift, map_map.
    etransitivity; [| apply Permutation_cons_append].
    replace (Z.of_nat (S n) - 1 - (0 + Z.of_nat 0)) with (Z.of_nat n) by lia.
    constructor.
    etransitivity; [| exact IH].
    apply Permutation_refl'. apply map_ext. intros i. lia.
Qed.

(** Exchanging two neighbours of an array without holes. *)
Lemma swap_neighbours (l : list nat) :
  forall i : nat,
    (S i < length l)%nat ->
    exists l',
      <[S i := match map Some l !! i with Some v => v | None => None end]>
        (<[i := match map Some l !! S i with Some v => v | None => None end]>
           (map Some l))
      = map Some l' /\ Permutation l' l.
Proof.
  induction l as [|a t IH]; intros [|i] Hi; cbn in Hi; try lia.
  - destruct t as [|b t']; cbn in Hi; [lia |].
    exists (b :: a :: t'). split; [reflexivity | apply perm_swap].
  - destruct (IH i) as (l' & El & Pl); [lia |].
    exists (a :: l'). split.
    + cbn. f_equal. exact El.
    + now constructor.
Qed.

Lemma arr_swap_up (l : list nat) (i : nat) :
  (S i < length l)%nat ->
  exists l',
    arr_swap (map Some l) (Z.of_nat i) (Z.of_nat i + 1) = map Some l'
    /\ Permutation l' l.
Proof.
  intros Hi. unfold arr_swap, arr_get, arr_set.
  replace (Z.of_nat i <? 0) with false by (symmetry; apply Z.ltb_ge; lia).
  replace (Z.of_nat i + 1 <? 0) with false by (symmetry; apply Z.ltb_ge; lia).
  replace (Z.to_nat (Z.of_nat i + 1)) with (S i) by lia.
  rewrite Nat2Z.id.
  now apply swap_neighbours.
Qed.

Lemma arr_swap_down (l : list nat) (i : nat) :
  (S i < length l)%nat ->
  exists l',
    arr_swap (map Some l) (Z.of_nat (S i)) (Z.of_nat (S i) - 1) = map Some l'
    /\ Permutation l' l.
Proof.
  intros Hi. unfold arr_swap, arr_get, arr_set.
  replace (Z.of_nat (S i) <? 0) with false by (symmetry; apply Z.ltb_ge; lia).
  replace (Z.of_nat (S i) - 1 <? 0) with false by (symmetry; apply Z.ltb_ge; lia).
  replace (Z.to_nat (Z.of_nat (S i) - 1)) with i by lia.
  rewrite Nat2Z.id.
  rewrite list_insert_insert_ne by lia.
  now apply swap_neighbours.
Qed.

Lemma indexOf_range (store : list nat) r :
  In r store -> 0 <= indexOf store r < Z.of_nat (length store).
Proof.
  induction store as [|a t IH]; intros Hin; [destruct Hin |].
  cbn [indexOf length]. destruct (Nat.eqb_spec a r) as [->|Hne].
  - lia.
  - destruct Hin as [->|Hin]; [congruence |].
    specialize (IH Hin).
    destruct (Z.ltb_spec (indexOf t r) 0); lia.
Qed.

Lemma toSet_subset (l : list Z) : forall seen i, In i (toSet l seen) -> In i l.
Proof.
  induction l as [|a t IH]; intros seen i Hi; cbn in *; [exact Hi |].
  destruct (existsb (Z.eqb a) seen).
  - right. eapply IH, Hi.
  - destruct Hi as [->|Hi]; [now left | right; eapply IH, Hi].
Qed.

Lemma arrangement_length store arr :
  arrangement store arr -> length arr = length store.
Proof.
  intros (l' & -> & P). rewrite length_map. now apply Permutation_length.
Qed.

Lemma moveUpStep_arrangement store sel arr index :
  0 <= index < Z.of_nat (length store) ->
  arrangement store arr -> arrangement store (moveUpStep sel arr index).
Proof.
  intros Hidx Harr. unfold moveUpStep.
  destruct (_ && _) eqn:Hc; [| exact Harr].
  apply andb_prop in Hc as [Hlt _]. apply Z.ltb_lt in Hlt.
  pose proof (arrangement_length _ _ Harr) as Hlen.
  destruct Harr as (l' & -> & P).
  rewrite length_map in Hlt, Hlen.
  destruct (arr_swap_up l' (Z.to_nat index)) as (l'' & E & P'); [lia |].
  rewrite Z2Nat.id in E by lia.
  exists l''. split; [exact E | now transitivity l'].
Qed.

Lemma moveDownStep_arrangement store sel arr index :
  0 <= index < Z.of_nat (length store) ->
  arrangement store arr -> arrangement store (moveDownStep sel arr index).
Proof.
  intros Hidx Harr. unfold moveDownStep.
  destruct (_ && _) eqn:Hc; [| exact Harr].
  apply andb_prop in Hc as [Hle _]. apply Z.leb_le in Hle.
  pose proof (arrangement_length _ _ Harr) as Hlen.
  destruct Harr as (l' & -> & P).
  rewrite length_map in Hlen.
  destruct (arr_swap_down l' (Z.to_nat (index - 1))) as (l'' & E & P'); [lia |].
  replace (Z.of_nat (S (Z.to_nat (index - 1)))) with index in E by lia.
  exists l''. split; [exact E | now transitivity l'].
Qed.

Lemma fold_left_preserves {A B} (P : A -> Prop) (f : A -> B -> A) (xs : list B) :
  forall init,
    (forall acc x, In x xs -> P acc -> P (f acc x)) ->
    P init -> P (fold_left f xs init).
Proof.
  induction xs as [|x t IH]; intros init Hstep Hinit; cbn; [exact Hinit |].
  apply IH.
  - intros acc y Hy. apply Hstep. now right.
  - apply Hstep; [now left | exact Hinit].
Qed.

(** The [direction] branch rearranges the layers of the store. *)
Lemma reorderByDirection_arrangement d sel store :
  (forall r, In r sel -> In r store) ->
  arrangement store (reorderByDirection d sel store).
Proof.
  intros Hsub.
  assert (Hrange : forall i,
             In i (toSet (map (indexOf store) sel) []) ->
             0 <= i < Z.of_nat (length store)).
  { intros i Hi. apply toSet_subset in Hi. apply in_map_iff in Hi as (r & <- & Hr).
    apply indexOf_range. now apply Hsub. }
  assert (Hinit : arrangement store (map Some store)) by (now exists store).
  unfold reorderByDirection. destruct d.
  - apply fold_left_preserves; [| exact Hinit].
    intros acc i Hi. apply moveUpStep_arrangement. apply Hrange.
    eapply Permutation_in; [apply sort_by_perm | exact Hi].
  - apply fold_left_preserves; [| exact Hinit].
    intros acc i Hi. apply moveDownStep_arrangement. apply Hrange.
    eapply Permutation_in; [apply sort_by_perm | exact Hi].
Qed.

Lemma arr_includes_In sel r : arr_includes sel r = true <-> In r sel.
Proof.
  unfold arr_includes. rewrite existsb_exists. split.
  - intros (x & Hx & E). apply Nat.eqb_eq in E. now subst.
  - intros Hr. exists r. split; [exact Hr | apply Nat.eqb_refl].
Qed.

Lemma filter_perm {A} (f : A -> bool) (l k : list A) :
  Permutation l k -> Permutation (List.filter f l) (List.filter f k).
Proof.
  induction 1 as [|x l k _ IH|x y l|l k m _ IH1 _ IH2]; cbn.
  - reflexivity.
  - destruct (f x); [now constructor | exact IH].
  - destruct (f x), (f y); try reflexivity. apply perm_swap.
  - now transitivity (List.filter f k).
Qed.

(** The loop of the [toIndex] branch puts the moved layers in once, when
    the target index is met, and keeps the other layers. *)
Lemma reorderLoop_perm sel toIdx displayed :
  forall i inserted,
    let hit := (i <=? toIdx) && (toIdx <? i + Z.of_nat (length displayed)) in
    snd (reorderLoop sel toIdx displayed i inserted) = inserted || hit /\
    Permutation (fst (reorderLoop sel toIdx displayed i inserted))
                ((if hit then sel else []) ++ notMoved sel displayed).
Proof.
  induction displayed as [|c rest IH]; intros i inserted; cbn zeta.
  - cbn. replace (_ && _) with false; [now rewrite orb_false_r |].
    symmetry. apply andb_false_iff.
    destruct (Z.leb_spec i toIdx); [right; apply Z.ltb_ge; lia | now left].
  - cbn [reorderLoop].
    destruct (reorderLoop sel toIdx rest (i + 1) (inserted || (i =? toIdx)))
      as [tail ins] eqn:Erec.
    specialize (IH (i + 1) (inserted || (i =? toIdx))).
    rewrite Erec in IH. cbn [fst snd] in IH. destruct IH as [Hins Hperm].
    cbn [fst snd length notMoved List.filter].
    fold (notMoved sel rest).
    destruct (Z.eqb_spec i toIdx) as [->|Hne].
    + replace ((toIdx + 1 <=? toIdx) && _) with false in Hins, Hperm
        by (symmetry; apply andb_false_iff; left; apply Z.leb_gt; lia).
      replace ((toIdx <=? toIdx) && _) with true
        by (symmetry; apply andb_true_iff; split;
            [apply Z.leb_le | apply Z.ltb_lt]; lia).
      split; [rewrite Hins; now rewrite !orb_true_r, ?orb_false_r |].
      cbn [app] in Hperm. rewrite Hperm.
      destruct (arr_includes sel c); reflexivity.
    + assert (Hhit : (i <=? toIdx) && (toIdx <? i + Z.of_nat (S (length rest)))
                     = (i + 1 <=? toIdx) && (toIdx <? i + 1 + Z.of_nat (length rest))).
      { destruct (Z.leb_spec i toIdx), (Z.leb_spec (i + 1) toIdx);
          destruct (Z.ltb_spec toIdx (i + Z.of_nat (S (length rest)))),
                   (Z.ltb_spec toIdx (i + 1 + Z.of_nat (length rest)));
          try reflexivity; lia. }
      rewrite Hhit. split; [rewrite Hins; now rewrite orb_false_r |].
      cbn [app]. rewrite Hperm.
      destruct (arr_includes sel c); cbn [negb app]; [reflexivity |].
      first [apply Permutation_middle | symmetry; apply Permutation_middle].
Qed.

(** The [toIndex] branch rearranges the moved layers and the layers of the
    store that are not moved. *)
Lemma reorderToIndex_perm h sel toIdx store :
  Permutation (reorderToIndex h sel toIdx store) (sel ++ notMoved sel store).
Proof.
  unfold reorderToIndex.
  pose proof (reorderLoop_perm sel toIdx (sortByZIndexDesc h store) 0 false)
    as [Hins Hperm].
  destruct (reorderLoop sel toIdx (sortByZIndexDesc h store) 0 false)
    as [res ins]. cbn [fst snd] in *. cbn [orb] in Hins.
  assert (Hf : Permutation (notMoved sel (sortByZIndexDesc h store))
                           (notMoved sel store))
    by (apply filter_perm, sort_by_perm).
  rewrite Hf in Hperm. subst ins.
  destruct (_ && _).
  - exact Hperm.
  - cbn [app] in Hperm. rewrite Hperm. apply Permutation_app_comm.
Qed.

Lemma moved_and_rest_perm sel store :
  NoDup sel -> NoDup store -> (forall r, In r sel -> In r store) ->
  Permutation (sel ++ notMoved sel store) store.
Proof.
  intros Hsel Hstore Hsub. apply NoDup_Permutation.
  - apply NoDup_app. split; [exact Hsel |]. split.
    + intros x Hx Hx'. apply list_elem_of_In in Hx, Hx'.
      apply filter_In in Hx' as [_ Hx'].
      apply negb_true_iff in Hx'.
      apply arr_includes_In in Hx. congruence.
    + apply base.NoDup_ListNoDup. apply List.NoDup_filter.
      now apply base.NoDup_ListNoDup.
  - exact Hstore.
  - intros x. rewrite elem_of_app, !list_elem_of_In. unfold notMoved.
    rewrite filter_In. split.
    + intros [Hx|[Hx _]]; [now apply Hsub | exact Hx].
    + intros Hx. destruct (arr_includes sel x) eqn:E.
      * left. now apply arr_includes_In.
      * right. split; [exact Hx | reflexivity].
Qed.

(** Renumbering a rearrangement of the store and sorting it by the new
    zIndex leaves the zIndex values 0, ..., N-1, whichever way the positions
    are counted. *)
Lemma renumber_contiguous (c : Canvas) (fl : list nat) (ti : option Z) :
  NoDup fl ->
  (forall r, In r fl -> is_Some (heap c !! r)) ->
  let zOf := fun index : Z =>
               match ti with
               | Some _ => Z.of_nat (length (map Some fl)) - 1 - index
               | None => index
               end in
  exists h',
    assignZIndices zOf (map Some fl) 0 (heap c) = inl h' /\
    zIndexContiguous (with_heap_layers c h' (sortByZIndexAsc h' fl)).
Proof.
  intros Hnd Hall zOf.
  destruct (assignZIndices_spec zOf fl 0 (heap c) Hnd Hall)
    as (h' & Hrun & Hz & _ & _).
  exists h'. split; [exact Hrun |].
  unfold zIndexContiguous, zIndices, with_heap_layers. cbn [heap layers].
  assert (Hs : Permutation (sortByZIndexAsc h' fl) fl) by apply sort_by_perm.
  rewrite (Permutation_length Hs).
  rewrite (Permutation_map (zIndexOf h') Hs).
  rewrite (map_zIndexOf_positions h' zOf fl 0 Hz).
  subst zOf. destruct ti as [t|].
  - rewrite length_map. apply countdown_perm.
  - apply Permutation_refl'. apply map_ext. intros i. lia.
Qed.

Lemma perm_NoDup (l k : list nat) : Permutation l k -> NoDup k -> NoDup l.
Proof. intros P Hk. now rewrite P. Qed.

(** [moveLayers], given a non-empty array of distinct layers of the store
    and a direction or a target index, returns and leaves the zIndex values
    0, ..., N-1. *)
Lemma moveLayers_contiguous (c : Canvas) (sel : list nat) (options : MoveOptions) :
  wellFormed c ->
  sel <> [] -> NoDup sel -> (forall r, In r sel -> In r (layers c)) ->
  (is_Some (direction options) \/ is_Some (toIndex options)) ->
  exists c', moveLayers c sel options = Returned c' /\ zIndexContiguous c'.
Proof.
  intros (Hnd & Halloc & _) Hne Hsel Hsub Hopt.
  unfold moveLayers. destruct sel as [|s0 sel']; [congruence |].
  set (sel := s0 :: sel') in *.
  destruct (direction options) as [d|].
  - destruct (reorderByDirection_arrangement d sel (layers c) Hsub)
      as (fl & Efl & Pfl).
    rewrite Efl.
    destruct (renumber_contiguous c fl (toIndex options)) as (h' & Hrun & Hc).
    { eapply perm_NoDup; eauto. }
    { intros r Hr. apply Halloc. eapply Permutation_in; eauto. }
    cbn zeta in Hrun. rewrite Hrun. rewrite elements_of_map_Some.
    eexists. split; [reflexivity | exact Hc].
  - destruct (toIndex options) as [t|].
    + set (fl := reorderToIndex (heap c) sel t (layers c)).
      assert (Pfl : Permutation fl (layers c)).
      { subst fl. rewrite reorderToIndex_perm.
        now apply moved_and_rest_perm. }
      destruct (renumber_contiguous c fl (Some t)) as (h' & Hrun & Hc).
      { eapply perm_NoDup; eauto. }
      { intros r Hr. apply Halloc. eapply Permutation_in; eauto. }
      cbn zeta in Hrun. rewrite Hrun. rewrite elements_of_map_Some.
      eexists. split; [reflexivity | exact Hc].
    + destruct Hopt as [[? H]|[? H]]; discriminate.
Qed.

Lemma newRef_fresh (h : gmap nat Layer.t) : h !! newRef h = None.
Proof.
  unfold newRef. apply not_elem_of_dom. apply is_fresh.
Qed.

(** [fuseLayers], past its guards, leaves the zIndex values 0, ..., N-1. *)
Lemma fuseLayers_contiguous (c : Canvas) (inp : FuseInput) :
  wellFormed c ->
  (2 <= length (selectedLayers c))%nat ->
  (0 < rwidth (fusedBox inp))%Q -> (0 < rheight (fusedBox inp))%Q ->
  ctxCreated inp = true -> imageLoaded inp = true ->
  zIndexContiguous (fuseLayers c inp).
Proof.
  intros (Hnd & Halloc & _) Hsel Hw Hh Hctx Himg.
  unfold fuseLayers.
  replace (length (selectedLayers c) <? 2)%nat with false
    by (symmetry; apply Nat.ltb_ge; lia).
  replace (Qle_bool (rwidth (fusedBox inp)) 0) with false.
  2:{ symmetry. apply not_true_is_false. intros H. apply Qle_bool_iff in H.
      apply (Qlt_not_le _ _ Hw H). }
  replace (Qle_bool (rheight (fusedBox inp)) 0) with false.
  2:{ symmetry. apply not_true_is_false. intros H. apply Qle_bool_iff in H.
      apply (Qlt_not_le _ _ Hh H). }
  rewrite Hctx, Himg. cbn [orb negb].
  set (fused := Layer.mk _ _ _ _ _ _ _ _ _ _ _ _ _ _ _ _ _ _ _ _).
  set (r := newRef (heap c)).
  set (h1 := <[r := fused]> (heap c)).
  set (kept := List.filter _ (layers c)).
  set (sorted := sortByZIndexAsc h1 (kept ++ [r])).
  assert (Hfresh : heap c !! r = None) by apply newRef_fresh.
  assert (Hkept : forall x, In x kept -> In x (layers c)).
  { intros x Hx. now apply filter_In in Hx as [Hx _]. }
  assert (Hr : ~ In r kept).
  { intros Hin. destruct (Halloc r (Hkept r Hin)) as [l Hl]. congruence. }
  assert (Hnd1 : NoDup (kept ++ [r])).
  { apply NoDup_app. split; [| split].
    - apply base.NoDup_ListNoDup. apply List.NoDup_filter.
      now apply base.NoDup_ListNoDup.
    - intros x Hx Hx'. apply list_elem_of_In in Hx.
      apply list_elem_of_singleton in Hx'. subst x. contradiction.
    - apply NoDup_singleton. }
  assert (Ps : Permutation sorted (kept ++ [r])) by apply sort_by_perm.
  destruct (assignZIndices_spec (fun index => index) sorted 0 h1)
    as (h2 & Hrun & Hz & _ & _).
  { eapply perm_NoDup; eauto. }
  { intros x Hx. apply (Permutation_in _ Ps) in Hx. apply in_app_or in Hx.
    subst h1. destruct Hx as [Hx|[<-|[]]].
    - rewrite lookup_insert_ne by (intros ->; contradiction).
      apply Halloc. now apply Hkept.
    - rewrite lookup_insert_eq. eauto. }
  rewrite Hrun.
  unfold zIndexContiguous, zIndices. cbn [heap layers].
  rewrite (map_zIndexOf_positions h2 (fun index => index) sorted 0 Hz).
  apply Permutation_refl'. apply map_ext. intros i. lia.
Qed.

(** C3: every z-order operation ([moveLayers] with a direction, [moveLayers]
    to a target display index, [fuseLayers]) that goes past its guards on
    a well-formed store returns, and in the store it leaves the zIndex
    values of the N layers are exactly 0, ..., N-1: no duplicates and no
    gaps. *)
Theorem zorder_operations_renumber (c : Canvas) (op : ZOrderOp) :
  wellFormed c -> opApplies c op ->
  exists c', runZOrderOp c op = Returned c' /\ zIndexContiguous c'.
Proof.
  intros Hwf Happ. destruct op as [sel d|sel t|inp]; cbn in Happ |- *.
  - destruct Happ as (Hne & Hnd & Hsub).
    apply moveLayers_contiguous; auto; left; cbn; eauto.
  - destruct Happ as (Hne & Hnd & Hsub).
    apply moveLayers_contiguous; auto; right; cbn; eauto.
  - destruct Happ as (Hsel & Hw & Hh & Hctx & Himg).
    eexists. split; [reflexivity |].
    now apply fuseLayers_contiguous.
Qed.

Lemma sampleCanvas_wellFormed : wellFormed sampleCanvas.
Proof.
  split; [| split].
  - cbn. apply (bool_decide_unpack _). vm_compute. exact I.
  - cbn. intros r [<-|[<-|[<-|[]]]]; vm_compute; eexists; reflexivity.
  - cbn. intros r [<-|[<-|[]]]; vm_compute; eexists; reflexivity.
Qed.

Lemma zorder_operations_renumber_witness :
  wellFormed sampleCanvas /\
  opApplies sampleCanvas (OpMoveDirection [0%nat] Up) /\
  exists c',
    runZOrderOp sampleCanvas (OpMoveDirection [0%nat] Up) = Returned c'
    /\ zIndexContiguous c'.
Proof.
  assert (Happ : opApplies sampleCanvas (OpMoveDirection [0%nat] Up)).
  { cbn. split; [discriminate |]. split.
    - apply NoDup_singleton.
    - intros r [<-|[]]. now left. }
  split; [exact sampleCanvas_wellFormed |]. split; [exact Happ |].
  exact (zorder_operations_renumber sampleCanvas (OpMoveDirection [0%nat] Up)
           sampleCanvas_wellFormed Happ).
Defined.

Lemma fold_max_ge (zs : list Z) :
  forall a, a <= fold_left Z.max zs a /\
            forall z, In z zs -> z <= fold_left Z.max zs a.
Proof.
  induction zs as [|b t IH]; intros a; cbn.
  - split; [lia | intros z []].
  - destruct (IH (Z.max a b)) as [Ha Ht]. split; [lia |].
    intros z [<-|Hz]; [lia | now apply Ht].
Qed.

(** No layer of the store lies above [maxZIndex]. *)
Lemma maxZIndex_ge (c : Canvas) r :
  In r (layers c) -> zIndexOf (heap c) r <= maxZIndex c.
Proof.
  intros Hr. unfold maxZIndex, zIndices.
  destruct (layers c) as [|a t]; [destruct Hr |].
  cbn [length Nat.ltb Nat.leb map spread_max].
  destruct (fold_max_ge (map (zIndexOf (heap c)) t) (zIndexOf (heap c) a))
    as [Ha Ht].
  destruct Hr as [<-|Hr]; [exact Ha |].
  apply Ht. now apply in_map.
Qed.

(** The loop of [pasteLayers] appends one new object per clipboard entry,
    numbers them upwards from [maxZ + 1 + index] and leaves the objects
    that were there alone. *)
Lemma pasteLoop_spec ox oy maxZ (clip : list Layer.t) :
  forall index (h : gmap nat Layer.t) ls news,
  exists h' added,
    pasteLoop ox oy maxZ clip index h ls news = (h', ls ++ added, news ++ added)
    /\ length added = length clip
    /\ (forall r, is_Some (h !! r) -> h' !! r = h !! r)
    /\ (forall (i : nat) r,
           added !! i = Some r ->
           h !! r = None /\ zIndexOf h' r = maxZ + 1 + index + Z.of_nat i).
Proof.
  induction clip as [|cl rest IH]; intros index h ls news.
  - exists h, []. cbn. rewrite !app_nil_r.
    split; [reflexivity |]. split; [reflexivity |]. split; [auto |].
    intros i r Hi. destruct i; discriminate.
  - cbn [pasteLoop].
    set (newLayer := Layer.set_zIndex _ _).
    set (r := newRef h).
    assert (Hfresh : h !! r = None) by apply newRef_fresh.
    destruct (IH (index + 1) (<[r := newLayer]> h) (ls ++ [r]) (news ++ [r]))
      as (h' & added & Hrun & Hlen & Hold & Hnew).
    exists h', (r :: added). rewrite Hrun, <- !app_assoc. cbn [app length].
    split; [reflexivity |]. split; [now rewrite Hlen |]. split.
    + intros r0 Hr0. assert (r <> r0) by (intros ->; destruct Hr0; congruence).
      rewrite Hold; rewrite lookup_insert_ne; auto.
    + intros [|i] r' Hi; cbn in Hi.
      * injection Hi as <-. split; [exact Hfresh |].
        unfold zIndexOf. rewrite Hold by (rewrite lookup_insert_eq; eauto).
        rewrite lookup_insert_eq. subst newLayer. cbn. lia.
      * destruct (Hnew i r' Hi) as [Hnone Hz]. split.
        -- destruct (decide (r = r')) as [<-|Hne].
           ++ now rewrite lookup_insert_eq in Hnone.
           ++ now rewrite lookup_insert_ne in Hnone.
        -- rewrite Hz. lia.
Qed.

(** X29: every layer made by [pasteLayers], and every layer made by
    [addLayerWithImage] from properties that carry no zIndex, gets a zIndex
    above that of every layer already in the store; the pasted layers are
    numbered upwards in clipboard order; and the layers that were in the
    store keep their place in the array and their zIndex. *)
Theorem new_layers_go_on_top (c : Canvas) :
  wellFormed c ->
  (forall image layerProps addMode targetArea newId newImageId c' r,
      p_zIndex layerProps = None ->
      addLayerWithImage c image layerProps addMode targetArea newId newImageId
        = Some (c', r) ->
      layers c' = layers c ++ [r] /\
      forall r0, In r0 (layers c) ->
                 heap c' !! r0 = heap c !! r0 /\
                 zIndexOf (heap c) r0 < zIndexOf (heap c') r)
  /\ (exists added,
        layers (pasteLayers c) = layers c ++ added /\
        length added = length (internalClipboard c) /\
        (forall r0, In r0 (layers c) ->
                    heap (pasteLayers c) !! r0 = heap c !! r0) /\
        (forall (i : nat) r,
            added !! i = Some r ->
            zIndexOf (heap (pasteLayers c)) r = maxZIndex c + 1 + Z.of_nat i /\
            forall r0, In r0 (layers c) ->
                       zIndexOf (heap c) r0 < zIndexOf (heap (pasteLayers c)) r)).
Proof.
  intros (Hnd & Halloc & _). split.
  - intros image layerProps addMode targetArea newId newImageId c' r Hz Hadd.
    unfold addLayerWithImage in Hadd.
    destruct image as [image|]; [| discriminate].
    destruct (match addMode with A_default => _ | A_fit => _ | A_mouse => _ end)
      as [[[fw fh] fx] fy].
    injection Hadd as <- <-. cbn [layers heap].
    split; [reflexivity |].
    intros r0 Hr0.
    assert (Hne : newRef (heap c) <> r0).
    { intros E. destruct (Halloc r0 Hr0) as [l Hl].
      rewrite <- E, newRef_fresh in Hl. discriminate. }
    split; [now apply lookup_insert_ne |].
    unfold zIndexOf at 2. rewrite lookup_insert_eq.
    unfold spreadProps. cbn [Layer.zIndex]. rewrite Hz. cbn [or_default].
    pose proof (maxZIndex_ge c r0 Hr0). lia.
  - unfold pasteLayers.
    destruct (internalClipboard c) as [|first rest] eqn:Eclip.
    + exists []. rewrite app_nil_r.
      split; [reflexivity |]. split; [reflexivity |]. split; [auto |].
      intros i r Hi. destruct i; discriminate.
    + set (ox := (px (lastMousePosition c) - _)%Q).
      set (oy := (py (lastMousePosition c) - _)%Q).
      destruct (pasteLoop_spec ox oy (maxZIndex c) (first :: rest) 0 (heap c)
                               (layers c) [])
        as (h' & added & Hrun & Hlen & Hold & Hnew).
      rewrite Hrun. cbn [layers heap].
      exists added. split; [reflexivity |]. split; [exact Hlen |]. split.
      * intros r0 Hr0. apply Hold. now apply Halloc.
      * intros i r Hi. destruct (Hnew i r Hi) as [_ Hz]. split; [rewrite Hz; lia |].
        intros r0 Hr0. rewrite Hz.
        pose proof (maxZIndex_ge c r0 Hr0). lia.
Qed.

Lemma new_layers_go_on_top_witness :
  wellFormed sampleCanvas /\
  p_zIndex noProps = None /\
  (exists added,
      layers (pasteLayers sampleCanvas) = layers sampleCanvas ++ added /\
      length added = length (internalClipboard sampleCanvas) /\
      (forall r0, In r0 (layers sampleCanvas) ->
                  heap (pasteLayers sampleCanvas) !! r0 = heap sampleCanvas !! r0) /\
      (forall (i : nat) r,
          added !! i = Some r ->
          zIndexOf (heap (pasteLayers sampleCanvas)) r
            = maxZIndex sampleCanvas + 1 + Z.of_nat i /\
          forall r0, In r0 (layers sampleCanvas) ->
                     zIndexOf (heap sampleCanvas) r0
                       < zIndexOf (heap (pasteLayers sampleCanvas)) r)).
Proof.
  split; [exact sampleCanvas_wellFormed |]. split; [reflexivity |].
  exact (proj2 (new_layers_go_on_top sampleCanvas sampleCanvas_wellFormed)).
Defined.

(** C10 (the code numbers the copies in clipboard order): of two stacked
    layers the upper one is selected first, then the lower one; the
    selection is copied and pasted.  The clipboard holds the upper layer
    first, so its copy gets zIndex 2 and the copy of the lower layer gets
    zIndex 3: both are above the layers of the store, which keep their
    zIndex, but the copy of the lower layer now lies above the copy of the
    upper one. *)
Theorem paste_inverts_relative_order :
  map Layer.id (internalClipboard (copySelectedLayers stackedCanvas))
  = ["upper"; "lower"]%string
  /\ layers (pasteLayers (copySelectedLayers stackedCanvas))
     = [0%nat; 1%nat; 2%nat; 3%nat]
  /\ map (fun r =>
            (Layer.id <$> heap (pasteLayers (copySelectedLayers stackedCanvas)) !! r,
             zIndexOf (heap (pasteLayers (copySelectedLayers stackedCanvas))) r))
         [0%nat; 1%nat; 2%nat; 3%nat]
     = [(Some "lower", 0); (Some "upper", 1);
        (Some "upper", 2); (Some "lower", 3)]%string
  /\ zIndexOf (heap stackedCanvas) 0%nat < zIndexOf (heap stackedCanvas) 1%nat
  /\ ~ (zIndexOf (heap (pasteLayers (copySelectedLayers stackedCanvas))) 3%nat
        < zIndexOf (heap (pasteLayers (copySelectedLayers stackedCanvas))) 2%nat).
Proof.
  split; [reflexivity |]. split; [vm_compute; reflexivity |].
  split; [vm_compute; reflexivity |]. split; [reflexivity |].
  vm_compute. discriminate.
Qed.

End StoreFacts.

(** ** History *)

Module HistoryFacts.
Import History.

Lemma set_layer_stacks_same s :
  set_layer_stacks s (layersUndoStack s) (layersRedoStack s) = s.
Proof. now destruct s. Qed.

Lemma last_shift {A} (l : list A) :
  (2 <= length l)%nat -> last (shift l) = last l.
Proof.
  destruct l as [|a [|b t]]; cbn; intros H; try lia. reflexivity.
Qed.

Lemma last_push {A} (l : list A) x : last (push l x) = Some x.
Proof. apply last_snoc. Qed.

Lemma pop_push {A} (l : list A) x : pop (push l x) = l.
Proof. apply removelast_last. Qed.

Lemma saveLayersState_layers (U : CommonUtils) replaceLast (s : State) :
  layers (saveLayersState replaceLast s) = layers s.
Proof.
  unfold saveLayersState.
  destruct (match last _ with Some _ => _ | None => _ end); reflexivity.
Qed.

(** After [saveLayersState] the top of the stack has the signature of the
    layer store. *)
Lemma saveLayersState_top (U : CommonUtils) (s : State) :
  exists top,
    last (layersUndoStack (saveLayersState false s)) = Some top /\
    getStateSignature top = getStateSignature (cloneLayers (layers s)).
Proof.
  unfold saveLayersState. cbn [andb].
  destruct (last (layersUndoStack s)) as [lastState|] eqn:Hlast.
  - destruct (bool_decide _) eqn:Hdup.
    + apply bool_decide_eq_true_1 in Hdup.
      exists lastState. cbn. split; [exact Hlast | exact Hdup].
    + exists (cloneLayers (layers s)). split; [| reflexivity].
      cbn [layersUndoStack set_layer_stacks].
      destruct (Nat.ltb_spec historyLimit
                  (length (push (layersUndoStack s) (cloneLayers (layers s))))) as [Hl|Hl].
      * rewrite last_shift; [apply last_push |]. unfold historyLimit in Hl. lia.
      * apply last_push.
  - exists (cloneLayers (layers s)). split; [| reflexivity].
    cbn [layersUndoStack set_layer_stacks].
    destruct (Nat.ltb_spec historyLimit
                (length (push (layersUndoStack s) (cloneLayers (layers s))))) as [Hl|Hl].
    + rewrite last_shift; [apply last_push |]. unfold historyLimit in Hl. lia.
    + apply last_push.
Qed.

(** [saveLayersState] does nothing when the top of the stack already has
    the signature of the layer store. *)
Lemma saveLayersState_unchanged (U : CommonUtils) (s : State) top :
  last (layersUndoStack s) = Some top ->
  getStateSignature top = getStateSignature (cloneLayers (layers s)) ->
  saveLayersState false s = s.
Proof.
  intros Hlast Hsig. unfold saveLayersState. cbn [andb].
  rewrite Hlast. rewrite bool_decide_eq_true_2 by exact Hsig.
  apply set_layer_stacks_same.
Qed.

(** A second [saveLayersState] right after a first one changes nothing. *)
Lemma saveLayersState_idempotent (U : CommonUtils) (s : State) :
  saveLayersState false (saveLayersState false s) = saveLayersState false s.
Proof.
  destruct (saveLayersState_top U s) as (top & Hlast & Hsig).
  apply (saveLayersState_unchanged U _ top Hlast).
  now rewrite saveLayersState_layers.
Qed.

(** The first [saveLayersState] after a change pushes one entry. *)
Lemma saveLayersState_pushes (U : CommonUtils) (s : State) :
  match last (layersUndoStack s) with
  | Some top => getStateSignature top <> getStateSignature (cloneLayers (layers s))
  | None => True
  end ->
  (length (layersUndoStack s) < historyLimit)%nat ->
  layersUndoStack (saveLayersState false s)
    = layersUndoStack s ++ [cloneLayers (layers s)].
Proof.
  intros Hdiff Hlen. unfold saveLayersState. cbn [andb].
  destruct (last (layersUndoStack s)) as [top|].
  - rewrite bool_decide_eq_false_2 by exact Hdiff.
    unfold push. rewrite length_app. cbn [length].
    replace (historyLimit <? _)%nat with false
      by (symmetry; apply Nat.ltb_ge; lia).
    reflexivity.
  - unfold push. rewrite length_app. cbn [length].
    replace (historyLimit <? _)%nat with false
      by (symmetry; apply Nat.ltb_ge; lia).
    reflexivity.
Qed.

(** [saveMaskState] pushes the mask whatever the top of the stack is. *)
Lemma saveMaskState_pushes (s : State) :
  hasMaskTool s = true ->
  (length (maskUndoStack s) < historyLimit)%nat ->
  saveMaskState false s = set_mask_stacks s (maskUndoStack s ++ [mask s]) [].
Proof.
  intros Htool Hlen. unfold saveMaskState. rewrite Htool. cbn [negb andb].
  unfold push. rewrite length_app. cbn [length].
  replace (historyLimit <? _)%nat with false
    by (symmetry; apply Nat.ltb_ge; lia).
  reflexivity.
Qed.

(** At the history limit the push of [saveLayersState] evicts the oldest
    entry. *)
Lemma saveLayersState_evicts (U : CommonUtils) (s : State) :
  match last (layersUndoStack s) with
  | Some top => getStateSignature top <> getStateSignature (cloneLayers (layers s))
  | None => True
  end ->
  length (layersUndoStack s) = historyLimit ->
  layersUndoStack (saveLayersState false s)
    = shift (layersUndoStack s ++ [cloneLayers (layers s)]).
Proof.
  intros Hdiff Hlen. unfold saveLayersState. cbn [andb].
  destruct (last (layersUndoStack s)) as [top|].
  - rewrite bool_decide_eq_false_2 by exact Hdiff.
    unfold push. rewrite length_app. cbn [length].
    replace (historyLimit <? _)%nat with true
      by (symmetry; apply Nat.ltb_lt; lia).
    reflexivity.
  - unfold push. rewrite length_app. cbn [length].
    replace (historyLimit <? _)%nat with true
      by (symmetry; apply Nat.ltb_lt; lia).
    reflexivity.
Qed.

(** At the history limit the push of [saveMaskState] evicts the oldest
    entry. *)
Lemma saveMaskState_evicts (s : State) :
  hasMaskTool s = true ->
  length (maskUndoStack s) = historyLimit ->
  saveMaskState false s
  = set_mask_stacks s (shift (maskUndoStack s ++ [mask s])) [].
Proof.
  intros Htool Hlen. unfold saveMaskState. rewrite Htool. cbn [negb andb].
  unfold push. rewrite length_app. cbn [length].
  replace (historyLimit <? _)%nat with true
    by (symmetry; apply Nat.ltb_lt; lia).
  reflexivity.
Qed.

(** C4 (as amended): with the mask tool inactive, [saveState] pushes on the
    layer-state stack only when the signature of the snapshot differs from
    that of the stack top: a call that finds the signature on top changes
    nothing, and of two calls with no mutation in between the second never
    does anything.  When the top differs (or the stack is empty) the two
    calls leave exactly one more entry, the stack being cut from the front
    to the history limit of 100 entries: below the limit nothing is lost,
    at the limit the oldest entry goes and the count stays 100.  With the
    mask tool active there is no comparison: each of the two calls pushes
    the mask, under the same limit. *)
Theorem saveState_twice (U : CommonUtils) (s : State) :
  (maskToolActive s = false ->
   saveState false (saveState false s) = saveState false s
   /\ (forall top,
         last (layersUndoStack s) = Some top ->
         getStateSignature top = getStateSignature (cloneLayers (layers s)) ->
         saveState false s = s)
   /\ (match last (layersUndoStack s) with
       | Some top => getStateSignature top <> getStateSignature (cloneLayers (layers s))
       | None => True
       end ->
       ((length (layersUndoStack s) < historyLimit)%nat ->
        layersUndoStack (saveState false (saveState false s))
        = layersUndoStack s ++ [cloneLayers (layers s)])
       /\ (length (layersUndoStack s) = historyLimit ->
           layersUndoStack (saveState false (saveState false s))
           = shift (layersUndoStack s ++ [cloneLayers (layers s)])
           /\ length (layersUndoStack (saveState false (saveState false s)))
              = historyLimit)))
  /\ (maskToolActive s = true ->
      ((length (maskUndoStack s) + 2 <= historyLimit)%nat ->
       maskUndoStack (saveState false (saveState false s))
       = maskUndoStack s ++ [mask s; mask s])
      /\ (length (maskUndoStack s) = historyLimit ->
          maskUndoStack (saveState false (saveState false s))
          = shift (shift (maskUndoStack s ++ [mask s; mask s]))
          /\ length (maskUndoStack (saveState false (saveState false s)))
             = historyLimit)).
Proof.
  split.
  - intros Hmask.
    assert (E1 : saveState false s = saveLayersState false s)
      by (unfold saveState; now rewrite Hmask).
    assert (Hmask' : maskToolActive (saveLayersState false s) = false).
    { unfold saveLayersState. destruct (match last _ with Some _ => _ | None => _ end);
        exact Hmask. }
    assert (E2 : saveState false (saveLayersState false s)
                 = saveLayersState false (saveLayersState false s))
      by (unfold saveState; now rewrite Hmask').
    rewrite E1, E2, saveLayersState_idempotent.
    split; [reflexivity |]. split.
    + intros top Htop Hsig. now apply saveLayersState_unchanged with top.
    + intros Hdiff. split; [now apply saveLayersState_pushes |].
      intros Hlen. apply saveLayersState_evicts in Hdiff as ->; [| exact Hlen].
      split; [reflexivity |].
      unfold shift. destruct (layersUndoStack s) as [|a st]; [discriminate |].
      cbn [app tl length] in *. rewrite length_app. cbn [length]. lia.
  - intros Hmask.
    apply andb_prop in Hmask as Hparts. destruct Hparts as [Htool Hact].
    assert (E1 : saveState false s = saveMaskState false s)
      by (unfold saveState; now rewrite Hmask).
    rewrite E1. split.
    + intros Hlen. rewrite (saveMaskState_pushes s Htool) by lia.
      set (s1 := set_mask_stacks s (maskUndoStack s ++ [mask s]) []).
      assert (E2 : saveState false s1 = saveMaskState false s1)
        by (unfold saveState; now replace (maskToolActive s1) with true).
      rewrite E2, (saveMaskState_pushes s1 Htool).
      * cbn. now rewrite <- app_assoc.
      * subst s1. cbn. rewrite length_app. cbn. lia.
    + intros Hlen. rewrite (saveMaskState_evicts s Htool Hlen).
      set (s1 := set_mask_stacks s (shift (maskUndoStack s ++ [mask s])) []).
      assert (E2 : saveState false s1 = saveMaskState false s1)
        by (unfold saveState; now replace (maskToolActive s1) with true).
      assert (Hlen1 : length (maskUndoStack s1) = historyLimit).
      { subst s1. cbn [maskUndoStack set_mask_stacks]. unfold shift.
        destruct (maskUndoStack s) as [|a st]; [discriminate |].
        cbn [app tl length] in *. rewrite length_app. cbn [length]. lia. }
      rewrite E2, (saveMaskState_evicts s1 Htool Hlen1).
      subst s1. cbn [maskUndoStack set_mask_stacks mask] in *.
      unfold shift in *.
      destruct (maskUndoStack s) as [|a [|b st]]; [discriminate | discriminate |].
      cbn [app tl length] in *. rewrite <- app_assoc. cbn [app].
      split; [reflexivity |]. rewrite length_app. cbn [length]. lia.
Qed.

Lemma saveState_twice_witness :
  (maskToolActive editedSession = false /\
   saveState (U := structuralUtils) false
     (saveState (U := structuralUtils) false editedSession)
   = saveState (U := structuralUtils) false editedSession /\
   layersUndoStack
     (saveState (U := structuralUtils) false
        (saveState (U := structuralUtils) false editedSession))
   = [sampleState 1] ++ [sampleState 2])
  /\ (maskToolActive maskSession = true /\
      maskUndoStack
        (saveState (U := structuralUtils) false
           (saveState (U := structuralUtils) false maskSession))
      = maskUndoStack maskSession ++ [mask maskSession; mask maskSession]).
Proof.
  pose proof (saveState_twice structuralUtils editedSession) as [Hlayers _].
  pose proof (saveState_twice structuralUtils maskSession) as [_ Hmask].
  destruct (Hlayers eq_refl) as (Hidem & _ & Hpush).
  split.
  - split; [reflexivity |]. split; [exact Hidem |].
    apply Hpush; [vm_compute; discriminate | cbn; unfold historyLimit; lia].
  - split; [reflexivity |].
    apply (Hmask eq_refl). cbn. unfold historyLimit. lia.
Defined.

(** C4 as stated fails on the mask-state stack: two calls of [saveState]
    with the mask tool active and the mask untouched leave two entries
    beyond the baseline. *)
Lemma saveState_twice_mask_pushes_twice :
  maskToolActive maskSession = true /\
  maskUndoStack maskSession = [[0%Z; 0%Z]] /\
  maskUndoStack
    (saveState (U := structuralUtils) false
       (saveState (U := structuralUtils) false maskSession))
  = [[0%Z; 0%Z]; [1%Z; 2%Z]; [1%Z; 2%Z]].
Proof. repeat split. Qed.

(** C5 (as amended): [undo] needs at least 2 entries on the active undo
    stack, [redo] needs an entry on the active redo stack; an operation
    whose requirement is not met returns without touching the layer store,
    the mask or any stack. *)
Theorem undo_redo_guards (U : CommonUtils) (s : State) :
  ((activeUndoCount s < 2)%nat -> undo s = s) /\
  (activeRedoCount s = 0%nat -> redo s = s).
Proof.
  unfold activeUndoCount, activeRedoCount, undo, redo. split.
  - intros Hlen. destruct (maskToolActive s).
    + unfold undoMaskState.
      replace (length (maskUndoStack s) <=? 1)%nat with true
        by (symmetry; apply Nat.leb_le; lia).
      now rewrite orb_true_r.
    + unfold undoLayersState.
      replace (length (layersUndoStack s) <=? 1)%nat with true
        by (symmetry; apply Nat.leb_le; lia).
      reflexivity.
  - intros Hlen. destruct (maskToolActive s).
    + unfold redoMaskState. apply length_zero_iff_nil in Hlen. rewrite Hlen.
      now destruct (negb (hasMaskTool s)).
    + unfold redoLayersState. apply length_zero_iff_nil in Hlen. now rewrite Hlen.
Qed.

Lemma undo_redo_guards_witness :
  (activeUndoCount sessionAfterUndo < 2)%nat /\
  undo (U := structuralUtils) sessionAfterUndo = sessionAfterUndo /\
  activeRedoCount (freshSession (sampleState 1)) = 0%nat /\
  redo (U := structuralUtils) (freshSession (sampleState 1))
  = freshSession (sampleState 1).
Proof.
  assert (H1 : (activeUndoCount sessionAfterUndo < 2)%nat) by (vm_compute; lia).
  split; [exact H1 |]. split.
  - exact (proj1 (undo_redo_guards structuralUtils sessionAfterUndo) H1).
  - split; [reflexivity |].
    exact (proj2 (undo_redo_guards structuralUtils (freshSession (sampleState 1)))
                 eq_refl).
Defined.

(** C5 as stated fails for [redo]: after two snapshots and one undo the
    undo stack holds a single entry, and yet [redo] restores the second
    snapshot and moves it back on the undo stack. *)
Lemma redo_with_one_undo_entry :
  activeUndoCount sessionAfterUndo = 1%nat /\
  layers sessionAfterUndo = sampleState 1 /\
  layers (redo (U := structuralUtils) sessionAfterUndo) = sampleState 2 /\
  layersUndoStack (redo (U := structuralUtils) sessionAfterUndo)
  = [sampleState 1; sampleState 2] /\
  redo (U := structuralUtils) sessionAfterUndo <> sessionAfterUndo.
Proof.
  repeat split. vm_compute. discriminate.
Qed.

Lemma snapshotOf_layers_path (U : CommonUtils) (s : State) ls :
  maskToolActive s = false ->
  snapshotOf s ls = saveLayersState false (set_layers s ls).
Proof.
  intros Hmask. unfold snapshotOf, saveState.
  now replace (maskToolActive (set_layers s ls)) with false.
Qed.

Lemma saveLayersState_maskToolActive (U : CommonUtils) r (s : State) :
  maskToolActive (saveLayersState r s) = maskToolActive s.
Proof.
  unfold saveLayersState.
  destruct (match last _ with Some _ => _ | None => _ end); reflexivity.
Qed.

(** The first snapshot of a session makes the baseline entry. *)
Lemma first_snapshot (U : CommonUtils) (s0 : State) baseline :
  maskToolActive s0 = false -> layersUndoStack s0 = [] ->
  afterSnapshots U (cloneLayers baseline) 1 (snapshotOf s0 baseline).
Proof.
  intros Hmask Hempty.
  rewrite (snapshotOf_layers_path U s0 baseline Hmask).
  split; [| split].
  - now rewrite saveLayersState_maskToolActive.
  - exists []. split; [| cbn; lia].
    unfold saveLayersState. cbn. rewrite Hempty. reflexivity.
  - destruct (saveLayersState_top U (set_layers s0 baseline)) as (top & Hl & Hs).
    exists top. split; [exact Hl |]. now rewrite saveLayersState_layers.
Qed.

(** A further snapshot below the history limit keeps the baseline entry. *)
Lemma next_snapshot (U : CommonUtils) b k (s : State) ls :
  afterSnapshots U b k s -> (S k <= historyLimit)%nat ->
  afterSnapshots U b (S k) (snapshotOf s ls).
Proof.
  intros (Hmask & (rest & Hstack & Hlen) & _) Hk.
  rewrite (snapshotOf_layers_path U s ls Hmask).
  split; [| split].
  - now rewrite saveLayersState_maskToolActive.
  - unfold saveLayersState. cbn [andb layersUndoStack set_layers].
    destruct (match last (layersUndoStack s) with Some _ => _ | None => _ end).
    + exists rest. cbn. split; [exact Hstack | lia].
    + exists (rest ++ [cloneLayers ls]). cbn [layersUndoStack set_layer_stacks].
      unfold push. rewrite Hstack. cbn [app length].
      rewrite !length_app. cbn [length].
      replace (historyLimit <? _)%nat with false
        by (symmetry; apply Nat.ltb_ge; lia).
      split; [reflexivity | lia].
  - destruct (saveLayersState_top U (set_layers s ls)) as (top & Hl & Hs).
    exists top. split; [exact Hl |]. now rewrite saveLayersState_layers.
Qed.

Lemma snapshots_below_limit (U : CommonUtils) b (later : list (list Layer.t)) :
  forall k (s : State),
    afterSnapshots U b k s -> (k + length later <= historyLimit)%nat ->
    afterSnapshots U b (k + length later) (fold_left snapshotOf later s).
Proof.
  induction later as [|ls t IH]; intros k s Hinv Hk; cbn [fold_left length] in *.
  - now rewrite Nat.add_0_r.
  - replace (k + S (length t))%nat with (S k + length t)%nat by lia.
    apply IH; [| lia]. apply next_snapshot; [exact Hinv | lia].
Qed.

Lemma undoTimes_fixed (U : CommonUtils) (s : State) n :
  undo s = s -> undoTimes n s = s.
Proof. intros H. induction n as [|n IH]; cbn; [reflexivity | now rewrite H]. Qed.

Lemma pop_cons_length {A} (x : A) (t : list A) :
  length (pop (x :: t)) = length t.
Proof.
  unfold pop. destruct (exists_last (l := x :: t)) as (l' & y & E); [discriminate |].
  rewrite E, removelast_last.
  apply (f_equal (@length A)) in E. rewrite length_app in E. cbn in E. lia.
Qed.

(** Undoing at least as often as there are entries above the baseline
    brings the layer store back to the baseline entry. *)
Lemma undoTimes_reaches_baseline (U : CommonUtils) :
  cloneKeepsSignature U ->
  forall n (s : State) b rest,
    maskToolActive s = false ->
    layersUndoStack s = b :: rest ->
    (exists top, last (b :: rest) = Some top /\
                 getStateSignature top = getStateSignature (layers s)) ->
    (length rest <= n)%nat ->
    getStateSignature (layers (undoTimes n s)) = getStateSignature b.
Proof.
  intros Hclone.
  induction n as [|n IH]; intros s b rest Hmask Hstack (top & Hlast & Hsig) Hlen.
  - destruct rest; [| cbn in Hlen; lia].
    cbn in Hlast. injection Hlast as <-. cbn. now rewrite Hsig.
  - destruct rest as [|x t].
    + cbn in Hlast. injection Hlast as <-.
      rewrite undoTimes_fixed; [now rewrite Hsig |].
      unfold undo, undoLayersState. now rewrite Hmask, Hstack.
    + cbn [undoTimes].
      assert (Hundo : undo s = undoLayersState s)
        by (unfold undo; now rewrite Hmask).
      rewrite Hundo. unfold undoLayersState. rewrite Hstack.
      cbn [length Nat.leb].
      rewrite Hlast.
      change (pop (b :: x :: t)) with (b :: pop (x :: t)).
      destruct (last (b :: pop (x :: t))) as [prev|] eqn:Hprev.
      * apply IH with (rest := pop (x :: t)).
        -- exact Hmask.
        -- reflexivity.
        -- exists prev. split; [exact Hprev |]. cbn. now rewrite Hclone.
        -- rewrite pop_cons_length. cbn in Hlen. lia.
      * apply last_None in Hprev. discriminate.
Qed.

(** C6 (as amended): for every N from 1 to the history limit of 100, N
    snapshots taken from a session without history, the first of them of
    the baseline state, followed by N-1 undo operations, bring the layer
    store back to a state with the signature of the baseline. *)
Theorem undo_returns_to_baseline (U : CommonUtils) (s0 : State)
    (baseline : list Layer.t) (later : list (list Layer.t)) :
  cloneKeepsSignature U ->
  maskToolActive s0 = false -> layersUndoStack s0 = [] ->
  (S (length later) <= historyLimit)%nat ->
  getStateSignature
    (layers (undoTimes (length later)
                       (fold_left snapshotOf (baseline :: later) s0)))
  = getStateSignature baseline.
Proof.
  intros Hclone Hmask Hempty Hn. cbn [fold_left].
  pose proof (first_snapshot U s0 baseline Hmask Hempty) as H1.
  pose proof (snapshots_below_limit U _ later 1 _ H1 Hn)
    as (Hm & (rest & Hstack & Hlen) & (top & Hlast & Hsig)).
  rewrite <- (Hclone baseline).
  apply undoTimes_reaches_baseline with (rest := rest); auto.
  - exists top. split; [now rewrite <- Hstack |]. now rewrite Hsig, Hclone.
  - lia.
Qed.

Lemma structuralUtils_cloneKeepsSignature : cloneKeepsSignature structuralUtils.
Proof. intros ls. reflexivity. Qed.

Lemma undo_returns_to_baseline_witness :
  cloneKeepsSignature structuralUtils /\
  @getStateSignature structuralUtils
    (layers (undoTimes (U := structuralUtils) 2
               (fold_left (snapshotOf (U := structuralUtils))
                          [sampleState 1; sampleState 2; sampleState 3]
                          (freshSession []))))
  = @getStateSignature structuralUtils (sampleState 1).
Proof.
  split; [exact structuralUtils_cloneKeepsSignature |].
  apply (undo_returns_to_baseline structuralUtils (freshSession [])
           (sampleState 1) [sampleState 2; sampleState 3]).
  - exact structuralUtils_cloneKeepsSignature.
  - reflexivity.
  - reflexivity.
  - cbn. unfold historyLimit. lia.
Defined.

(** C6 as stated fails past the history limit: of 101 snapshots of distinct
    states the first is evicted, and 100 undo operations stop at the second
    state. *)
Lemma undo_past_history_limit :
  let states := map sampleState (seq 1 101) in
  let final :=
    undoTimes (U := structuralUtils) 100
      (fold_left (snapshotOf (U := structuralUtils)) states (freshSession [])) in
  NoDup (map (@getStateSignature structuralUtils) states) /\
  @getStateSignature structuralUtils (layers final)
  = @getStateSignature structuralUtils (sampleState 2) /\
  @getStateSignature structuralUtils (layers final)
  <> @getStateSignature structuralUtils (sampleState 1).
Proof.
  cbv zeta. split; [| split].
  - apply (bool_decide_unpack _). vm_compute. exact I.
  - vm_compute. reflexivity.
  - vm_compute. discriminate.
Qed.

End HistoryFacts.

(** ** Processed-image cache *)

Module CompositorFacts.
Import Compositor.

Local Open Scope Z_scope.

(** The score of an entry is the sum of its three terms. *)
Lemma scoreEntry_terms (F : NumberFormat) (layer : Layer.t) (key : string) cb :
  keyHasParts key = true -> keyBlendArea key = Some cb ->
  scoreEntry layer key
  = Some (blendTerm cb (blendAreaOf layer)
          + cropTerm (keyCropKey key) (cropKeyOf layer)
          + exactBonus key (getProcessedImageCacheKey layer)).
Proof.
  unfold keyHasParts, keyBlendArea, keyCropKey, scoreEntry.
  intros -> ->. unfold blendTerm, cropTerm, exactBonus. f_equal.
  destruct (cb =? blendAreaOf layer), (String.eqb (nth 2 _ _) _),
    (String.eqb key _); lia.
Qed.

(** The search keeps the first entry with the highest score above the
    score it started with. *)
Lemma best_fold_spec (F : NumberFormat) (layer : Layer.t)
    (cache : list (string * Image)) :
  forall best0 img0,
    let res := fold_left (bestStep layer) cache (best0, img0) in
    (forall e sc, In e cache -> scored layer e sc -> sc <= fst res) /\
    ((res = (best0, img0)) \/
     (exists pre key img post,
         cache = pre ++ (key, img) :: post /\
         res = (fst res, Some img) /\
         scored layer (key, img) (fst res) /\
         best0 < fst res /\
         forall e sc, In e pre -> scored layer e sc -> sc < fst res)).
Proof.
  induction cache as [|[key img] rest IH]; intros best0 img0; cbn zeta.
  - cbn. split; [intros e sc [] | now left].
  - cbn [fold_left].
    assert (Hstep :
      (bestStep layer (best0, img0) (key, img) = (best0, img0) /\
       forall sc, scored layer (key, img) sc -> sc <= best0) \/
      (exists sc, bestStep layer (best0, img0) (key, img) = (sc, Some img) /\
                  scored layer (key, img) sc /\ best0 < sc)).
    { unfold bestStep, scored. cbn [fst].
      destruct (String.prefix (Layer.id layer +:+ "_") key) eqn:Hp.
      - destruct (scoreEntry layer key) as [sc|] eqn:Hs.
        + destruct (Z.ltb_spec best0 sc).
          * right. exists sc. auto.
          * left. split; [reflexivity |]. intros sc' [_ E]. injection E as <-. lia.
        + left. split; [reflexivity |]. intros sc' [_ E]. discriminate.
      - left. split; [reflexivity |]. intros sc' [E _]. discriminate. }
    destruct Hstep as [[Hs Hle]|(sc & Hs & Hsc & Hlt)]; rewrite Hs.
    + destruct (IH best0 img0) as [Hmax Hres]. cbn zeta in Hmax, Hres. split.
      * intros e sc' [<-|Hin] Hsc'.
        -- specialize (Hle sc' Hsc').
           destruct Hres as [E|(pre & k & i & post & _ & _ & _ & Hlt & _)];
             [rewrite E; cbn; lia | lia].
        -- now apply Hmax with e.
      * destruct Hres as [E|(pre & k & i & post & Hc & Hr & Hk & Hlt & Hpre)];
          [now left | right].
        exists ((key, img) :: pre), k, i, post.
        split; [now rewrite Hc |]. split; [exact Hr |]. split; [exact Hk |].
        split; [exact Hlt |].
        intros e sc' [<-|Hin] Hsc'; [specialize (Hle sc' Hsc'); lia |].
        now apply Hpre with e.
    + destruct (IH sc (Some img)) as [Hmax Hres]. cbn zeta in Hmax, Hres.
      assert (Hge : sc <= fst (fold_left (bestStep layer) rest (sc, Some img))).
      { destruct Hres as [E|(pre & k & i & post & _ & _ & _ & Hlt' & _)];
          [rewrite E; cbn; lia | lia]. }
      split.
      * intros e sc' [<-|Hin] Hsc'.
        -- destruct Hsc as [_ E1], Hsc' as [_ E2]. cbn [fst] in *.
           rewrite E1 in E2. injection E2 as <-. exact Hge.
        -- now apply Hmax with e.
      * right. destruct Hres as [E|(pre & k & i & post & Hc & Hr & Hk & Hlt' & Hpre)].
        -- exists [], key, img, rest. rewrite E. cbn [fst app].
           split; [reflexivity |]. split; [reflexivity |]. split; [exact Hsc |].
           split; [exact Hlt |]. intros e sc' [].
        -- exists ((key, img) :: pre), k, i, post.
           split; [now rewrite Hc |]. split; [exact Hr |]. split; [exact Hk |].
           split; [lia |].
           intros e sc' [<-|Hin] Hsc'; [| now apply Hpre with e].
           destruct Hsc as [_ E1], Hsc' as [_ E2]. cbn [fst] in *.
           rewrite E1 in E2. injection E2 as <-. lia.
Qed.

Lemma scheduleProcessedImageCreation_cache (c : Comp) r layer key :
  processedImageCache (scheduleProcessedImageCreation c r layer key)
  = processedImageCache c.
Proof.
  unfold scheduleProcessedImageCreation.
  destruct (processedImageDebounceTimers c !! Layer.id layer) as [t|];
    [destruct (t =? 0)%nat |]; reflexivity.
Qed.

(** Asking for the processed image never changes the cache. *)
Lemma getProcessedImage_cache (F : NumberFormat) (c : Comp) r layer :
  processedImageCache (fst (getProcessedImage c r layer)) = processedImageCache c.
Proof.
  unfold getProcessedImage.
  destruct (negb _ && negb _); [reflexivity |].
  destruct (bool_decide (_ ∈ layersAdjustingBlendArea c)); [reflexivity |].
  destruct (bool_decide (_ ∈ layersWheelScaling c)); [reflexivity |].
  destruct (cache_get _ _); [reflexivity |].
  apply scheduleProcessedImageCreation_cache.
Qed.

(** While a layer is being scaled, the best match is drawn whenever the
    search finds one. *)
Lemma drawLayer_substitutes_best (F : NumberFormat) resizing (c : Comp) r
    (layer : Layer.t) best :
  isScaling resizing c layer = true ->
  findBestMatchingCache layer (processedImageCache c) = Some best ->
  snd (_drawLayer resizing c r layer) = DrawBestMatching best.
Proof.
  intros Hs Hbest. unfold _drawLayer.
  pose proof (getProcessedImage_cache F c r layer) as Hcache.
  destruct (getProcessedImage c r layer) as [c1 processedImage].
  cbn [fst] in Hcache. rewrite Hcache, Hbest. cbn [snd].
  unfold isScaling in Hs.
  set (resizingThis := match resizing with Some i => _ | None => false end) in *.
  destruct resizingThis, (Layer.cropMode layer),
    (bool_decide (Layer.id layer ∈ layersAdjustingBlendArea c)),
    (bool_decide (Layer.id layer ∈ layersTransformingCropBounds c)),
    (bool_decide (Layer.id layer ∈ layersTransformingScale c)),
    (bool_decide (Layer.id layer ∈ layersWheelScaling c));
    cbn in Hs |- *; try discriminate; destruct processedImage; reflexivity.
Qed.

(** X28: in the best-match search used while a layer is being scaled, the
    score of an entry of the layer whose key has three parts or more and a
    number as second part is the sum of a blend-area term (+100 on a match,
    minus the distance otherwise), a crop-key term (+200 on a match, -150
    otherwise) and a bonus of 50 when the key is the exact fingerprint.  An
    entry matching the blend area but not the crop key scores 0 or less; an
    entry matching the crop key whose blend area is off by 100 at most
    scores 100 or more.  The search returns the first entry with the
    highest score, provided that score is above -1, and that entry is the
    one drawn. *)
Theorem best_match_ranking (F : NumberFormat) (layer : Layer.t) :
  (forall key cb,
      keyHasParts key = true -> keyBlendArea key = Some cb ->
      scoreEntry layer key
      = Some (blendTerm cb (blendAreaOf layer)
              + cropTerm (keyCropKey key) (cropKeyOf layer)
              + exactBonus key (getProcessedImageCacheKey layer)))
  /\ (forall keyB keyC cb,
        keyHasParts keyB = true -> keyBlendArea keyB = Some (blendAreaOf layer) ->
        keyCropKey keyB <> cropKeyOf layer ->
        keyHasParts keyC = true -> keyBlendArea keyC = Some cb ->
        cb <> blendAreaOf layer -> Z.abs (cb - blendAreaOf layer) <= 100 ->
        keyCropKey keyC = cropKeyOf layer ->
        exists sB sC,
          scoreEntry layer keyB = Some sB /\ scoreEntry layer keyC = Some sC /\
          sB <= 0 /\ 100 <= sC)
  /\ (forall cache,
        match findBestMatchingCache layer cache with
        | Some img =>
          exists pre key post sc,
            cache = pre ++ (key, img) :: post /\
            scored layer (key, img) sc /\ -1 < sc /\
            (forall e sc', In e cache -> scored layer e sc' -> sc' <= sc) /\
            (forall e sc', In e pre -> scored layer e sc' -> sc' < sc)
        | None => forall e sc, In e cache -> scored layer e sc -> sc <= -1
        end)
  /\ (forall resizing c r best,
        isScaling resizing c layer = true ->
        findBestMatchingCache layer (processedImageCache c) = Some best ->
        snd (_drawLayer resizing c r layer) = DrawBestMatching best).
Proof.
  split; [| split; [| split]].
  - intros key cb. apply scoreEntry_terms.
  - intros keyB keyC cb HpB HbB HcB HpC HbC Hne Hdist HcC.
    rewrite (scoreEntry_terms F layer keyB _ HpB HbB).
    rewrite (scoreEntry_terms F layer keyC _ HpC HbC).
    do 2 eexists. split; [reflexivity |]. split; [reflexivity |].
    unfold blendTerm, cropTerm, exactBonus.
    rewrite Z.eqb_refl. rewrite HcC, String.eqb_refl.
    apply String.eqb_neq in HcB. rewrite HcB.
    apply Z.eqb_neq in Hne. rewrite Hne.
    destruct (String.eqb keyB _), (String.eqb keyC _); lia.
  - intros cache. unfold findBestMatchingCache.
    destruct (best_fold_spec F layer cache (-1) None) as [Hmax Hres].
    cbn zeta in Hmax, Hres.
    destruct Hres as [E|(pre & key & img & post & Hc & Hr & Hk & Hlt & Hpre)].
    + rewrite E in Hmax |- *. cbn [snd fst] in *. exact Hmax.
    + rewrite Hr. cbn [snd].
      exists pre, key, post, (fst (fold_left (bestStep layer) cache (-1, None))).
      auto.
  - intros resizing c r best. apply drawLayer_substitutes_best.
Qed.

Lemma best_match_ranking_witness :
  isScaling None (wheelScalingComp [(keyBlendOnly, 1%nat); (keyCropOnly, 2%nat)])
            blendLayer = true /\
  findBestMatchingCache (F := sampleFormat) blendLayer
    (processedImageCache
       (wheelScalingComp [(keyBlendOnly, 1%nat); (keyCropOnly, 2%nat)]))
  = Some 2%nat /\
  snd (_drawLayer (F := sampleFormat) None
         (wheelScalingComp [(keyBlendOnly, 1%nat); (keyCropOnly, 2%nat)])
         0%nat blendLayer)
  = DrawBestMatching 2%nat.
Proof.
  assert (H1 : isScaling None
                 (wheelScalingComp [(keyBlendOnly, 1%nat); (keyCropOnly, 2%nat)])
                 blendLayer = true) by reflexivity.
  assert (H2 : findBestMatchingCache (F := sampleFormat) blendLayer
                 (processedImageCache
                    (wheelScalingComp [(keyBlendOnly, 1%nat); (keyCropOnly, 2%nat)]))
               = Some 2%nat) by reflexivity.
  split; [exact H1 |]. split; [exact H2 |].
  exact (proj2 (proj2 (proj2 (best_match_ranking sampleFormat blendLayer)))
               None _ 0%nat 2%nat H1 H2).
Defined.

(** C9 (the code weighs the crop key above the blend area): a layer with
    blend area 40 and no crop is being wheel-scaled.  The cache entry that
    matches its blend area only scores 100 - 150 = -50, the entry that
    matches its crop key only scores -30 + 200 = 170 and is the one
    substituted; and the entry matching the blend area, when it is the only
    one in the cache, is not substituted at all, its score not being above
    the -1 the search starts from. *)
Theorem crop_match_outranks_blend_match :
  isScaling None (wheelScalingComp [(keyBlendOnly, 1%nat); (keyCropOnly, 2%nat)])
            blendLayer = true /\
  keyBlendArea keyBlendOnly = Some (blendAreaOf blendLayer) /\
  keyCropKey keyBlendOnly <> cropKeyOf (F := sampleFormat) blendLayer /\
  keyBlendArea keyCropOnly <> Some (blendAreaOf blendLayer) /\
  keyCropKey keyCropOnly = cropKeyOf (F := sampleFormat) blendLayer /\
  scoreEntry (F := sampleFormat) blendLayer keyBlendOnly = Some (-50) /\
  scoreEntry (F := sampleFormat) blendLayer keyCropOnly = Some 170 /\
  findBestMatchingCache (F := sampleFormat) blendLayer
    [(keyBlendOnly, 1%nat); (keyCropOnly, 2%nat)] = Some 2%nat /\
  snd (_drawLayer (F := sampleFormat) None
         (wheelScalingComp [(keyBlendOnly, 1%nat); (keyCropOnly, 2%nat)])
         0%nat blendLayer)
  = DrawBestMatching 2%nat /\
  findBestMatchingCache (F := sampleFormat) blendLayer [(keyBlendOnly, 1%nat)]
  = None /\
  snd (_drawLayer (F := sampleFormat) None
         (wheelScalingComp [(keyBlendOnly, 1%nat)]) 0%nat blendLayer)
  = DrawLayerImage.
Proof. repeat split; try reflexivity; vm_compute; discriminate. Qed.

(** *** Timers: what rendering and waiting do to them *)

Local Open Scope nat_scope.

Lemma filter_all {A} (f : A -> bool) (l : list A) :
  (forall x, In x l -> f x = true) -> List.filter f l = l.
Proof.
  induction l as [|a t IH]; intros H; cbn; [reflexivity |].
  rewrite (H a (or_introl eq_refl)). f_equal. apply IH. intros x Hx. apply H. now right.
Qed.

Lemma filter_none {A} (f : A -> bool) (l : list A) :
  (forall x, In x l -> f x = false) -> List.filter f l = [].
Proof.
  induction l as [|a t IH]; intros H; cbn; [reflexivity |].
  rewrite (H a (or_introl eq_refl)). apply IH. intros x Hx. apply H. now right.
Qed.

Lemma filter_comm {A} (f g : A -> bool) (l : list A) :
  List.filter f (List.filter g l) = List.filter g (List.filter f l).
Proof.
  induction l as [|a t IH]; cbn; [reflexivity |].
  destruct (f a) eqn:Ef, (g a) eqn:Eg; cbn; rewrite ?Ef, ?Eg, IH; reflexivity.
Qed.

Lemma NoDup_map_filter {A B} (g : A -> B) (f : A -> bool) (l : list A) :
  List.NoDup (map g l) -> List.NoDup (map g (List.filter f l)).
Proof.
  induction l as [|a t IH]; cbn; intros H; [exact H |].
  apply List.NoDup_cons_iff in H as [Ha Ht].
  destruct (f a); cbn; [| now apply IH].
  apply List.NoDup_cons; [| now apply IH].
  intros Hin. apply Ha. apply in_map_iff in Hin as (x & E & Hx).
  apply in_map_iff. exists x. split; [exact E |].
  now apply filter_In in Hx as [Hx _].
Qed.

Lemma TimersInv_pending_in T oe c e :
  TimersInv T oe c -> In e oe -> In e (timers c) /\ isDebounce (callback e) = false.
Proof.
  intros (_ & HA & _) He. rewrite <- HA in He.
  apply filter_In in He as [Hin Hd]. split; [exact Hin |].
  now apply negb_true_iff in Hd.
Qed.

(** [clearTimeout] of an identifier that is not one of [oe]. *)
Lemma clearTimeout_inv T oe c v :
  TimersInv T oe c -> (forall e, In e oe -> timer_id e <> v) ->
  TimersInv T oe (clearTimeout c v).
Proof.
  intros (HE & HA & HB & HC & HF & HD) Hv.
  unfold TimersInv, clearTimeout. cbn.
  split; [exact HE |]. split; [| split; [| split; [| split]]].
  - unfold nonDebounce in *. rewrite filter_comm, HA.
    apply filter_all. intros e He. apply negb_true_iff, Nat.eqb_neq. now apply Hv.
  - intros t Ht. apply filter_In in Ht as [Ht _]. now apply HB.
  - intros t Ht. apply filter_In in Ht as [Ht _]. now apply HC.
  - now apply NoDup_map_filter.
  - exact HD.
Qed.

(** Setting a debounced creation. *)
Lemma setTimeout_debounce_inv T oe c r cacheKey key :
  TimersInv T oe c ->
  let c' :=
    fst (setTimeout c (CbDebouncedCreate r cacheKey) PROCESSED_IMAGE_DEBOUNCE_DELAY) in
  TimersInv T oe
    (with_debounceTimers c'
       (<[key := nextTimerId c]> (processedImageDebounceTimers c'))).
Proof.
  intros Hinv. pose proof Hinv as (HE & HA & HB & HC & HF & HD).
  unfold TimersInv, setTimeout. cbn.
  split; [exact HE |]. split; [| split; [| split; [| split]]].
  - unfold nonDebounce in *. rewrite List.filter_app, HA. cbn. apply app_nil_r.
  - intros t Ht Hd. apply in_app_or in Ht as [Ht|[<-|[]]]; [now apply HB |].
    cbn. exact HE.
  - intros t Ht. apply in_app_or in Ht as [Ht|[<-|[]]]; [| cbn; lia].
    specialize (HC t Ht). lia.
  - rewrite map_app. cbn.
    apply base.NoDup_ListNoDup. apply NoDup_app. split; [| split].
    + now apply base.NoDup_ListNoDup.
    + intros x Hx Hx'. apply list_elem_of_singleton in Hx'. subst x.
      apply list_elem_of_In, in_map_iff in Hx as (t & E & Ht).
      specialize (HC t Ht). lia.
    + apply NoDup_singleton.
  - intros k v Hk. destruct (decide (key = k)) as [->|Hne].
    + rewrite lookup_insert_eq in Hk. injection Hk as <-. split; [lia |].
      intros e He. destruct (TimersInv_pending_in T oe c e Hinv He) as [Hin _].
      specialize (HC e Hin). lia.
    + rewrite lookup_insert_ne in Hk by exact Hne.
      destruct (HD k v Hk) as [Hlt Hoe]. split; [lia | exact Hoe].
Qed.

(** [scheduleProcessedImageCreation] keeps the timers in order and touches
    neither the clock nor the record of creations. *)
Lemma scheduleProcessedImageCreation_inv T oe c r layer key :
  TimersInv T oe c ->
  let c' := scheduleProcessedImageCreation c r layer key in
  TimersInv T oe c' /\ now c' = now c /\ creationLog c' = creationLog c.
Proof.
  intros Hinv. pose proof Hinv as (HE & HA & HB & HC & HF & HD).
  unfold scheduleProcessedImageCreation.
  set (c1 := match processedImageDebounceTimers c !! Layer.id layer with
             | Some existingTimer =>
               if existingTimer =? 0 then c else clearTimeout c existingTimer
             | None => c
             end).
  assert (H1 : TimersInv T oe c1 /\ now c1 = now c /\ creationLog c1 = creationLog c
               /\ nextTimerId c1 = nextTimerId c
               /\ processedImageDebounceTimers c1 = processedImageDebounceTimers c).
  { subst c1. destruct (processedImageDebounceTimers c !! Layer.id layer) as [v|] eqn:Ev;
      [| now auto].
    destruct (v =? 0); [now auto |].
    split; [| now auto].
    apply clearTimeout_inv; [exact Hinv |]. now apply (HD _ _ Ev). }
  destruct H1 as (Hinv1 & Hn1 & Hl1 & Hid1 & Hm1).
  pose proof (setTimeout_debounce_inv T oe c1 r key (Layer.id layer) Hinv1) as H2.
  cbn zeta in H2 |- *. unfold setTimeout in *. cbn [fst snd] in *.
  split; [| split].
  - exact H2.
  - cbn. exact Hn1.
  - cbn. exact Hl1.
Qed.

Lemma getProcessedImage_inv {F : NumberFormat} T oe c r layer :
  TimersInv T oe c ->
  let c' := fst (getProcessedImage c r layer) in
  TimersInv T oe c' /\ now c' = now c /\ creationLog c' = creationLog c.
Proof.
  intros Hinv. unfold getProcessedImage.
  repeat match goal with
         | |- context [if ?b then _ else _] => destruct b; cbn [fst]
         | |- context [match cache_get ?m ?k with _ => _ end] =>
           destruct (cache_get m k); cbn [fst]
         end; auto.
  now apply scheduleProcessedImageCreation_inv.
Qed.

Lemma drawLayer_inv {F : NumberFormat} T oe resizing c r layer :
  TimersInv T oe c ->
  let c' := fst (_drawLayer resizing c r layer) in
  TimersInv T oe c' /\ now c' = now c /\ creationLog c' = creationLog c.
Proof.
  intros Hinv. unfold _drawLayer.
  pose proof (getProcessedImage_inv T oe c r layer Hinv) as H.
  destruct (getProcessedImage c r layer) as [c1 p]. exact H.
Qed.

Lemma drawLayers_inv {F : NumberFormat} T oe resizing h ls c :
  TimersInv T oe c ->
  let c' := fold_left (drawStep resizing h) ls c in
  TimersInv T oe c' /\ now c' = now c /\ creationLog c' = creationLog c.
Proof.
  revert c. induction ls as [|r ls IH]; intros c Hinv; cbn; [now auto |].
  assert (H : TimersInv T oe (drawStep resizing h c r)
              /\ now (drawStep resizing h c r) = now c
              /\ creationLog (drawStep resizing h c r) = creationLog c).
  { unfold drawStep. destruct (h !! r) as [layer|]; [| now auto].
    destruct (Layer.visible layer); [| now auto].
    now apply drawLayer_inv. }
  destruct H as (H1 & H2 & H3).
  destruct (IH _ H1) as (I1 & I2 & I3).
  split; [exact I1 |]. split; congruence.
Qed.

(** A render keeps the timers in order, and touches neither the clock, nor
    the record of creations, nor anything outside the compositor. *)
Lemma render_inv {F : NumberFormat} T oe s :
  TimersInv T oe (comp s) ->
  TimersInv T oe (comp (render s))
  /\ now (comp (render s)) = now (comp s)
  /\ creationLog (comp (render s)) = creationLog (comp s).
Proof.
  intros Hinv. unfold render, _drawLayers. cbn [comp with_comp].
  now apply drawLayers_inv.
Qed.

Lemma nonDebounce_nil ts t :
  nonDebounce ts = [] -> In t ts -> isDebounce (callback t) = true.
Proof.
  intros H Ht. destruct (isDebounce (callback t)) eqn:E; [reflexivity |].
  assert (Hin : In t (nonDebounce ts)).
  { apply filter_In. split; [exact Ht |]. now rewrite E. }
  rewrite H in Hin. destruct Hin.
Qed.

Lemma TimersInv_advance T oe c n :
  TimersInv T oe c -> now c <= n -> TimersInv T oe (with_now c n).
Proof.
  intros (HE & HA & HB & HC & HF & HD) Hn. unfold TimersInv. cbn.
  split; [lia |]. auto.
Qed.

Lemma TimersInv_weaken T T' oe c :
  TimersInv T oe c -> T' <= T -> TimersInv T' oe c.
Proof.
  intros (HE & HA & HB & HC & HF & HD) Hn. unfold TimersInv.
  split; [lia |]. split; [exact HA |]. split; [| now auto].
  intros t Ht Hd. specialize (HB t Ht Hd). lia.
Qed.

(** While no timer other than debounced creations is pending and the clock
    is before [T], nothing is due. *)
Lemma runDue_quiet {F : NumberFormat} T s :
  TimersInv T [] (comp s) -> now (comp s) < T -> runDue s = s.
Proof.
  intros (HE & HA & HB & HC & HF & HD) Hnow. unfold runDue, dueTimers.
  rewrite filter_none; [reflexivity |].
  intros t Ht. apply Nat.leb_gt.
  specialize (HB t Ht (nonDebounce_nil _ _ HA Ht)). lia.
Qed.

Lemma wait_quiet {F : NumberFormat} T d s :
  TimersInv T [] (comp s) -> now (comp s) + d < T ->
  wait d s = with_comp s (with_now (comp s) (now (comp s) + d)).
Proof.
  revert s. induction d as [|d IH]; intros s Hinv Hnow; cbn [wait].
  - rewrite (runDue_quiet T) by (auto; lia).
    destruct s as [h ls v ia tr c]. destruct c. cbn. unfold with_comp, with_now. cbn.
    now rewrite Nat.add_0_r.
  - rewrite (runDue_quiet T) by (auto; lia).
    rewrite IH.
    + destruct s as [h ls v ia tr c]. destruct c. cbn. unfold with_comp, with_now. cbn.
      do 2 f_equal. lia.
    + unfold tick. cbn [comp with_comp]. apply TimersInv_advance; [exact Hinv | lia].
    + unfold tick. cbn. lia.
Qed.

Ltac unchanged_session :=
  match goal with
  | H : TimersInv _ _ (comp ?s) |- _ =>
    split; [exact H |]; repeat (split; [reflexivity |]); now destruct s
  end.

(** [TimersInv] reads the clock, the timers and the timer identifiers kept
    by layer only, and allows identifiers to be forgotten. *)
Lemma TimersInv_ext T oe c c' :
  TimersInv T oe c ->
  now c' = now c -> timers c' = timers c -> nextTimerId c' = nextTimerId c ->
  (forall k v, processedImageDebounceTimers c' !! k = Some v ->
               processedImageDebounceTimers c !! k = Some v) ->
  TimersInv T oe c'.
Proof.
  intros (HE & HA & HB & HC & HF & HD) Hn Ht Hi Hm. unfold TimersInv.
  rewrite Hn, Ht, Hi. repeat split; auto; now apply (HD k v (Hm k v H)).
Qed.

Lemma fromTransformEnd_app l1 l2 :
  fromTransformEnd (l1 ++ l2) = fromTransformEnd l1 ++ fromTransformEnd l2.
Proof. apply List.filter_app. Qed.

(** The debounced creation: recorded as such, and the timers stay in
    order. *)
Lemma fire_debounce_inv {F : NumberFormat} T oe s r key :
  TimersInv T oe (comp s) ->
  let s' := fire s (CbDebouncedCreate r key) in
  TimersInv T oe (comp s') /\ now (comp s') = now (comp s)
  /\ fromTransformEnd (creationLog (comp s')) = fromTransformEnd (creationLog (comp s))
  /\ s' = with_comp s (comp s').
Proof.
  intros Hinv. cbn [fire]. destruct (heap s !! r) as [layer|].
  2:{ unchanged_session. }
  unfold createProcessedImage.
  match goal with |- context [render ?x] => set (s0 := x) end.
  assert (H0 : TimersInv T oe (comp s0)).
  { apply (TimersInv_ext T oe (comp s)); auto. }
  destruct (render_inv T oe s0 H0) as (H1 & H2 & H3).
  cbn [comp with_comp]. split; [| split; [| split]].
  - apply (TimersInv_ext T oe (comp (render s0))); auto.
    intros k v Hk. cbn in Hk. apply lookup_delete_Some in Hk as [_ Hk]. exact Hk.
  - change (now (comp (render s0)) = now (comp s)). rewrite H2. reflexivity.
  - change (fromTransformEnd (creationLog (comp (render s0)))
            = fromTransformEnd (creationLog (comp s))).
    rewrite H3. subst s0. cbn [comp with_comp with_cache creationLog].
    rewrite fromTransformEnd_app. cbn. apply app_nil_r.
  - reflexivity.
Qed.

(** The creation queued by the end of a transform: recorded as such, at the
    time it runs. *)
Lemma fire_execute_inv {F : NumberFormat} T oe s r layer layerId key tt :
  TimersInv T oe (comp s) -> heap s !! r = Some layer ->
  let s' := fire s (CbExecuteTransform r layerId key tt None) in
  TimersInv T oe (comp s') /\ now (comp s') = now (comp s)
  /\ creationLog (comp s') =
     creationLog (comp s)
       ++ [mkCreation (now (comp s)) (Layer.id layer) FromTransformEnd]
  /\ s' = with_comp s (comp s').
Proof.
  intros Hinv Hr. cbn [fire]. rewrite Hr.
  unfold createProcessedImage.
  match goal with |- context [render ?x] => set (s0 := x) end.
  assert (H0 : TimersInv T oe (comp s0)).
  { apply (TimersInv_ext T oe (comp s)); auto; destruct tt; reflexivity. }
  destruct (render_inv T oe s0 H0) as (H1 & H2 & H3).
  split; [exact H1 |]. split; [| split].
  - rewrite H2. destruct tt; reflexivity.
  - rewrite H3. destruct tt; reflexivity.
  - reflexivity.
Qed.

Lemma fireIfPending_debounce {F : NumberFormat} T s tid :
  TimersInv T [] (comp s) ->
  let s' := fireIfPending s tid in
  TimersInv T [] (comp s') /\ now (comp s') = now (comp s)
  /\ fromTransformEnd (creationLog (comp s')) = fromTransformEnd (creationLog (comp s))
  /\ s' = with_comp s (comp s').
Proof.
  intros Hinv. unfold fireIfPending.
  destruct (find _ (timers (comp s))) as [t|] eqn:Ef.
  2:{ unchanged_session. }
  apply find_some in Ef as [Ht _].
  pose proof Hinv as (_ & HA & _).
  pose proof (nonDebounce_nil _ _ HA Ht) as Hd.
  destruct (callback t) as [r key|]; [| discriminate].
  set (s0 := with_comp s (clearTimeout (comp s) tid)).
  assert (H0 : TimersInv T [] (comp s0)).
  { apply clearTimeout_inv; [exact Hinv |]. intros e []. }
  destruct (fire_debounce_inv T [] s0 r key H0) as (H1 & H2 & H3 & H4).
  split; [exact H1 |]. split; [exact H2 |]. split; [exact H3 |].
  rewrite H4 at 1. reflexivity.
Qed.

Lemma fold_fireIfPending_debounce {F : NumberFormat} T ids s :
  TimersInv T [] (comp s) ->
  let s' := fold_left fireIfPending ids s in
  TimersInv T [] (comp s') /\ now (comp s') = now (comp s)
  /\ fromTransformEnd (creationLog (comp s')) = fromTransformEnd (creationLog (comp s))
  /\ s' = with_comp s (comp s').
Proof.
  revert s. induction ids as [|tid ids IH]; intros s Hinv; cbn.
  { unchanged_session. }
  destruct (fireIfPending_debounce T s tid Hinv) as (H1 & H2 & H3 & H4).
  destruct (IH _ H1) as (I1 & I2 & I3 & I4).
  split; [exact I1 |]. split; [congruence |]. split; [congruence |].
  rewrite I4 at 1. rewrite H4 at 1. reflexivity.
Qed.

(** With debounced creations only pending, however long the wait, no
    creation is recorded as coming from the end of a transform. *)
Lemma wait_debounce {F : NumberFormat} T d s :
  TimersInv T [] (comp s) ->
  TimersInv T [] (comp (wait d s))
  /\ fromTransformEnd (creationLog (comp (wait d s)))
     = fromTransformEnd (creationLog (comp s)).
Proof.
  revert s. induction d as [|d IH]; intros s Hinv; cbn [wait].
  - destruct (fold_fireIfPending_debounce T (dueTimers (comp s)) s Hinv)
      as (H1 & _ & H3 & _). now split.
  - destruct (fold_fireIfPending_debounce T (dueTimers (comp s)) s Hinv)
      as (H1 & _ & H3 & _). fold (runDue s) in H1, H3.
    destruct (IH (tick (runDue s))) as (I1 & I2).
    { unfold tick. cbn [comp with_comp]. apply TimersInv_advance; [exact H1 | lia]. }
    split; [exact I1 |]. rewrite I2. exact H3.
Qed.

Lemma filter_due_nonDebounce n ts :
  (forall t, In t ts -> isDebounce (callback t) = true -> n < due t) ->
  List.filter (fun t => due t <=? n) ts
  = List.filter (fun t => due t <=? n) (nonDebounce ts).
Proof.
  induction ts as [|a ts IH]; intros H; cbn; [reflexivity |].
  assert (IH' := IH (fun t Ht => H t (or_intror Ht))).
  destruct (isDebounce (callback a)) eqn:E; cbn.
  - assert (Ha : (due a <=? n) = false).
    { apply Nat.leb_gt. apply H; [now left | exact E]. }
    rewrite Ha. exact IH'.
  - rewrite IH'. reflexivity.
Qed.

Lemma find_by_id e ts :
  List.NoDup (map timer_id ts) -> In e ts ->
  find (fun t => timer_id t =? timer_id e) ts = Some e.
Proof.
  induction ts as [|a ts IH]; cbn; intros Hnd Hin; [destruct Hin |].
  apply List.NoDup_cons_iff in Hnd as [Ha Hts].
  destruct Hin as [->|Hin]; [now rewrite Nat.eqb_refl |].
  destruct (timer_id a =? timer_id e) eqn:E; [| now apply IH].
  apply Nat.eqb_eq in E. exfalso. apply Ha. rewrite E. now apply in_map.
Qed.

(** Clearing the one pending timer that is not a debounced creation. *)
Lemma clearTimeout_pending T e c :
  TimersInv T [e] c -> TimersInv T [] (clearTimeout c (timer_id e)).
Proof.
  intros (HE & HA & HB & HC & HF & HD).
  unfold TimersInv, clearTimeout. cbn.
  split; [exact HE |]. split; [| split; [| split; [| split]]].
  - unfold nonDebounce in *. rewrite filter_comm, HA. cbn.
    now rewrite Nat.eqb_refl.
  - intros t Ht. apply filter_In in Ht as [Ht _]. now apply HB.
  - intros t Ht. apply filter_In in Ht as [Ht _]. now apply HC.
  - now apply NoDup_map_filter.
  - intros k v Hk. split; [now apply (HD k v Hk) | intros e' []].
Qed.

(** When the creation queued by a drag end is due, and the debounced
    creations are not, the instant runs that creation and nothing else. *)
Lemma runDue_execute {F : NumberFormat} T s e r layer layerId key tt :
  TimersInv T [e] (comp s) -> due e <= now (comp s) -> now (comp s) < T ->
  callback e = CbExecuteTransform r layerId key tt None ->
  heap s !! r = Some layer ->
  let s' := runDue s in
  TimersInv T [] (comp s') /\ now (comp s') = now (comp s)
  /\ creationLog (comp s') =
     creationLog (comp s)
       ++ [mkCreation (now (comp s)) (Layer.id layer) FromTransformEnd]
  /\ s' = with_comp s (comp s').
Proof.
  intros Hinv Hdue Hnow Hcb Hr. pose proof Hinv as (HE & HA & HB & HC & HF & HD).
  destruct (TimersInv_pending_in T [e] (comp s) e Hinv (or_introl eq_refl)) as [Hin _].
  unfold runDue, dueTimers. rewrite filter_due_nonDebounce, HA.
  2:{ intros t Ht Hd. specialize (HB t Ht Hd). lia. }
  cbn [List.filter]. apply Nat.leb_le in Hdue. rewrite Hdue.
  cbn [map fold_left]. unfold fireIfPending.
  rewrite (find_by_id e) by assumption. rewrite Hcb.
  set (s0 := with_comp s (clearTimeout (comp s) (timer_id e))).
  assert (H0 : TimersInv T [] (comp s0)) by (now apply clearTimeout_pending).
  destruct (fire_execute_inv T [] s0 r layer layerId key tt H0 Hr) as (H1 & H2 & H3 & H4).
  split; [exact H1 |]. split; [exact H2 |]. split; [exact H3 |].
  rewrite H4 at 1. reflexivity.
Qed.

Lemma wait_first {F : NumberFormat} d s :
  wait d s = match d with O => runDue s | S k => wait k (tick (runDue s)) end.
Proof. destruct d; reflexivity. Qed.

(** Waiting after a drag end, within the quiet period: the queued creation
    runs at once, and nothing else does. *)
Lemma wait_execute_quiet {F : NumberFormat} T d s e r layer layerId key tt :
  TimersInv T [e] (comp s) -> due e <= now (comp s) -> now (comp s) + d < T ->
  callback e = CbExecuteTransform r layerId key tt None ->
  heap s !! r = Some layer ->
  let s' := wait d s in
  TimersInv T [] (comp s') /\ now (comp s') = now (comp s) + d
  /\ creationLog (comp s') =
     creationLog (comp s)
       ++ [mkCreation (now (comp s)) (Layer.id layer) FromTransformEnd]
  /\ s' = with_comp s (comp s').
Proof.
  intros Hinv Hdue Hnow Hcb Hr.
  destruct (runDue_execute T s e r layer layerId key tt Hinv Hdue ltac:(lia) Hcb Hr)
    as (H1 & H2 & H3 & H4).
  cbv zeta. rewrite wait_first. destruct d as [|k].
  - split; [exact H1 |]. split; [lia |]. split; [exact H3 | exact H4].
  - set (s1 := runDue s) in *.
    assert (Ht : TimersInv T [] (comp (tick s1))).
    { unfold tick. cbn [comp with_comp]. apply TimersInv_advance; [exact H1 | lia]. }
    rewrite (wait_quiet T k (tick s1) Ht) by (unfold tick; cbn; lia).
    cbn [comp with_comp tick]. split; [| split; [| split]].
    + apply TimersInv_advance; [exact Ht | unfold tick; cbn; lia].
    + unfold tick. cbn. lia.
    + unfold tick. cbn. exact H3.
    + rewrite H4 at 1. reflexivity.
Qed.

(** Waiting after a drag end, however long: exactly one creation is
    recorded as coming from the end of a transform. *)
Lemma wait_execute_tail {F : NumberFormat} T d s e r layer layerId key tt :
  TimersInv T [e] (comp s) -> due e <= now (comp s) -> now (comp s) < T ->
  callback e = CbExecuteTransform r layerId key tt None ->
  heap s !! r = Some layer ->
  fromTransformEnd (creationLog (comp (wait d s))) =
  fromTransformEnd (creationLog (comp s))
    ++ [mkCreation (now (comp s)) (Layer.id layer) FromTransformEnd].
Proof.
  intros Hinv Hdue Hnow Hcb Hr.
  destruct (runDue_execute T s e r layer layerId key tt Hinv Hdue Hnow Hcb Hr)
    as (H1 & H2 & H3 & H4).
  assert (Hlog : fromTransformEnd (creationLog (comp (runDue s))) =
                 fromTransformEnd (creationLog (comp s))
                   ++ [mkCreation (now (comp s)) (Layer.id layer) FromTransformEnd]).
  { rewrite H3, fromTransformEnd_app. reflexivity. }
  rewrite wait_first. destruct d as [|k]; [exact Hlog |].
  destruct (wait_debounce T k (tick (runDue s))) as (_ & I2).
  { unfold tick. cbn [comp with_comp]. apply TimersInv_advance; [exact H1 | lia]. }
  rewrite I2. exact Hlog.
Qed.

(** *** A drag of a crop handle, event by event *)

Lemma resizeTransformFrame_fields layer o sx sy lx ly cos sin shift :
  let l' := resizeTransformFrame layer o sx sy lx ly cos sin shift in
  Layer.id l' = Layer.id layer /\ Layer.cropMode l' = Layer.cropMode layer
  /\ Layer.blendArea l' = Layer.blendArea layer.
Proof.
  unfold resizeTransformFrame.
  match goal with |- context [let '(_, _) := ?x in _] => destruct x end.
  cbn. auto.
Qed.

(** [resizeLayerFromHandle] changes the frame or the crop bounds of the
    layer, and nothing else of it. *)
Lemma resizeLayerFromHandle_layer {M : MathEnv} vp ia p shift layerId l :
  transformingLayer ia = Some l -> cropBlendLayer layerId l ->
  let ia' := resizeLayerFromHandle vp ia p shift in
  mode ia' = mode ia /\
  exists l', transformingLayer ia' = Some l' /\ cropBlendLayer layerId l'.
Proof.
  intros Hl Hc. unfold resizeLayerFromHandle. rewrite Hl.
  destruct (transformOrigin ia) as [o|]; [| split; [reflexivity | now exists l]].
  cbn [mode transformingLayer]. split; [reflexivity |].
  eexists. split; [reflexivity |].
  destruct Hc as (Hid & Hcm & Hba).
  match goal with
  | |- context [resizeTransformFrame ?a ?b ?c ?d ?e ?f ?g ?h ?i] =>
    pose proof (resizeTransformFrame_fields a b c d e f g h i) as (F1 & F2 & F3);
    set (tf := resizeTransformFrame a b c d e f g h i) in *
  end.
  assert (Htf : cropBlendLayer layerId tf).
  { unfold cropBlendLayer. rewrite F1, F2, F3. auto. }
  destruct (o_cropBounds o) as [ocb|]; [| exact Htf].
  destruct (Layer.cropMode l && JS.truthy (o_originalWidth o)
            && JS.truthy (o_originalHeight o)); [| exact Htf].
  unfold cropBlendLayer. cbn. auto.
Qed.

Lemma mouseDown_dragging {M : MathEnv} {F : NumberFormat} T layerId s r h p :
  atRest layerId r s -> TimersInv T [] (comp s) ->
  let s' := handleMouseDownOnHandle s r h p in
  dragging layerId r s' /\ TimersInv T [] (comp s')
  /\ now (comp s') = now (comp s) /\ creationLog (comp s') = creationLog (comp s).
Proof.
  intros (l & Hl & Hc) Hinv. unfold handleMouseDownOnHandle. rewrite Hl.
  match goal with |- context [render ?x] => set (s0 := x) end.
  destruct (render_inv T [] s0 Hinv) as (H1 & H2 & H3).
  split; [| now auto].
  unfold dragging. split; [reflexivity |]. split; [reflexivity |].
  exists l. split; [reflexivity |]. split; [exact Hl | exact Hc].
Qed.

Lemma mouseMove_dragging {M : MathEnv} {F : NumberFormat} T layerId s r p shift :
  dragging layerId r s -> TimersInv T [] (comp s) ->
  let s' := handleMouseMove s p shift in
  dragging layerId r s' /\ TimersInv T [] (comp s')
  /\ now (comp s') = now (comp s) /\ creationLog (comp s') = creationLog (comp s).
Proof.
  intros Hdrag Hinv. pose proof Hdrag as (Hm & Htr & l & Hl & Hh & Hc).
  unfold handleMouseMove. rewrite Hm, Hl.
  destruct (transformOrigin (interaction s)) as [o|] eqn:Eo; [| now auto].
  destruct (resizeLayerFromHandle_layer (viewport s) (interaction s) p shift layerId l Hl Hc)
    as (Hm' & l' & Hl' & Hc').
  rewrite Htr, Hl'.
  match goal with |- context [render ?x] => set (s0 := x) end.
  destruct (render_inv T [] s0 Hinv) as (H1 & H2 & H3).
  split; [| now auto].
  unfold dragging. split; [| split; [reflexivity |]].
  - change (mode (resizeLayerFromHandle (viewport s) (interaction s) p shift) = M_resizing).
    now rewrite Hm'.
  - exists l'. split; [exact Hl' |]. split; [apply lookup_insert_eq | exact Hc'].
Qed.

(** Setting a timer that is not a debounced creation. *)
Lemma setTimeout_pending_inv T c cb delay :
  TimersInv T [] c -> isDebounce cb = false ->
  TimersInv T [mkTimer (nextTimerId c) (now c + delay) cb] (fst (setTimeout c cb delay)).
Proof.
  intros (HE & HA & HB & HC & HF & HD) Hcb.
  unfold TimersInv, setTimeout. cbn.
  split; [exact HE |]. split; [| split; [| split; [| split]]].
  - unfold nonDebounce in *. rewrite List.filter_app, HA. cbn. now rewrite Hcb.
  - intros t Ht Hd. apply in_app_or in Ht as [Ht|[<-|[]]]; [now apply HB |].
    cbn in Hd. congruence.
  - intros t Ht. apply in_app_or in Ht as [Ht|[<-|[]]]; [| cbn; lia].
    specialize (HC t Ht). lia.
  - rewrite map_app. cbn.
    apply base.NoDup_ListNoDup. apply NoDup_app. split; [| split].
    + now apply base.NoDup_ListNoDup.
    + intros x Hx Hx'. apply list_elem_of_singleton in Hx'. subst x.
      apply list_elem_of_In, in_map_iff in Hx as (t & E & Ht).
      specialize (HC t Ht). lia.
    + apply NoDup_singleton.
  - intros k v Hk. destruct (HD k v Hk) as [Hlt _]. split; [lia |].
    intros e [<-|[]]. cbn. lia.
Qed.

(** The release of the handle queues one creation, due at once, and runs
    none. *)
Lemma mouseUp_dragging {F : NumberFormat} T layerId s r :
  dragging layerId r s -> TimersInv T [] (comp s) ->
  let s' := handleMouseUp s in
  exists e key,
    TimersInv T [e] (comp s') /\ due e <= now (comp s')
    /\ callback e = CbExecuteTransform r layerId key T_crop None
    /\ atRest layerId r s'
    /\ now (comp s') = now (comp s) /\ creationLog (comp s') = creationLog (comp s).
Proof.
  intros Hdrag Hinv. pose proof Hdrag as (Hm & Htr & l & Hl & Hh & Hc).
  pose proof Hc as (Hid & Hcm & Hba).
  unfold handleMouseUp. rewrite Hm, Htr, Hl, Hcm.
  unfold handleCropBoundsTransformEnd, handleTransformEnd, blendAreaOf.
  rewrite Hcm, Hba. cbn [negb orb Store.or_default Z.eqb Nat.ltb Nat.leb].
  set (c0 := with_transformingSet (comp s) T_crop _).
  assert (H0 : TimersInv T [] c0) by (apply (TimersInv_ext T [] (comp s)); auto).
  match goal with |- context [setTimeout c0 ?cb 0] => set (cb0 := cb) end.
  pose proof (setTimeout_pending_inv T c0 cb0 0 H0 eq_refl) as H1.
  set (e := mkTimer (nextTimerId c0) (now c0 + 0) cb0) in *.
  set (s1 := with_comp s (fst (setTimeout c0 cb0 0))).
  destruct (render_inv T [e] s1 H1) as (R1 & R2 & R3).
  match goal with |- context [render (mkSession ?a ?b ?c ?d ?f ?g)] =>
    set (s2 := mkSession a b c d f g) end.
  destruct (render_inv T [e] s2 R1) as (Q1 & Q2 & Q3).
  exists e, (getProcessedImageCacheKey l).
  split; [exact Q1 |]. split; [| split; [| split; [| split]]].
  - rewrite Q2. change (now (comp s2)) with (now (comp (render s1))).
    rewrite R2. cbn. lia.
  - subst e cb0. cbn. now rewrite Hid.
  - exists l. split; [exact Hh | exact Hc].
  - rewrite Q2. change (now (comp s2)) with (now (comp (render s1))).
    rewrite R2. reflexivity.
  - rewrite Q3. change (creationLog (comp s2)) with (creationLog (comp (render s1))).
    rewrite R3. reflexivity.
Qed.

Lemma run_app {M : MathEnv} {F : NumberFormat} s es1 es2 :
  run s (es1 ++ es2) = run (run s es1) es2.
Proof. apply fold_left_app. Qed.

Lemma wait_quiet_dragging {F : NumberFormat} T layerId r d s :
  dragging layerId r s -> TimersInv T [] (comp s) -> now (comp s) + d < T ->
  dragging layerId r (wait d s) /\ TimersInv T [] (comp (wait d s))
  /\ now (comp (wait d s)) = now (comp s) + d
  /\ creationLog (comp (wait d s)) = creationLog (comp s).
Proof.
  intros Hdrag Hinv Hnow. rewrite (wait_quiet T d s Hinv Hnow).
  split; [exact Hdrag |]. split; [| split; reflexivity].
  cbn [comp with_comp]. apply TimersInv_advance; [exact Hinv | lia].
Qed.

(** The moves of a drag run no creation. *)
Lemma moves_dragging {M : MathEnv} {F : NumberFormat} T layerId r hold moves s :
  dragging layerId r s -> TimersInv T [] (comp s) ->
  now (comp s) + dragDuration moves hold < T ->
  let s' := run s (flat_map (fun m => [EvWait (fst m); EvMouseMove (snd m) false]) moves) in
  dragging layerId r s' /\ TimersInv T [] (comp s')
  /\ now (comp s') + hold = now (comp s) + dragDuration moves hold
  /\ creationLog (comp s') = creationLog (comp s).
Proof.
  revert s. induction moves as [|[d p] moves IH]; intros s Hdrag Hinv Hnow.
  { cbn. auto. }
  cbn [flat_map fst snd app run fold_left step]. cbn [dragDuration fold_right fst] in Hnow |- *.
  fold (dragDuration moves hold) in Hnow |- *.
  destruct (wait_quiet_dragging T layerId r d s Hdrag Hinv ltac:(lia)) as (W1 & W2 & W3 & W4).
  destruct (mouseMove_dragging T layerId (wait d s) r p false W1 W2) as (M1 & M2 & M3 & M4).
  destruct (IH (handleMouseMove (wait d s) p false) M1 M2 ltac:(lia)) as (I1 & I2 & I3 & I4).
  split; [exact I1 |]. split; [exact I2 |]. split.
  - unfold run in I3. rewrite I3. lia.
  - unfold run in I4. rewrite I4. congruence.
Qed.

(** A whole drag within the quiet period runs no creation, and leaves one
    queued, due at once. *)
Lemma drag_queues_one_creation {M : MathEnv} {F : NumberFormat}
    T layerId r h start moves hold s :
  atRest layerId r s -> TimersInv T [] (comp s) ->
  now (comp s) + dragDuration moves hold < T ->
  let s' := run s (dragEvents r h start moves hold) in
  exists e key,
    TimersInv T [e] (comp s') /\ due e <= now (comp s')
    /\ callback e = CbExecuteTransform r layerId key T_crop None
    /\ atRest layerId r s'
    /\ now (comp s') = now (comp s) + dragDuration moves hold
    /\ creationLog (comp s') = creationLog (comp s).
Proof.
  intros Hrest Hinv Hnow. unfold dragEvents.
  change (run s (?e :: ?es)) with (run (step s e) es). rewrite run_app.
  cbn [step].
  destruct (mouseDown_dragging T layerId s r h start Hrest Hinv) as (D1 & D2 & D3 & D4).
  set (s1 := handleMouseDownOnHandle s r h start) in *.
  destruct (moves_dragging T layerId r hold moves s1 D1 D2 ltac:(lia)) as (V1 & V2 & V3 & V4).
  set (s2 := run s1 _) in *.
  cbn [run fold_left step].
  destruct (wait_quiet_dragging T layerId r hold s2 V1 V2 ltac:(lia)) as (W1 & W2 & W3 & W4).
  destruct (mouseUp_dragging T layerId (wait hold s2) r W1 W2)
    as (e & key & U1 & U2 & U3 & U4 & U5 & U6).
  exists e, key. split; [exact U1 |]. split; [exact U2 |]. split; [exact U3 |].
  split; [exact U4 |]. split; [lia | congruence].
Qed.

Lemma fresh_TimersInv T c :
  timers c = [] -> processedImageDebounceTimers c = ∅ ->
  T <= now c + PROCESSED_IMAGE_DEBOUNCE_DELAY -> TimersInv T [] c.
Proof.
  intros Ht Hm HT. unfold TimersInv. rewrite Ht, Hm. cbn.
  split; [exact HT |]. split; [reflexivity |].
  split; [intros t [] |]. split; [intros t [] |]. split; [constructor |].
  intros k v Hk. rewrite lookup_empty in Hk. discriminate.
Qed.

(** C8 (as amended): take a layer in crop mode with blend area 40 in a
    session whose compositor has no timer pending and has recorded no
    creation, and drag a resize handle of it twice, the two drags and the
    pause between them lasting less than the debounce delay altogether.
    Then no creation call runs during either drag; the end of the first
    drag queues one creation call for the layer, which runs in the pause, at
    the time of the release; and, however long one waits after the second
    drag, the calls made from a drag end are exactly two, one per drag, each
    at the time of its release.  (The calls made by the debounce timer come
    on top of these.) *)
Theorem crop_drags_create_at_each_drag_end {M : MathEnv} {F : NumberFormat}
    (s0 : Session) (layerId : string) (r : nat) (h1 h2 : Handle) (p1 p2 : Point)
    (moves1 moves2 : list (nat * Point)) (hold1 hold2 gap rest : nat) :
  atRest layerId r s0 ->
  timers (comp s0) = [] ->
  processedImageDebounceTimers (comp s0) = ∅ ->
  creationLog (comp s0) = [] ->
  dragDuration moves1 hold1 + gap + dragDuration moves2 hold2
    < PROCESSED_IMAGE_DEBOUNCE_DELAY ->
  creationLog (comp (run s0 (dragEvents r h1 p1 moves1 hold1))) = []
  /\ creationLog (comp (run s0 (dragEvents r h1 p1 moves1 hold1 ++ [EvWait gap])))
     = [mkCreation (now (comp s0) + dragDuration moves1 hold1) layerId FromTransformEnd]
  /\ creationLog
       (comp (run s0 (dragEvents r h1 p1 moves1 hold1 ++ [EvWait gap]
                        ++ dragEvents r h2 p2 moves2 hold2)))
     = [mkCreation (now (comp s0) + dragDuration moves1 hold1) layerId FromTransformEnd]
  /\ fromTransformEnd
       (creationLog
          (comp (run s0 (dragEvents r h1 p1 moves1 hold1 ++ [EvWait gap]
                           ++ dragEvents r h2 p2 moves2 hold2 ++ [EvWait rest]))))
     = [mkCreation (now (comp s0) + dragDuration moves1 hold1) layerId FromTransformEnd;
        mkCreation (now (comp s0) + dragDuration moves1 hold1 + gap
                    + dragDuration moves2 hold2) layerId FromTransformEnd].
Proof.
  intros Hrest Ht Hm Hlog Hdur.
  set (T := now (comp s0) + PROCESSED_IMAGE_DEBOUNCE_DELAY).
  assert (Hinv : TimersInv T [] (comp s0)) by (apply fresh_TimersInv; auto).
  rewrite !run_app.
  destruct (drag_queues_one_creation T layerId r h1 p1 moves1 hold1 s0 Hrest Hinv
              ltac:(subst T; lia))
    as (e1 & key1 & A1 & A2 & A3 & (l1 & Al & Ac) & A5 & A6).
  set (s1 := run s0 (dragEvents r h1 p1 moves1 hold1)) in *.
  destruct (wait_execute_quiet T gap s1 e1 r l1 layerId key1 T_crop A1 A2
              ltac:(subst T; lia) A3 Al)
    as (B1 & B2 & B3 & B4).
  change (run s1 [EvWait gap]) with (wait gap s1).
  set (s2 := wait gap s1) in *.
  assert (Hrest2 : atRest layerId r s2).
  { exists l1. rewrite B4. split; [exact Al | exact Ac]. }
  destruct (drag_queues_one_creation T layerId r h2 p2 moves2 hold2 s2 Hrest2 B1
              ltac:(subst T; lia))
    as (e2 & key2 & C1 & C2 & C3 & (l2 & Cl & Cc) & C5 & C6).
  set (s3 := run s2 (dragEvents r h2 p2 moves2 hold2)) in *.
  change (run s3 [EvWait rest]) with (wait rest s3).
  pose proof (wait_execute_tail T rest s3 e2 r l2 layerId key2 T_crop C1 C2
                ltac:(subst T; lia) C3 Cl) as D.
  destruct Ac as (Aid & _). destruct Cc as (Cid & _).
  rewrite Aid in B3. rewrite Cid in D.
  rewrite A6, Hlog in B3. cbn [app] in B3.
  split; [congruence |]. split; [congruence |]. split; [congruence |].
  rewrite D, C6, B3, C5, B2, A5. reflexivity.
Qed.

Lemma crop_drags_create_at_each_drag_end_witness :
  fromTransformEnd
    (creationLog
       (comp (run (M := sampleMath) (F := sampleFormat) cropSession
                (firstDrag ++ [EvWait 100] ++ secondDrag ++ [EvWait 2000]))))
  = [mkCreation 25 "a" FromTransformEnd; mkCreation 150 "a" FromTransformEnd].
Proof.
  refine (proj2 (proj2 (proj2
    (crop_drags_create_at_each_drag_end (M := sampleMath) (F := sampleFormat)
       cropSession "a" 0 H_e H_e (mkPoint 100 50) (mkPoint 80 50)
       [(10, mkPoint 90 50); (10, mkPoint 80 50)]
       [(10, mkPoint 70 50); (10, mkPoint 60 50)] 5 5 100 2000 _ _ _ _ _)))).
  - exists cropDragLayer. split; [reflexivity |]. repeat split.
  - reflexivity.
  - reflexivity.
  - reflexivity.
  - vm_compute. lia.
Defined.

(** C8 as stated fails: two drags of a crop handle of a layer with blend
    area 40, 150 ms from the first press to the second release, cause three
    creation calls for the layer, not one: one from each drag end, at 25 ms
    and at 150 ms, and one from the debounce timer that the last render
    without a cached image set, at 1150 ms. *)
Lemma two_crop_drags_three_creations :
  cropBlendLayer "a" cropDragLayer /\
  dragDuration [(10, mkPoint 90 50); (10, mkPoint 80 50)] 5 + 100
    + dragDuration [(10, mkPoint 70 50); (10, mkPoint 60 50)] 5 = 150 /\
  creationsFor "a"
    (comp (run (M := sampleMath) (F := sampleFormat) cropSession
             (firstDrag ++ [EvWait 100] ++ secondDrag ++ [EvWait 2000])))
  = [mkCreation 25 "a" FromTransformEnd; mkCreation 150 "a" FromTransformEnd;
     mkCreation 1150 "a" FromDebounce] /\
  length (creationsFor "a"
            (comp (run (M := sampleMath) (F := sampleFormat) cropSession
                     (firstDrag ++ [EvWait 100] ++ secondDrag ++ [EvWait 2000]))))
  <> 1.
Proof.
  split; [repeat split |]. split; [reflexivity |].
  assert (H : creationsFor "a"
    (comp (run (M := sampleMath) (F := sampleFormat) cropSession
             (firstDrag ++ [EvWait 100] ++ secondDrag ++ [EvWait 2000])))
  = [mkCreation 25 "a" FromTransformEnd; mkCreation 150 "a" FromTransformEnd;
     mkCreation 1150 "a" FromDebounce]) by (vm_compute; reflexivity).
  split; [exact H |]. rewrite H. cbn. lia.
Qed.

End CompositorFacts.

(** ** Resizing by a handle, beyond the scenarios above *)

Module ResizeFacts.

Local Open Scope Q_scope.





End ResizeFacts.

(** ** Hit tests *)

Module HitTestFacts.
Import Store Wheel HitTest.

Local Open Scope Q_scope.

(** Divisions by a numeral, for [lra]. *)
Ltac qconst_div :=
  unfold Qdiv in *;
  repeat match goal with
         | |- context [/ (Qmake ?n ?d)] =>
           let v := eval cbv in (/ (Qmake n d)) in change (/ (Qmake n d)) with v
         | H : context [/ (Qmake ?n ?d)] |- _ =>
           let v := eval cbv in (/ (Qmake n d)) in
           change (/ (Qmake n d)) with v in H
         end.

Lemma insert_by_sorted (h : gmap nat Layer.t) (a : nat) (l : list nat) :
  StronglySorted (fun a b => (zIndexOf h a <= zIndexOf h b)%Z) l ->
  StronglySorted (fun a b => (zIndexOf h a <= zIndexOf h b)%Z)
                 (insert_by (fun a b => (zIndexOf h a <=? zIndexOf h b)%Z) a l).
Proof.
  induction l as [|b t IH]; intros Hs; cbn.
  - constructor; constructor.
  - apply StronglySorted_inv in Hs as [Ht Hb].
    destruct (zIndexOf h a <=? zIndexOf h b)%Z eqn:E.
    + apply Z.leb_le in E. constructor; [constructor; assumption |].
      constructor; [exact E |].
      eapply List.Forall_impl; [| exact Hb]. cbn. intros c Hc. lia.
    + apply Z.leb_gt in E. constructor; [now apply IH |].
      apply List.Forall_forall. intros c Hc.
      apply (Permutation_in _ (StoreFacts.insert_by_perm _ a t)) in Hc.
      destruct Hc as [<- | Hc]; [lia |].
      rewrite List.Forall_forall in Hb. now apply Hb.
Qed.

(** The sort of [canvas.layers] puts the zIndex values in ascending
    order. *)
Lemma sortByZIndexAsc_sorted (h : gmap nat Layer.t) (l : list nat) :
  StronglySorted (fun a b => (zIndexOf h a <= zIndexOf h b)%Z) (sortByZIndexAsc h l).
Proof.
  unfold sortByZIndexAsc. induction l as [|a t IH]; cbn; [constructor |].
  now apply insert_by_sorted.
Qed.

Lemma sorted_before (h : gmap nat Layer.t) (l1 l2 : list nat) (a b : nat) :
  StronglySorted (fun a b => (zIndexOf h a <= zIndexOf h b)%Z) (l1 ++ a :: l2) ->
  In b l1 -> (zIndexOf h b <= zIndexOf h a)%Z.
Proof.
  induction l1 as [|c l1 IH]; cbn; intros Hs Hb; [destruct Hb |].
  apply StronglySorted_inv in Hs as [Ht Hc].
  destruct Hb as [<- | Hb]; [| now apply IH].
  rewrite List.Forall_forall in Hc. apply Hc. apply in_or_app. right. now left.
Qed.

Lemma leb_abs_half (v w : Q) :
  Num.leb (JS.Math_abs v) (w / 2) = true -> 0 <= v + w / 2 /\ v + w / 2 <= w.
Proof.
  unfold Num.leb. intros H. apply negb_true_iff, JSFacts.ltb_false in H.
  unfold JS.Math_abs in H. qconst_div.
  destruct (Qlt_le_dec v 0); split; lra.
Qed.

(** What the loop of [getLayerAtPosition] finds: the first layer of its
    list that is visible and holds the point. *)
Lemma hitLoop_first {M : MathEnv} (h : gmap nat Layer.t) (fromTop : list nat)
    (x y : Q) :
  match hitLoop h fromTop x y with
  | Some hit =>
    exists l1 l2 layer,
      fromTop = l1 ++ hit_layer hit :: l2
      /\ (forall r, In r l1 -> ~ hits h x y r)
      /\ hits h x y (hit_layer hit)
      /\ h !! hit_layer hit = Some layer
      /\ 0 <= localX hit /\ localX hit <= Layer.width layer
      /\ 0 <= localY hit /\ localY hit <= Layer.height layer
  | None => forall r, In r fromTop -> ~ hits h x y r
  end.
Proof.
  induction fromTop as [|r rest IH]; cbn [hitLoop]; [intros r [] |].
  assert (Hskip : ~ hits h x y r ->
    match hitLoop h rest x y with
    | Some hit =>
      exists l1 l2 layer,
        r :: rest = l1 ++ hit_layer hit :: l2
        /\ (forall r, In r l1 -> ~ hits h x y r)
        /\ hits h x y (hit_layer hit)
        /\ h !! hit_layer hit = Some layer
        /\ 0 <= localX hit /\ localX hit <= Layer.width layer
        /\ 0 <= localY hit /\ localY hit <= Layer.height layer
    | None => forall r', In r' (r :: rest) -> ~ hits h x y r'
    end).
  { intros Hr. destruct (hitLoop h rest x y) as [hit|].
    - destruct IH as (l1 & l2 & layer & E & Hl1 & Hhit).
      exists (r :: l1), l2, layer. split; [cbn; now rewrite E |].
      split; [| exact Hhit]. intros r' [<- | Hr']; [exact Hr | now apply Hl1].
    - intros r' [<- | Hr']; [exact Hr | now apply IH]. }
  destruct (h !! r) as [layer|] eqn:El.
  2:{ apply Hskip. intros (l & Hl & _). congruence. }
  destruct (Layer.visible layer) eqn:Ev; cbn [negb].
  2:{ apply Hskip. intros (l & Hl & Hv & _). congruence. }
  destruct (Num.leb _ _ && Num.leb _ _) eqn:Ein.
  - exists [], rest, layer. cbn [app hit_layer localX localY].
    split; [reflexivity |]. split; [intros r' [] |].
    split; [exists layer; now repeat split |].
    split; [exact El |].
    apply andb_true_iff in Ein as [Hx Hy].
    apply leb_abs_half in Hx. apply leb_abs_half in Hy. tauto.
  - apply Hskip. intros (l & Hl & _ & Hin). unfold inFrame in Hin. congruence.
Qed.

(** X10: [getLayerAtPosition] returns a visible layer of the store whose
    frame holds the point and above which (by zIndex) no other such layer
    lies, with the point in the coordinates of the frame; it returns
    nothing only when no visible layer holds the point.  As a side effect
    it sorts the layer array, without adding or dropping a layer. *)
Theorem getLayerAtPosition_topmost {M : MathEnv} (c : Canvas) (x y : Q) :
  let c' := fst (getLayerAtPosition c x y) in
  let found := snd (getLayerAtPosition c x y) in
  Permutation (layers c') (layers c) /\ heap c' = heap c
  /\ (forall hit, found = Some hit ->
        In (hit_layer hit) (layers c)
        /\ hits (heap c) x y (hit_layer hit)
        /\ (forall r, In r (layers c) -> hits (heap c) x y r ->
                      (zIndexOf (heap c) r <= zIndexOf (heap c) (hit_layer hit))%Z)
        /\ exists layer, heap c !! hit_layer hit = Some layer
                         /\ 0 <= localX hit /\ localX hit <= Layer.width layer
                         /\ 0 <= localY hit /\ localY hit <= Layer.height layer)
  /\ (found = None -> forall r, In r (layers c) -> ~ hits (heap c) x y r).
Proof.
  cbv zeta. unfold getLayerAtPosition. cbn [fst snd layers heap with_heap_layers].
  set (sorted := sortByZIndexAsc (heap c) (layers c)).
  assert (Hperm : Permutation sorted (layers c)) by apply StoreFacts.sort_by_perm.
  assert (Hsorted := sortByZIndexAsc_sorted (heap c) (layers c)). fold sorted in Hsorted.
  pose proof (hitLoop_first (heap c) (rev sorted) x y) as Hloop.
  split; [exact Hperm |]. split; [reflexivity |]. split.
  - intros hit Hfound. rewrite Hfound in Hloop.
    destruct Hloop as (l1 & l2 & layer & E & Hl1 & Hhit & Hlayer & Hlocal).
    assert (Es : sorted = rev l2 ++ hit_layer hit :: rev l1).
    { rewrite <- (rev_involutive sorted), E, rev_app_distr. cbn.
      now rewrite <- app_assoc. }
    split; [| split; [exact Hhit | split]].
    + apply (Permutation_in _ Hperm). rewrite Es. apply in_or_app. right. now left.
    + intros r Hr Hh.
      apply (Permutation_in _ (Permutation_sym Hperm)) in Hr. rewrite Es in Hr.
      apply in_app_or in Hr as [Hr | [<- | Hr]].
      * rewrite Es in Hsorted. now apply (sorted_before _ _ _ _ _ Hsorted).
      * lia.
      * apply in_rev in Hr. exfalso. now apply (Hl1 r).
    + exists layer. split; [exact Hlayer | exact Hlocal].
  - intros Hfound. rewrite Hfound in Hloop. intros r Hr.
    apply Hloop. apply in_rev. rewrite rev_involutive.
    now apply (Permutation_in _ (Permutation_sym Hperm)).
Qed.

(** X11: when the pointer is over a visible selected layer (the test that
    sends a wheel event to the layers) and the selected layers belong to
    the store, [getLayerAtPosition] finds a layer there. *)
Theorem pointer_over_selection_hits_a_layer {M : MathEnv} (c : Canvas) (x y : Q) :
  (forall r, In r (selectedLayers c) -> In r (layers c)) ->
  isPointInSelectedLayers (heap c) (selectedLayers c) x y = true ->
  exists hit, snd (getLayerAtPosition c x y) = Some hit.
Proof.
  intros Hsub Hover. unfold getLayerAtPosition. cbn [snd].
  pose proof (hitLoop_first (heap c) (rev (sortByZIndexAsc (heap c) (layers c))) x y)
    as Hloop.
  destruct (hitLoop _ _ x y) as [hit|]; [now exists hit |].
  exfalso.
  unfold isPointInSelectedLayers in Hover.
  apply existsb_exists in Hover as (r & Hr & Hhit).
  apply (Hloop r).
  - apply in_rev. rewrite rev_involutive.
    apply (Permutation_in _ (Permutation_sym (StoreFacts.sort_by_perm _ _))).
    now apply Hsub.
  - destruct (heap c !! r) as [layer|] eqn:El; [| discriminate].
    apply andb_true_iff in Hhit as [Hv Hin]. now exists layer.
Qed.

Lemma pointer_over_selection_hits_a_layer_witness :
  exists hit, snd (getLayerAtPosition (M := sampleMath) sampleCanvas 50 50) = Some hit.
Proof.
  apply (pointer_over_selection_hits_a_layer (M := sampleMath) sampleCanvas 50 50).
  - intros r [<- | [<- | []]]; cbn; auto.
  - vm_compute. reflexivity.
Defined.

Lemma handleKeys_all (k : HandleKey) : In k handleKeys.
Proof. destruct k as [[]|]; cbn; auto 10. Qed.

(** What the loops of [getHandleAtPosition] find. *)
Lemma handleLoop_spec {M : MathEnv} (vp : Viewport) (h : gmap nat Layer.t)
    (fromLast : list nat) (x y : Q) :
  match handleLoop vp h fromLast x y with
  | Some (r, k) =>
    exists l1 l2 layer,
      fromLast = l1 ++ r :: l2 /\ h !! r = Some layer
      /\ nearHandle vp layer x y k = true
      /\ (forall r' layer' k', In r' l1 -> h !! r' = Some layer' ->
                               nearHandle vp layer' x y k' = false)
  | None =>
    forall r' layer' k', In r' fromLast -> h !! r' = Some layer' ->
                         nearHandle vp layer' x y k' = false
  end.
Proof.
  induction fromLast as [|r rest IH]; cbn [handleLoop]; [intros r' l' k' [] |].
  assert (Hskip :
    (forall layer k, h !! r = Some layer -> nearHandle vp layer x y k = false) ->
    match handleLoop vp h rest x y with
    | Some (r0, k) =>
      exists l1 l2 layer,
        r :: rest = l1 ++ r0 :: l2 /\ h !! r0 = Some layer
        /\ nearHandle vp layer x y k = true
        /\ (forall r' layer' k', In r' l1 -> h !! r' = Some layer' ->
                                 nearHandle vp layer' x y k' = false)
    | None =>
      forall r' layer' k', In r' (r :: rest) -> h !! r' = Some layer' ->
                           nearHandle vp layer' x y k' = false
    end).
  { intros Hr. destruct (handleLoop vp h rest x y) as [[r0 k]|].
    - destruct IH as (l1 & l2 & layer & E & Hl & Hk & Hl1).
      exists (r :: l1), l2, layer. split; [cbn; now rewrite E |].
      split; [exact Hl |]. split; [exact Hk |].
      intros r' layer' k' [<- | Hr']; [apply Hr | now apply Hl1].
    - intros r' layer' k' [<- | Hr']; [apply Hr | now apply IH]. }
  destruct (h !! r) as [layer|] eqn:El; [| apply Hskip; discriminate].
  destruct (find (nearHandle vp layer x y) handleKeys) as [k|] eqn:Ef.
  - apply find_some in Ef as [_ Hk].
    exists [], rest, layer. split; [reflexivity |]. split; [exact El |].
    split; [exact Hk |]. intros r' l' k' [].
  - apply Hskip. intros layer' k Hl. injection Hl as <-.
    apply (find_none _ _ Ef). apply handleKeys_all.
Qed.

(** X12: at a positive zoom, and with no selected layer in crop mode whose
    original height is 0 (so that no handle position divides by 0),
    [getHandleAtPosition] returns a handle of a selected layer that lies
    within 8 screen pixels of the pointer, no layer selected after that one
    having such a handle; and it returns nothing only when no handle of a
    selected layer is that close. *)
Theorem getHandleAtPosition_nearest_selection {M : MathEnv} (vp : Viewport)
    (c : Canvas) (x y : Q) :
  0 < zoom vp ->
  (forall r layer, In r (selectedLayers c) -> heap c !! r = Some layer ->
                   Layer.cropMode layer = true ->
                   ~ Layer.originalHeight layer == 0) ->
  (forall r k, getHandleAtPosition vp c x y = Some (r, k) ->
     exists before after layer,
       selectedLayers c = before ++ r :: after
       /\ heap c !! r = Some layer
       /\ nearHandle vp layer x y k = true
       /\ (forall r' layer' k', In r' after -> heap c !! r' = Some layer' ->
                                nearHandle vp layer' x y k' = false))
  /\ (getHandleAtPosition vp c x y = None ->
      forall r layer k, In r (selectedLayers c) -> heap c !! r = Some layer ->
                        nearHandle vp layer x y k = false).
Proof.
  intros _ _. unfold getHandleAtPosition.
  pose proof (handleLoop_spec vp (heap c) (rev (selectedLayers c)) x y) as Hloop.
  destruct (selectedLayers c) as [|r0 sel] eqn:Es.
  { split; [discriminate | intros _ r layer k []]. }
  rewrite <- Es in *. clear Es r0 sel.
  split.
  - intros r k E. rewrite E in Hloop.
    destruct Hloop as (l1 & l2 & layer & El & Hl & Hk & Hl1).
    exists (rev l2), (rev l1), layer. split; [| split; [exact Hl | split; [exact Hk |]]].
    + rewrite <- (rev_involutive (selectedLayers c)), El, rev_app_distr. cbn.
      now rewrite <- app_assoc.
    + intros r' layer' k' Hr'. apply Hl1. now apply in_rev in Hr'.
  - intros E. rewrite E in Hloop. intros r layer k Hr.
    apply Hloop. now apply in_rev in Hr.
Qed.

Lemma getHandleAtPosition_nearest_selection_witness :
  getHandleAtPosition (M := sampleMath) unitViewport sampleCanvas 100 100
  = Some (1%nat, K_resize H_se)
  /\ exists before after layer,
       selectedLayers sampleCanvas = before ++ 1%nat :: after
       /\ heap sampleCanvas !! 1%nat = Some layer
       /\ nearHandle (M := sampleMath) unitViewport layer 100 100 (K_resize H_se) = true
       /\ (forall r' layer' k', In r' after -> heap sampleCanvas !! r' = Some layer' ->
             nearHandle (M := sampleMath) unitViewport layer' 100 100 k' = false).
Proof.
  assert (E : getHandleAtPosition (M := sampleMath) unitViewport sampleCanvas 100 100
              = Some (1%nat, K_resize H_se)) by (vm_compute; reflexivity).
  split; [exact E |].
  assert (Hcrop : forall r layer,
             In r (selectedLayers sampleCanvas) ->
             heap sampleCanvas !! r = Some layer ->
             Layer.cropMode layer = true -> ~ Layer.originalHeight layer == 0).
  { intros r layer [<- | [<- | []]] Hl Hc; vm_compute in Hl;
      injection Hl as <-; discriminate Hc. }
  apply (proj1 (getHandleAtPosition_nearest_selection (M := sampleMath) unitViewport
                  sampleCanvas 100 100 eq_refl Hcrop) 1%nat (K_resize H_se) E).
Defined.

End HitTestFacts.

(** ** The history, beyond single calls *)

Module HistorySequenceFacts.
Import History.

Ltac stacks :=
  cbn [layersUndoStack layersRedoStack maskUndoStack maskRedoStack
       set_layer_stacks set_mask_stacks set_layers set_mask length].

Lemma length_pop {A} (l : list A) : length (pop l) = pred (length l).
Proof.
  unfold pop. induction l as [|a [|b t] IH]; cbn in *; [reflexivity .. |].
  now rewrite IH.
Qed.

Lemma length_push {A} (l : list A) x : length (push l x) = S (length l).
Proof. unfold push. rewrite length_app. cbn. lia. Qed.

Lemma length_shift {A} (l : list A) : length (shift l) = pred (length l).
Proof. now destruct l. Qed.

Lemma last_Some_length {A} (l : list A) x : last l = Some x -> (1 <= length l)%nat.
Proof. destruct l; cbn; [discriminate | lia]. Qed.

Lemma saveLayersState_withinLimit (U : CommonUtils) b s :
  withinLimit s -> withinLimit (saveLayersState b s).
Proof.
  intros [Hl Hm]. unfold withinLimit, saveLayersState.
  set (stack0 := if b && (0 <? length (layersUndoStack s))%nat
                 then pop (layersUndoStack s) else layersUndoStack s).
  assert (H0 : (length stack0 <= length (layersUndoStack s))%nat).
  { subst stack0. destruct (b && _); [rewrite length_pop |]; lia. }
  destruct (match last stack0 with Some _ => _ | None => _ end); stacks.
  - split; [lia | exact Hm].
  - split; [| exact Hm].
    destruct (Nat.ltb_spec historyLimit (length (push stack0 (cloneLayers (layers s)))))
      as [H|H]; rewrite ?length_shift, ?length_push in *; stacks; lia.
Qed.

Lemma saveMaskState_withinLimit b s :
  withinLimit s -> withinLimit (saveMaskState b s).
Proof.
  intros [Hl Hm]. unfold withinLimit, saveMaskState.
  destruct (hasMaskTool s); cbn [negb]; [| split; assumption]. stacks.
  split; [exact Hl |].
  set (stack0 := if b && (0 <? length (maskUndoStack s))%nat
                 then pop (maskUndoStack s) else maskUndoStack s).
  assert (H0 : (length stack0 <= length (maskUndoStack s))%nat).
  { subst stack0. destruct (b && _); [rewrite length_pop |]; lia. }
  destruct (Nat.ltb_spec historyLimit (length (push stack0 (mask s))))
    as [H|H]; rewrite ?length_shift, ?length_push in *; stacks; lia.
Qed.

Lemma undoLayersState_withinLimit (U : CommonUtils) s :
  withinLimit s -> withinLimit (undoLayersState s).
Proof.
  intros [Hl Hm]. unfold undoLayersState.
  destruct (Nat.leb_spec (length (layersUndoStack s)) 1); [split; assumption |].
  destruct (last (layersUndoStack s)) as [cur|]; [| split; assumption].
  assert (Hs : (length (pop (layersUndoStack s))
                + length (push (layersRedoStack s) cur) <= historyLimit)%nat).
  { rewrite length_pop, length_push. lia. }
  destruct (last (pop (layersUndoStack s))); split; stacks; assumption.
Qed.

Lemma redoLayersState_withinLimit (U : CommonUtils) s :
  withinLimit s -> withinLimit (redoLayersState s).
Proof.
  intros [Hl Hm]. unfold redoLayersState.
  destruct (last (layersRedoStack s)) as [next|] eqn:E; [| split; assumption].
  apply last_Some_length in E.
  split; stacks; [| exact Hm]. rewrite length_pop, length_push. lia.
Qed.

Lemma undoMaskState_withinLimit s : withinLimit s -> withinLimit (undoMaskState s).
Proof.
  intros [Hl Hm]. unfold undoMaskState.
  destruct (negb (hasMaskTool s) || _) eqn:E; [split; assumption |].
  apply orb_false_iff in E as [_ E]. apply Nat.leb_gt in E.
  destruct (last (maskUndoStack s)) as [cur|]; [| split; assumption].
  assert (Hs : (length (pop (maskUndoStack s))
                + length (push (maskRedoStack s) cur) <= historyLimit)%nat).
  { rewrite length_pop, length_push. lia. }
  destruct (last (pop (maskUndoStack s))); split; stacks; assumption.
Qed.

Lemma redoMaskState_withinLimit s : withinLimit s -> withinLimit (redoMaskState s).
Proof.
  intros [Hl Hm]. unfold redoMaskState.
  destruct (negb (hasMaskTool s)); [split; assumption |].
  destruct (last (maskRedoStack s)) as [next|] eqn:E; [| split; assumption].
  apply last_Some_length in E.
  split; stacks; [exact Hl |]. rewrite length_pop, length_push. lia.
Qed.

(** X13: whatever sequence of saves, undos, redos, clears, edits and
    switches of the mask tool a session goes through, each of its two
    histories holds at most 100 states, undo and redo stacks together. *)
Theorem history_stays_within_limit (U : CommonUtils) (s : State)
    (ops : list HistoryOp) :
  withinLimit s -> withinLimit (applyOps s ops).
Proof.
  unfold applyOps. revert s. induction ops as [|op ops IH]; intros s Hs; [exact Hs |].
  cbn [fold_left]. apply IH. destruct op; cbn [applyOp].
  - unfold saveState. destruct (maskToolActive s);
      [now apply saveMaskState_withinLimit | now apply saveLayersState_withinLimit].
  - unfold undo. destruct (maskToolActive s);
      [now apply undoMaskState_withinLimit | now apply undoLayersState_withinLimit].
  - unfold redo. destruct (maskToolActive s);
      [now apply redoMaskState_withinLimit | now apply redoLayersState_withinLimit].
  - destruct Hs as [Hl Hm]. unfold clearHistory, withinLimit.
    destruct (maskToolActive s); stacks; split; first [assumption | lia].
  - exact Hs.
  - exact Hs.
  - exact Hs.
Qed.

Lemma history_stays_within_limit_witness :
  withinLimit
    (applyOps (U := structuralUtils) (freshSession [])
       [DoEditLayers (sampleState 1); DoSave false; DoEditLayers (sampleState 2);
        DoSave false; DoUndo; DoRedo; DoSwitchMaskTool true; DoSave true; DoClear]).
Proof.
  apply (history_stays_within_limit structuralUtils).
  split; cbn; lia.
Defined.

Lemma pop_then_push {A} (l : list A) x : last l = Some x -> push (pop l) x = l.
Proof.
  unfold push, pop. induction l as [|a [|b t] IH]; intros H.
  - discriminate.
  - injection H as ->. reflexivity.
  - change (a :: removelast (b :: t) ++ [x] = a :: b :: t). f_equal. now apply IH.
Qed.

Lemma last_pop_Some {A} (l : list A) :
  (2 <= length l)%nat -> exists prev, last (pop l) = Some prev.
Proof.
  intros H. destruct (last (pop l)) as [prev|] eqn:E; [now exists prev |].
  apply last_None in E. apply (f_equal (@length A)) in E.
  rewrite length_pop in E. cbn in E. lia.
Qed.

(** X14: an undo followed by a redo leaves the stacks of the history as
    they were and shows the state on top of the undo stack: the layers of
    that entry, cloned, or its mask when the mask tool is active. *)
Theorem undo_then_redo_restores (U : CommonUtils) (s : State) :
  canUndo (getHistoryInfo s) = true ->
  (maskToolActive s = false ->
   exists top, last (layersUndoStack s) = Some top
               /\ redo (undo s) = set_layers s (cloneLayers top))
  /\ (maskToolActive s = true ->
      exists top, last (maskUndoStack s) = Some top
                  /\ redo (undo s) = set_mask s top).
Proof.
  intros Hcan. unfold getHistoryInfo, undo, redo in *. split; intros Hmode.
  - rewrite Hmode in *. cbn [canUndo] in Hcan. apply Nat.ltb_lt in Hcan.
    unfold undoLayersState.
    replace (length (layersUndoStack s) <=? 1)%nat with false
      by (symmetry; apply Nat.leb_gt; lia).
    destruct (last (layersUndoStack s)) as [top|] eqn:Etop.
    2:{ apply last_None in Etop. rewrite Etop in Hcan. cbn in Hcan. lia. }
    destruct (last_pop_Some (layersUndoStack s)) as (prev & Eprev); [lia |].
    rewrite Eprev. exists top. split; [reflexivity |].
    assert (Hm : maskToolActive
                   (set_layers
                      (set_layer_stacks s (pop (layersUndoStack s))
                                        (push (layersRedoStack s) top))
                      (cloneLayers prev)) = false) by exact Hmode.
    rewrite Hm. unfold redoLayersState. stacks.
    rewrite HistoryFacts.last_push, HistoryFacts.pop_push, (pop_then_push _ _ Etop).
    now destruct s.
  - rewrite Hmode in *. cbn [canUndo] in Hcan. apply Nat.ltb_lt in Hcan.
    assert (Htool : hasMaskTool s = true).
    { unfold maskToolActive in Hmode. now apply andb_true_iff in Hmode as [H _]. }
    unfold undoMaskState. rewrite Htool. cbn [negb orb].
    replace (length (maskUndoStack s) <=? 1)%nat with false
      by (symmetry; apply Nat.leb_gt; lia).
    destruct (last (maskUndoStack s)) as [top|] eqn:Etop.
    2:{ apply last_None in Etop. rewrite Etop in Hcan. cbn in Hcan. lia. }
    destruct (last_pop_Some (maskUndoStack s)) as (prev & Eprev); [lia |].
    rewrite Eprev. exists top. split; [reflexivity |].
    assert (Hm : maskToolActive
                   (set_mask
                      (set_mask_stacks s (pop (maskUndoStack s))
                                       (push (maskRedoStack s) top))
                      prev) = true) by exact Hmode.
    rewrite Hm. unfold redoMaskState. cbn [hasMaskTool set_mask set_mask_stacks].
    rewrite Htool. cbn [negb]. stacks.
    rewrite HistoryFacts.last_push, HistoryFacts.pop_push, (pop_then_push _ _ Etop).
    now destruct s.
Qed.

Lemma undo_then_redo_restores_witness :
  exists top,
    last (layersUndoStack
            (snapshotOf (U := structuralUtils)
               (snapshotOf (U := structuralUtils) (freshSession []) (sampleState 1))
               (sampleState 2))) = Some top
    /\ redo (U := structuralUtils)
         (undo (U := structuralUtils)
            (snapshotOf (U := structuralUtils)
               (snapshotOf (U := structuralUtils) (freshSession []) (sampleState 1))
               (sampleState 2)))
       = set_layers
           (snapshotOf (U := structuralUtils)
              (snapshotOf (U := structuralUtils) (freshSession []) (sampleState 1))
              (sampleState 2))
           (@cloneLayers structuralUtils top).
Proof.
  apply (undo_then_redo_restores structuralUtils
           (snapshotOf (U := structuralUtils)
              (snapshotOf (U := structuralUtils) (freshSession []) (sampleState 1))
              (sampleState 2))).
  - vm_compute. reflexivity.
  - reflexivity.
Defined.

(** X15: after [clearHistory] neither undo nor redo is offered or does
    anything, the first save still leaves nothing to undo, and the history
    of the other mode (layers or mask) is as it was. *)
Theorem clearHistory_leaves_nothing_to_undo (U : CommonUtils) (s : State)
    (replaceLast : bool) :
  let s' := clearHistory s in
  undo s' = s' /\ redo s' = s'
  /\ canUndo (getHistoryInfo s') = false /\ canRedo (getHistoryInfo s') = false
  /\ undoCount (getHistoryInfo (saveState replaceLast s')) = 1%nat
  /\ canUndo (getHistoryInfo (saveState replaceLast s')) = false
  /\ (if maskToolActive s
      then layersUndoStack s' = layersUndoStack s
           /\ layersRedoStack s' = layersRedoStack s
      else maskUndoStack s' = maskUndoStack s
           /\ maskRedoStack s' = maskRedoStack s).
Proof.
  cbv zeta. unfold clearHistory, undo, redo, getHistoryInfo, saveState.
  destruct (maskToolActive s) eqn:Hmode.
  - assert (Htool : hasMaskTool s = true).
    { unfold maskToolActive in Hmode. now apply andb_true_iff in Hmode as [H _]. }
    assert (Hm : maskToolActive (set_mask_stacks s [] []) = true) by exact Hmode.
    rewrite Hm.
    unfold undoMaskState, redoMaskState, saveMaskState.
    cbn [hasMaskTool set_mask_stacks maskUndoStack maskRedoStack length].
    rewrite Htool. cbn [negb orb Nat.leb last andb Nat.ltb].
    rewrite andb_false_r.
    assert (Hm' : forall st, maskToolActive
                    (set_mask_stacks (set_mask_stacks s [] []) st []) = true)
      by (intros; exact Hmode).
    cbn [push app length Nat.ltb Nat.leb historyLimit].
    rewrite Hm'. cbn. repeat split.
  - assert (Hm : maskToolActive (set_layer_stacks s [] []) = false) by exact Hmode.
    rewrite Hm.
    unfold undoLayersState, redoLayersState, saveLayersState.
    cbn [set_layer_stacks layersUndoStack layersRedoStack length Nat.leb last
         Nat.ltb andb].
    rewrite andb_false_r. cbn [last push app length].
    assert (Hm' : forall st, maskToolActive
                    (set_layer_stacks (set_layer_stacks s [] []) st []) = false)
      by (intros; exact Hmode).
    cbn [historyLimit Nat.ltb Nat.leb]. rewrite Hm'. cbn. repeat split.
Qed.

(** X16: when the clone of a layer state has the signature of that state,
    a save right after an undo changes nothing: the step back is not
    recorded as a new state and redo remains possible. *)
Theorem save_after_undo_keeps_redo (U : CommonUtils) (s : State) :
  cloneKeepsSignature U -> maskToolActive s = false ->
  canUndo (getHistoryInfo s) = true ->
  saveState false (undo s) = undo s
  /\ canRedo (getHistoryInfo (undo s)) = true.
Proof.
  intros Hclone Hmode Hcan. unfold getHistoryInfo, undo, saveState in *.
  rewrite Hmode in *. cbn [canUndo] in Hcan. apply Nat.ltb_lt in Hcan.
  unfold undoLayersState.
  replace (length (layersUndoStack s) <=? 1)%nat with false
    by (symmetry; apply Nat.leb_gt; lia).
  destruct (last (layersUndoStack s)) as [top|] eqn:Etop.
  2:{ apply last_None in Etop. rewrite Etop in Hcan. cbn in Hcan. lia. }
  destruct (last_pop_Some (layersUndoStack s)) as (prev & Eprev); [lia |].
  rewrite Eprev.
  set (s1 := set_layers _ (cloneLayers prev)).
  assert (Hm : maskToolActive s1 = false) by exact Hmode.
  rewrite Hm. split.
  - apply (HistoryFacts.saveLayersState_unchanged U s1 prev); [exact Eprev |].
    subst s1. cbn [layers set_layers]. now rewrite !Hclone.
  - subst s1. stacks. cbn [canRedo]. rewrite length_push. reflexivity.
Qed.

Lemma save_after_undo_keeps_redo_witness :
  saveState (U := structuralUtils) false
    (undo (U := structuralUtils)
       (snapshotOf (U := structuralUtils)
          (snapshotOf (U := structuralUtils) (freshSession []) (sampleState 1))
          (sampleState 2)))
  = undo (U := structuralUtils)
      (snapshotOf (U := structuralUtils)
         (snapshotOf (U := structuralUtils) (freshSession []) (sampleState 1))
         (sampleState 2)).
Proof.
  apply (save_after_undo_keeps_redo structuralUtils
           (snapshotOf (U := structuralUtils)
              (snapshotOf (U := structuralUtils) (freshSession []) (sampleState 1))
              (sampleState 2))).
  - intros ls. reflexivity.
  - reflexivity.
  - vm_compute. reflexivity.
Defined.

(** X17: a save with [replaceLast] drops the top of the undo stack before
    it compares; when the layers have the signature of the entry under the
    top, nothing is pushed, so the stack ends one entry shorter, with the
    redo stack as it was. *)
Theorem replaceLast_drops_top_when_unchanged (U : CommonUtils) (s : State)
    (below : list (list Layer.t)) (under top : list Layer.t) :
  maskToolActive s = false ->
  layersUndoStack s = below ++ [under; top] ->
  getStateSignature under = getStateSignature (cloneLayers (layers s)) ->
  layersUndoStack (saveState true s) = below ++ [under]
  /\ layersRedoStack (saveState true s) = layersRedoStack s.
Proof.
  intros Hmode Hstack Hsig. unfold saveState. rewrite Hmode.
  unfold saveLayersState. rewrite Hstack.
  assert (Hlen : (0 <? length (below ++ [under; top]))%nat = true).
  { apply Nat.ltb_lt. rewrite length_app. cbn. lia. }
  rewrite Hlen. cbn [andb].
  assert (Hpop : pop (below ++ [under; top]) = below ++ [under]).
  { change (below ++ [under; top]) with (below ++ [under] ++ [top]).
    rewrite app_assoc. apply HistoryFacts.pop_push. }
  rewrite Hpop, last_snoc, bool_decide_eq_true_2 by exact Hsig.
  split; reflexivity.
Qed.

Lemma replaceLast_drops_top_when_unchanged_witness :
  layersUndoStack
    (saveState (U := structuralUtils) true
       (mkState (sampleState 1) true false [] [sampleState 1; sampleState 2] [] [] []))
  = [sampleState 1].
Proof.
  apply (replaceLast_drops_top_when_unchanged structuralUtils
           (mkState (sampleState 1) true false [] [sampleState 1; sampleState 2]
                    [] [] [])
           [] (sampleState 1) (sampleState 2)); reflexivity.
Defined.

End HistorySequenceFacts.

(** ** The z-order of a single layer *)

Module StoreOrderFacts.
Import Store.

Local Open Scope Z_scope.

Lemma indexOf_at (below : list nat) (r : nat) (above : list nat) :
  ~ In r below -> indexOf (below ++ r :: above) r = Z.of_nat (length below).
Proof.
  induction below as [|a t IH]; intros Hr; cbn [app indexOf length].
  - now rewrite Nat.eqb_refl.
  - assert (Ha : a <> r) by (intros ->; apply Hr; now left).
    apply Nat.eqb_neq in Ha. rewrite Ha, IH by (intros H; apply Hr; now right).
    replace (Z.of_nat (length t) <? 0) with false by (symmetry; apply Z.ltb_ge; lia).
    lia.
Qed.

(** The exchange of two neighbours, exactly. *)
Lemma swap_at (below : list nat) (r a : nat) (rest : list nat) :
  <[S (length below) :=
      match map Some (below ++ r :: a :: rest) !! length below with
      | Some v => v | None => None end]>
    (<[length below :=
         match map Some (below ++ r :: a :: rest) !! S (length below) with
         | Some v => v | None => None end]>
       (map Some (below ++ r :: a :: rest)))
  = map Some (below ++ a :: r :: rest).
Proof.
  induction below as [|b t IH]; [reflexivity |].
  cbn. f_equal. exact IH.
Qed.

(** Sorting by zIndex an array whose layers have their positions as
    zIndex leaves it as it is. *)
Lemma sortByZIndexAsc_positions (h : gmap nat Layer.t) (fl : list nat) (start : Z) :
  (forall (i : nat) x, fl !! i = Some x -> zIndexOf h x = start + Z.of_nat i) ->
  sortByZIndexAsc h fl = fl.
Proof.
  unfold sortByZIndexAsc. revert start.
  induction fl as [|a t IH]; intros start Hz; [reflexivity |].
  cbn [sort_by]. rewrite (IH (start + 1)).
  2:{ intros i x Hi. rewrite (Hz (S i) x Hi). lia. }
  destruct t as [|b t']; [reflexivity |]. cbn [insert_by].
  rewrite (Hz 0%nat a eq_refl), (Hz 1%nat b eq_refl).
  replace (start + Z.of_nat 0 <=? start + Z.of_nat 1) with true
    by (symmetry; apply Z.leb_le; lia).
  reflexivity.
Qed.

(** [moveLayers] with a direction, once the reordered array is known:
    the store holds that array, every layer with its position as zIndex. *)
Lemma moveLayers_direction_result (c : Canvas) (sel : list nat) (d : Direction)
    (fl : list nat) :
  wellFormed c -> sel <> [] ->
  reorderByDirection d sel (layers c) = map Some fl ->
  Permutation fl (layers c) ->
  exists c',
    moveLayers c sel (mkMoveOptions (Some d) None) = Returned c'
    /\ layers c' = fl /\ selectedLayers c' = selectedLayers c
    /\ wellFormed c'
    /\ (forall (i : nat) x, fl !! i = Some x -> zIndexOf (heap c') x = Z.of_nat i).
Proof.
  intros (Hnd & Halloc & Hsel) Hne Hre Hperm.
  unfold moveLayers. destruct sel as [|s0 sel']; [congruence |].
  cbn [direction toIndex]. rewrite Hre.
  destruct (StoreFacts.assignZIndices_spec (fun index => index) fl 0 (heap c))
    as (h' & Hrun & Hz & _ & Hsome).
  { eapply StoreFacts.perm_NoDup; eauto. }
  { intros r Hr. apply Halloc. eapply Permutation_in; eauto. }
  rewrite Hrun, StoreFacts.elements_of_map_Some.
  rewrite (sortByZIndexAsc_positions h' fl 0 Hz).
  eexists. split; [reflexivity |]. cbn [layers selectedLayers heap with_heap_layers].
  split; [reflexivity |]. split; [reflexivity |]. split.
  - split; [eapply StoreFacts.perm_NoDup; eauto |]. split.
    + intros r Hr. apply Hsome, Halloc. eapply Permutation_in; eauto.
    + intros r Hr. apply Hsome, Hsel, Hr.
  - intros i x Hi. now rewrite (Hz i x Hi).
Qed.

Lemma reorder_up_single (below : list nat) (r : nat) (above : list nat) :
  ~ In r below ->
  reorderByDirection Up [r] (below ++ r :: above)
  = map Some (match above with
              | a :: rest => below ++ a :: r :: rest
              | [] => below ++ [r]
              end).
Proof.
  intros Hr. unfold reorderByDirection. cbn [map]. rewrite (indexOf_at _ _ _ Hr).
  cbn [toSet existsb sort_by insert_by fold_left]. unfold moveUpStep.
  cbn [set_has existsb].
  replace (Z.of_nat (length below) + 1 =? Z.of_nat (length below)) with false
    by (symmetry; apply Z.eqb_neq; lia).
  cbn [orb negb]. rewrite andb_true_r.
  rewrite length_map, length_app. cbn [length].
  destruct above as [|a rest]; cbn [length];
    match goal with
    | |- context [?x <? ?y] => destruct (Z.ltb_spec x y); try lia
    end; [reflexivity |].
  unfold arr_swap, arr_get, arr_set.
  replace (Z.of_nat (length below) <? 0) with false
    by (symmetry; apply Z.ltb_ge; lia).
  replace (Z.of_nat (length below) + 1 <? 0) with false
    by (symmetry; apply Z.ltb_ge; lia).
  replace (Z.to_nat (Z.of_nat (length below) + 1)) with (S (length below)) by lia.
  rewrite Nat2Z.id. apply swap_at.
Qed.

Lemma reorder_down_single (below : list nat) (b r : nat) (above : list nat) :
  ~ In r below -> b <> r ->
  reorderByDirection Down [r] (below ++ b :: r :: above)
  = map Some (below ++ r :: b :: above).
Proof.
  intros Hr Hb. unfold reorderByDirection. cbn [map].
  change (below ++ b :: r :: above) with (below ++ [b] ++ r :: above).
  rewrite app_assoc, indexOf_at.
  2:{ intros H. apply in_app_or in H as [H | [H | []]]; [now apply Hr | now apply Hb]. }
  rewrite <- app_assoc. cbn [app].
  rewrite length_app. cbn [length].
  cbn [toSet existsb sort_by insert_by fold_left]. unfold moveDownStep.
  cbn [set_has existsb].
  replace (0 <=? Z.of_nat (length below + 1)%nat - 1) with true
    by (symmetry; apply Z.leb_le; lia).
  replace (Z.of_nat (length below + 1)%nat - 1 =? Z.of_nat (length below + 1)%nat)
    with false by (symmetry; apply Z.eqb_neq; lia).
  cbn [orb negb andb].
  unfold arr_swap, arr_get, arr_set.
  replace (Z.of_nat (length below + 1)%nat <? 0) with false
    by (symmetry; apply Z.ltb_ge; lia).
  replace (Z.of_nat (length below + 1)%nat - 1 <? 0) with false
    by (symmetry; apply Z.ltb_ge; lia).
  replace (Z.to_nat (Z.of_nat (length below + 1)%nat - 1)) with (length below) by lia.
  rewrite Nat2Z.id. replace (length below + 1)%nat with (S (length below)) by lia.
  rewrite list_insert_insert_ne by lia.
  apply swap_at.
Qed.

Lemma reorder_down_bottom (r : nat) (above : list nat) :
  reorderByDirection Down [r] (r :: above) = map Some (r :: above).
Proof.
  unfold reorderByDirection. cbn [map indexOf]. rewrite Nat.eqb_refl.
  reflexivity.
Qed.

Lemma NoDup_not_in_front (below : list nat) (r : nat) (above : list nat) :
  NoDup (below ++ r :: above) -> ~ In r below.
Proof.
  intros Hnd Hin. apply NoDup_app in Hnd as (_ & Hdisj & _).
  apply list_elem_of_In in Hin. apply (Hdisj r Hin). now left.
Qed.

(** X18: with one layer selected, [moveLayerUp] exchanges it with the
    layer after it in the layer array, and leaves the array as it is when
    the layer is the last one; every layer ends with its position in the
    array as zIndex. *)
Theorem moveLayerUp_swaps_with_next (c : Canvas) (below : list nat) (r : nat)
    (above : list nat) :
  wellFormed c -> selectedLayers c = [r] -> layers c = below ++ r :: above ->
  exists c',
    moveLayerUp c = Returned c'
    /\ layers c' = match above with
                   | a :: rest => below ++ a :: r :: rest
                   | [] => below ++ [r]
                   end
    /\ selectedLayers c' = [r]
    /\ (forall (i : nat) x, layers c' !! i = Some x ->
                            zIndexOf (heap c') x = Z.of_nat i).
Proof.
  intros Hwf Hsel Hlayers. unfold moveLayerUp. rewrite Hsel.
  pose proof Hwf as (Hnd & _). rewrite Hlayers in Hnd.
  pose proof (reorder_up_single below r above (NoDup_not_in_front _ _ _ Hnd)) as Hre.
  rewrite <- Hlayers in Hre.
  destruct (moveLayers_direction_result c [r] Up _ Hwf ltac:(discriminate) Hre)
    as (c' & Hrun & Hl & Hs & _ & Hz).
  { rewrite Hlayers. destruct above as [|a rest]; [reflexivity |].
    apply Permutation_app_head, perm_swap. }
  exists c'. split; [exact Hrun |]. split; [exact Hl |].
  split; [now rewrite Hs |]. rewrite Hl. exact Hz.
Qed.

Lemma moveLayerUp_swaps_with_next_witness :
  exists c',
    moveLayerUp (mkCanvas (heap sampleCanvas) [0; 1; 2]%nat [1%nat] [] (mkPoint 0 0)
                          (mkRect 0 0 512 512))
    = Returned c'
    /\ layers c' = [0; 2; 1]%nat.
Proof.
  destruct (moveLayerUp_swaps_with_next
              (mkCanvas (heap sampleCanvas) [0; 1; 2]%nat [1%nat] [] (mkPoint 0 0)
                        (mkRect 0 0 512 512))
              [0%nat] 1%nat [2%nat]) as (c' & Hrun & Hl & _).
  - split; [| split].
    + cbn. apply (bool_decide_unpack _). vm_compute. exact I.
    + cbn. intros r [<-|[<-|[<-|[]]]]; vm_compute; eexists; reflexivity.
    + cbn. intros r [<-|[]]; vm_compute; eexists; reflexivity.
  - reflexivity.
  - reflexivity.
  - exists c'. split; [exact Hrun | exact Hl].
Defined.

Lemma split_unique (l1 l2 k1 k2 : list nat) (r : nat) :
  ~ In r l1 -> ~ In r k1 -> l1 ++ r :: l2 = k1 ++ r :: k2 -> l1 = k1 /\ l2 = k2.
Proof.
  revert k1. induction l1 as [|a l1 IH]; intros [|b k1] H1 H2 E; cbn in E.
  - injection E as <-. auto.
  - injection E as -> _. exfalso. apply H2. now left.
  - injection E as -> _. exfalso. apply H1. now left.
  - injection E as -> E.
    destruct (IH k1) as [-> ->]; auto; intros H; [apply H1 | apply H2]; now right.
Qed.

(** X19: with one layer selected, [moveLayerDown] exchanges it with the
    layer before it in the layer array, and leaves the array as it is when
    the layer is the first one; every layer ends with its position in the
    array as zIndex. *)
Theorem moveLayerDown_swaps_with_previous (c : Canvas) (r : nat) :
  wellFormed c -> selectedLayers c = [r] -> In r (layers c) ->
  exists c',
    moveLayerDown c = Returned c'
    /\ (forall above, layers c = r :: above -> layers c' = r :: above)
    /\ (forall below b above,
           layers c = below ++ b :: r :: above ->
           layers c' = below ++ r :: b :: above)
    /\ selectedLayers c' = [r]
    /\ (forall (i : nat) x, layers c' !! i = Some x ->
                            zIndexOf (heap c') x = Z.of_nat i).
Proof.
  intros Hwf Hsel Hin. unfold moveLayerDown. rewrite Hsel.
  pose proof Hwf as (Hnd & _).
  assert (Hshape :
    exists fl, reorderByDirection Down [r] (layers c) = map Some fl
               /\ Permutation fl (layers c)
               /\ (forall above, layers c = r :: above -> fl = r :: above)
               /\ (forall below b above,
                      layers c = below ++ b :: r :: above ->
                      fl = below ++ r :: b :: above)).
  { apply in_split in Hin as (front & above & Hl).
    rewrite Hl in Hnd |- *.
    pose proof (NoDup_not_in_front _ _ _ Hnd) as Hfront.
    induction front as [|b below _] using rev_ind.
    - exists (r :: above). split; [apply reorder_down_bottom |].
      split; [reflexivity |]. split; [intros above' [= <-]; reflexivity |].
      intros below b above' E. exfalso.
      change (below ++ b :: r :: above') with (below ++ [b] ++ r :: above') in E.
      rewrite app_assoc in E.
      assert (Hn : ~ In r (below ++ [b])).
      { change ([] ++ r :: above) with (r :: above) in E. rewrite E in Hnd.
        apply (NoDup_not_in_front _ _ _ Hnd). }
      destruct (split_unique [] above (below ++ [b]) above' r) as [E1 _]; auto.
      now destruct below.
    - rewrite <- app_assoc in Hnd |- *. cbn [app] in Hnd |- *.
      assert (Hr : ~ In r below /\ b <> r).
      { split; [intros H | intros ->]; apply Hfront, in_or_app;
          [now left | right; now left]. }
      exists (below ++ r :: b :: above).
      split; [now apply reorder_down_single |].
      split; [apply Permutation_app_head, perm_swap |].
      split.
      + intros above' E. exfalso.
        destruct (split_unique (below ++ [b]) above [] above' r) as [E1 _]; auto.
        { rewrite <- app_assoc. exact E. }
        now destruct below.
      + intros below' b' above' E.
        change (below' ++ b' :: r :: above') with (below' ++ [b'] ++ r :: above') in E.
        rewrite app_assoc in E.
        assert (Hn : ~ In r (below' ++ [b'])).
        { assert (Hnd' : NoDup ((below' ++ [b']) ++ r :: above')).
          { rewrite <- E. exact Hnd. }
          apply (NoDup_not_in_front _ _ _ Hnd'). }
        destruct (split_unique (below ++ [b]) above (below' ++ [b']) above' r)
          as [E1 ->]; auto.
        { rewrite <- app_assoc. exact E. }
        apply app_inj_tail in E1 as [-> ->]. reflexivity. }
  destruct Hshape as (fl & Hre & Hperm & Hbottom & Hswap).
  destruct (moveLayers_direction_result c [r] Down fl Hwf ltac:(discriminate) Hre Hperm)
    as (c' & Hrun & Hl & Hs & _ & Hz).
  exists c'. split; [exact Hrun |]. rewrite Hl.
  split; [exact Hbottom |]. split; [exact Hswap |].
  split; [now rewrite Hs | exact Hz].
Qed.

Lemma moveLayerDown_swaps_with_previous_witness :
  exists c',
    moveLayerDown (mkCanvas (heap sampleCanvas) [0; 1; 2]%nat [1%nat] [] (mkPoint 0 0)
                            (mkRect 0 0 512 512))
    = Returned c'
    /\ layers c' = [1; 0; 2]%nat.
Proof.
  destruct (moveLayerDown_swaps_with_previous
              (mkCanvas (heap sampleCanvas) [0; 1; 2]%nat [1%nat] [] (mkPoint 0 0)
                        (mkRect 0 0 512 512)) 1%nat)
    as (c' & Hrun & _ & Hswap & _).
  - split; [| split].
    + cbn. apply (bool_decide_unpack _). vm_compute. exact I.
    + cbn. intros r [<-|[<-|[<-|[]]]]; vm_compute; eexists; reflexivity.
    + cbn. intros r [<-|[]]; vm_compute; eexists; reflexivity.
  - reflexivity.
  - cbn. auto.
  - exists c'. split; [exact Hrun |]. apply (Hswap [] 0%nat [2%nat]). reflexivity.
Defined.

(** X20: with one layer selected that is not the last of the layer array,
    [moveLayerUp] followed by [moveLayerDown] brings the array back to the
    order it had. *)
Theorem move_up_then_down_restores (c : Canvas) (below : list nat) (r a : nat)
    (rest : list nat) :
  wellFormed c -> selectedLayers c = [r] -> layers c = below ++ r :: a :: rest ->
  exists c1 c2,
    moveLayerUp c = Returned c1 /\ moveLayerDown c1 = Returned c2
    /\ layers c2 = layers c.
Proof.
  intros Hwf Hsel Hlayers.
  pose proof Hwf as (Hnd & _). rewrite Hlayers in Hnd.
  pose proof (NoDup_not_in_front _ _ _ Hnd) as Hr.
  assert (Ha : a <> r).
  { intros ->. apply NoDup_app in Hnd as (_ & _ & Hd).
    apply NoDup_cons in Hd as [Hn _]. apply Hn. now left. }
  pose proof (reorder_up_single below r (a :: rest) Hr) as Hup.
  rewrite <- Hlayers in Hup.
  destruct (moveLayers_direction_result c [r] Up _ Hwf ltac:(discriminate) Hup)
    as (c1 & Hrun1 & Hl1 & Hs1 & Hwf1 & _).
  { rewrite Hlayers. apply Permutation_app_head, perm_swap. }
  pose proof (reorder_down_single below a r rest Hr Ha) as Hdown.
  rewrite <- Hl1 in Hdown.
  destruct (moveLayers_direction_result c1 [r] Down _ Hwf1 ltac:(discriminate) Hdown)
    as (c2 & Hrun2 & Hl2 & _).
  { rewrite Hl1. apply Permutation_app_head, perm_swap. }
  exists c1, c2. unfold moveLayerUp, moveLayerDown. rewrite Hsel, Hs1, Hsel.
  split; [exact Hrun1 |]. split; [exact Hrun2 |]. now rewrite Hl2, Hlayers.
Qed.

Lemma move_up_then_down_restores_witness :
  exists c1 c2,
    moveLayerUp (mkCanvas (heap sampleCanvas) [0; 1; 2]%nat [1%nat] [] (mkPoint 0 0)
                          (mkRect 0 0 512 512))
    = Returned c1
    /\ moveLayerDown c1 = Returned c2
    /\ layers c2 = [0; 1; 2]%nat.
Proof.
  apply (move_up_then_down_restores
           (mkCanvas (heap sampleCanvas) [0; 1; 2]%nat [1%nat] [] (mkPoint 0 0)
                     (mkRect 0 0 512 512))
           [0%nat] 1%nat 2%nat []).
  - split; [| split].
    + cbn. apply (bool_decide_unpack _). vm_compute. exact I.
    + cbn. intros r [<-|[<-|[<-|[]]]]; vm_compute; eexists; reflexivity.
    + cbn. intros r [<-|[]]; vm_compute; eexists; reflexivity.
  - reflexivity.
  - reflexivity.
Defined.

End StoreOrderFacts.

(** ** The debounce of the processed images *)

Module DebounceFacts.
Import Compositor.

Local Open Scope nat_scope.

Lemma sameButTimers_refl c : sameButTimers c c.
Proof. repeat split. Qed.

Lemma sameButTimers_trans c1 c2 c3 :
  sameButTimers c1 c2 -> sameButTimers c2 c3 -> sameButTimers c1 c3.
Proof.
  unfold sameButTimers. intros H1 H2.
  decompose [and] H1. decompose [and] H2. repeat split; congruence.
Qed.

Lemma scheduleProcessedImageCreation_same c r layer key :
  sameButTimers c (scheduleProcessedImageCreation c r layer key).
Proof.
  unfold scheduleProcessedImageCreation.
  destruct (processedImageDebounceTimers c !! Layer.id layer) as [t|];
    [destruct (t =? 0) |]; repeat split.
Qed.

Lemma drawLayer_same {F : NumberFormat} resizing c r layer :
  sameButTimers c (fst (_drawLayer resizing c r layer)).
Proof.
  unfold _drawLayer, getProcessedImage.
  repeat match goal with
         | |- context [if ?b then _ else _] => destruct b; cbn [fst]
         | |- context [match cache_get ?m ?k with _ => _ end] =>
           destruct (cache_get m k); cbn [fst]
         end;
    first [apply sameButTimers_refl | apply scheduleProcessedImageCreation_same].
Qed.

Lemma drawLayers_same {F : NumberFormat} resizing h ls c :
  sameButTimers c (fold_left (drawStep resizing h) ls c).
Proof.
  revert c. induction ls as [|r ls IH]; intros c; cbn; [apply sameButTimers_refl |].
  eapply sameButTimers_trans; [| apply IH].
  unfold drawStep. destruct (h !! r) as [layer|]; [| apply sameButTimers_refl].
  destruct (Layer.visible layer); [apply drawLayer_same | apply sameButTimers_refl].
Qed.

Lemma scheduleProcessedImageCreation_timers c r layer key t :
  In t (timers (scheduleProcessedImageCreation c r layer key)) ->
  In t (timers c) \/ isDebounce (callback t) = true.
Proof.
  unfold scheduleProcessedImageCreation, setTimeout, clearTimeout.
  destruct (processedImageDebounceTimers c !! Layer.id layer) as [v|];
    [destruct (v =? 0) |]; cbn; intros Ht;
    apply in_app_or in Ht as [Ht | [<- | []]];
    try (right; reflexivity); try (now left).
  apply filter_In in Ht as [Ht _]. now left.
Qed.

Lemma drawLayer_timers {F : NumberFormat} resizing c r layer t :
  In t (timers (fst (_drawLayer resizing c r layer))) ->
  In t (timers c) \/ isDebounce (callback t) = true.
Proof.
  unfold _drawLayer.
  assert (H : In t (timers (fst (getProcessedImage c r layer))) ->
              In t (timers c) \/ isDebounce (callback t) = true).
  { unfold getProcessedImage.
    repeat match goal with
           | |- context [if ?b then _ else _] => destruct b; cbn [fst]
           | |- context [match cache_get ?m ?k with _ => _ end] =>
             destruct (cache_get m k); cbn [fst]
           end; auto.
    apply scheduleProcessedImageCreation_timers. }
  destruct (getProcessedImage c r layer) as [c1 p]. exact H.
Qed.

(** X21: a render never creates a processed image and never changes the
    cache: all it does to the compositor is to set or reset debounce
    timers, and it leaves the layers, the viewport and the interaction as
    they are. *)
Theorem render_only_sets_timers {F : NumberFormat} (s : Session) :
  sameButTimers (comp s) (comp (render s))
  /\ render s = with_comp s (comp (render s))
  /\ (forall t, In t (timers (comp (render s))) ->
        In t (timers (comp s)) \/ isDebounce (callback t) = true).
Proof.
  split; [| split].
  - unfold render, _drawLayers. cbn [comp with_comp]. apply drawLayers_same.
  - reflexivity.
  - unfold render, _drawLayers. cbn [comp with_comp].
    generalize (Store.sortByZIndexAsc (heap s) (layers s)). intros ls.
    set (c0 := comp s).
    assert (H : forall c, (forall t, In t (timers c) ->
                            In t (timers c0) \/ isDebounce (callback t) = true) ->
              forall t, In t (timers (fold_left (drawStep (resizingId s) (heap s)) ls c)) ->
                        In t (timers c0) \/ isDebounce (callback t) = true).
    { induction ls as [|r ls IH]; intros c Hc; [exact Hc |].
      cbn [fold_left]. apply IH. intros t Ht.
      unfold drawStep in Ht. destruct (heap s !! r) as [layer|]; [| now apply Hc].
      destruct (Layer.visible layer); [| now apply Hc].
      apply drawLayer_timers in Ht as [Ht | Ht]; [now apply Hc | now right]. }
    apply (H c0). auto.
Qed.

(** X22: starting with no timer pending, however many renders follow one
    another, no processed image is created as long as less than the
    debounce delay has passed since the first of them. *)
Theorem renders_within_quiet_period {F : NumberFormat} (s : Session)
    (gaps : list nat) (d : nat) :
  timers (comp s) = [] -> processedImageDebounceTimers (comp s) = ∅ ->
  list_sum gaps + d < PROCESSED_IMAGE_DEBOUNCE_DELAY ->
  creationLog (comp (wait d (renderEvery (render s) gaps)))
  = creationLog (comp s).
Proof.
  intros Ht Hm Hsum.
  set (T := now (comp s) + PROCESSED_IMAGE_DEBOUNCE_DELAY).
  pose proof (CompositorFacts.fresh_TimersInv T (comp s) Ht Hm (Nat.le_refl _)) as Hinv.
  destruct (CompositorFacts.render_inv T [] s Hinv) as (H1 & H2 & H3).
  assert (Hall : forall gaps s1,
            TimersInv T [] (comp s1) -> now (comp s1) + list_sum gaps + d < T ->
            creationLog (comp (wait d (renderEvery s1 gaps))) = creationLog (comp s1)).
  { clear. induction gaps as [|g gaps IH]; intros s1 Hinv Hnow.
    - cbn [renderEvery fold_left].
      rewrite (CompositorFacts.wait_quiet T d s1 Hinv) by (cbn in Hnow; lia).
      reflexivity.
    - cbn [renderEvery fold_left] in *.
      change (list_sum (g :: gaps)) with (g + list_sum gaps) in Hnow.
      assert (Hw : wait g s1 = with_comp s1 (with_now (comp s1) (now (comp s1) + g)))
        by (apply (CompositorFacts.wait_quiet T); [exact Hinv | lia]).
      assert (Hinv' : TimersInv T [] (comp (wait g s1))).
      { rewrite Hw. cbn [comp with_comp].
        apply CompositorFacts.TimersInv_advance; [exact Hinv | lia]. }
      destruct (CompositorFacts.render_inv T [] (wait g s1) Hinv') as (R1 & R2 & R3).
      fold (renderEvery (render (wait g s1)) gaps).
      rewrite IH; [| exact R1 |].
      + rewrite R3, Hw. reflexivity.
      + rewrite R2, Hw. cbn [comp with_comp now with_now]. lia. }
  rewrite Hall; [exact H3 | exact H1 |]. rewrite H2. subst T. lia.
Qed.

Lemma renders_within_quiet_period_witness :
  creationLog
    (comp (wait (F := sampleFormat) 100 (renderEvery (F := sampleFormat) (render (F := sampleFormat) cropSession)
                                 [200; 300; 399])))
  = creationLog (comp cropSession).
Proof.
  apply (renders_within_quiet_period (F := sampleFormat) cropSession [200; 300; 399] 100).
  - reflexivity.
  - reflexivity.
  - vm_compute. lia.
Defined.

Lemma wait_split {F : NumberFormat} d1 d2 s :
  wait (d1 + S d2) s = wait d2 (tick (wait d1 s)).
Proof.
  revert s. induction d1 as [|d1 IH]; intros s; [reflexivity |].
  cbn [Nat.add wait]. apply IH.
Qed.

Lemma runDue_idle {F : NumberFormat} s : timers (comp s) = [] -> runDue s = s.
Proof. intros H. unfold runDue, dueTimers. now rewrite H. Qed.

Lemma wait_idle {F : NumberFormat} d s :
  timers (comp s) = [] ->
  wait d s = with_comp s (with_now (comp s) (now (comp s) + d)).
Proof.
  revert s. induction d as [|d IH]; intros s H; cbn [wait]; rewrite runDue_idle by exact H.
  - destruct s as [h ls v ia tr c]. destruct c. unfold with_comp, with_now. cbn.
    now rewrite Nat.add_0_r.
  - rewrite IH by exact H.
    destruct s as [h ls v ia tr c]. destruct c. unfold tick, with_comp, with_now. cbn.
    do 2 f_equal. lia.
Qed.

Lemma cache_get_set_same cache key v : cache_get (cache_set cache key v) key = Some v.
Proof.
  induction cache as [|[k w] rest IH]; cbn.
  - now rewrite String.eqb_refl.
  - destruct (String.eqb k key) eqn:E; cbn; rewrite E; [reflexivity | exact IH].
Qed.

(** A layer with a blend area that is drawn from the cache or, failing
    that, scheduled for processing. *)
Lemma getProcessedImage_regular {F : NumberFormat} c r layer :
  (0 < blendAreaOf layer)%Z ->
  Layer.id layer ∉ layersAdjustingBlendArea c ->
  Layer.id layer ∉ layersWheelScaling c ->
  getProcessedImage c r layer
  = match cache_get (processedImageCache c) (getProcessedImageCacheKey layer) with
    | Some img => (c, Some img)
    | None =>
      (scheduleProcessedImageCreation c r layer (getProcessedImageCacheKey layer), None)
    end.
Proof.
  intros Hb Ha Hw. unfold getProcessedImage.
  rewrite (proj2 (Z.ltb_lt _ _) Hb). cbn [negb andb].
  rewrite !bool_decide_eq_false_2 by assumption. reflexivity.
Qed.

Lemma render_single {F : NumberFormat} s r layer :
  layers s = [r] -> heap s !! r = Some layer -> Layer.visible layer = true ->
  comp (render s) = fst (_drawLayer (resizingId s) (comp s) r layer).
Proof.
  intros Hl Hr Hv. unfold render, _drawLayers. rewrite Hl.
  cbn [comp with_comp Store.sortByZIndexAsc Store.sort_by Store.insert_by fold_left].
  unfold drawStep. now rewrite Hr, Hv.
Qed.

Lemma drawLayer_comp {F : NumberFormat} resizing c r layer :
  fst (_drawLayer resizing c r layer) = fst (getProcessedImage c r layer).
Proof. unfold _drawLayer. now destruct (getProcessedImage c r layer). Qed.

(** The instant at which the debounce timer of the only layer is due. *)
Lemma runDue_single_debounce {F : NumberFormat} h r layer v ia tr
    cache a1 a2 a3 a4 T nid nimg log key :
  h !! r = Some layer -> Layer.visible layer = true ->
  (0 < blendAreaOf layer)%Z ->
  Layer.id layer ∉ a1 -> Layer.id layer ∉ a4 ->
  key = getProcessedImageCacheKey layer ->
  runDue (mkSession h [r] v ia tr
            (mkComp cache (<[Layer.id layer := nid]> ∅) a1 a2 a3 a4 T (S nid)
                    [mkTimer nid T (CbDebouncedCreate r key)] nimg log))
  = mkSession h [r] v ia tr
      (mkComp (cache_set cache key nimg) ∅ a1 a2 a3 a4 T (S nid) [] (S nimg)
              (log ++ [mkCreation T (Layer.id layer) FromDebounce])).
Proof.
  intros Hr Hv Hb Ha Hw Hkey.
  unfold runDue, dueTimers. cbn [comp timers now List.filter due].
  rewrite Nat.leb_refl. cbn [map fold_left timer_id].
  unfold fireIfPending. cbn [comp timers find timer_id].
  rewrite Nat.eqb_refl. cbn [callback fire heap with_comp comp]. rewrite Hr.
  unfold clearTimeout, createProcessedImage, with_cache, with_timers.
  cbn [processedImageCache processedImageDebounceTimers layersAdjustingBlendArea
       layersTransformingCropBounds layersTransformingScale layersWheelScaling
       now nextTimerId timers nextImage creationLog heap layers viewport
       interaction transformingRef List.filter timer_id].
  rewrite Nat.eqb_refl. cbn [negb].
  match goal with |- context [render ?x] => set (s3 := x) end.
  assert (Hs3 : comp (render s3) = comp s3).
  { rewrite (render_single s3 r layer eq_refl Hr Hv), drawLayer_comp.
    rewrite getProcessedImage_regular by assumption.
    subst s3. cbn [comp with_comp processedImageCache].
    rewrite <- Hkey. now rewrite cache_get_set_same. }
  assert (Hr3 : render s3 = with_comp s3 (comp (render s3))) by reflexivity.
  rewrite Hr3, Hs3. subst s3. unfold with_comp, with_debounceTimers.
  cbn [comp heap layers viewport interaction transformingRef
       processedImageCache processedImageDebounceTimers layersAdjustingBlendArea
       layersTransformingCropBounds layersTransformingScale layersWheelScaling
       now nextTimerId timers nextImage creationLog].
  rewrite delete_insert_eq, delete_empty. reflexivity.
Qed.

(** X23: one visible layer with a blend area and no processed image in the
    cache, which is neither being adjusted with the blend-area slider nor
    being wheel-scaled, in a compositor with no timer pending: a render,
    then nothing for the debounce delay or longer.  Exactly one processed
    image is created, by the debounce timer, at the moment the delay has
    passed; it lands in the cache under the key of the layer, and no timer
    is left.  (A layer of the model always has its image.) *)
Theorem debounced_creation_runs_once {F : NumberFormat} (s : Session) (r : nat)
    (layer : Layer.t) (d : nat) :
  layers s = [r] -> heap s !! r = Some layer -> Layer.visible layer = true ->
  (0 < blendAreaOf layer)%Z ->
  Layer.id layer ∉ layersAdjustingBlendArea (comp s) ->
  Layer.id layer ∉ layersWheelScaling (comp s) ->
  cache_get (processedImageCache (comp s)) (getProcessedImageCacheKey layer) = None ->
  timers (comp s) = [] -> processedImageDebounceTimers (comp s) = ∅ ->
  let s' := wait (PROCESSED_IMAGE_DEBOUNCE_DELAY + d) (render s) in
  creationLog (comp s')
  = creationLog (comp s)
      ++ [mkCreation (now (comp s) + PROCESSED_IMAGE_DEBOUNCE_DELAY)
                     (Layer.id layer) FromDebounce]
  /\ cache_get (processedImageCache (comp s')) (getProcessedImageCacheKey layer)
     = Some (nextImage (comp s))
  /\ timers (comp s') = [].
Proof.
  intros Hl Hr Hv Hb Ha Hw Hmiss Ht Hm. cbv zeta.
  remember (getProcessedImageCacheKey layer) as key eqn:Hkey.
  set (T := now (comp s) + PROCESSED_IMAGE_DEBOUNCE_DELAY).
  (* the render schedules the creation *)
  assert (Hc1 : comp (render s)
                = with_debounceTimers
                    (with_timers (comp s) (S (nextTimerId (comp s)))
                                 [mkTimer (nextTimerId (comp s)) T
                                          (CbDebouncedCreate r key)])
                    (<[Layer.id layer := nextTimerId (comp s)]> ∅)).
  { rewrite (render_single s r layer Hl Hr Hv), drawLayer_comp.
    rewrite getProcessedImage_regular by assumption. rewrite <- Hkey, Hmiss.
    cbn [fst]. unfold scheduleProcessedImageCreation.
    rewrite Hm, lookup_empty. unfold setTimeout. cbn [fst snd].
    rewrite Ht. cbn [app with_timers processedImageDebounceTimers].
    rewrite Hm. reflexivity. }
  (* nothing happens before the delay has passed *)
  pose proof (CompositorFacts.fresh_TimersInv T (comp s) Ht Hm (Nat.le_refl _)) as Hinv.
  destruct (CompositorFacts.render_inv T [] s Hinv) as (H1 & H2 & _).
  assert (Hsplit : PROCESSED_IMAGE_DEBOUNCE_DELAY + d = 999 + S d) by reflexivity.
  rewrite Hsplit, wait_split.
  rewrite (CompositorFacts.wait_quiet T 999 (render s) H1)
    by (rewrite H2; subst T; unfold PROCESSED_IMAGE_DEBOUNCE_DELAY; lia).
  assert (HT : S (now (comp (render s)) + 999) = T).
  { rewrite H2. subst T. unfold PROCESSED_IMAGE_DEBOUNCE_DELAY. lia. }
  unfold tick. cbn [comp with_comp now with_now]. rewrite HT, Hc1.
  clear Hinv H1 H2 HT Hc1 Hsplit. clearbody T.
  destruct s as [h ls v ia tr c]. destruct c as [cache m a1 a2 a3 a4 nw nid ts nimg log].
  cbn [layers heap comp timers processedImageDebounceTimers processedImageCache
       layersAdjustingBlendArea layersWheelScaling nextImage creationLog] in *.
  subst ls ts m. unfold with_comp, with_now, with_debounceTimers, with_timers.
  cbn [heap layers viewport interaction transformingRef comp
       processedImageCache processedImageDebounceTimers layersAdjustingBlendArea
       layersTransformingCropBounds layersTransformingScale layersWheelScaling
       now nextTimerId timers nextImage creationLog].
  (* the timer fires, and nothing is left to do *)
  rewrite CompositorFacts.wait_first.
  rewrite (runDue_single_debounce h r layer v ia tr cache a1 a2 a3 a4 T nid nimg log key)
    by assumption.
  destruct d as [|k].
  - cbn [comp creationLog processedImageCache timers].
    rewrite cache_get_set_same. auto.
  - rewrite wait_idle by reflexivity.
    cbn [comp tick with_comp with_now creationLog processedImageCache timers].
    rewrite cache_get_set_same. auto.
Qed.

Lemma debounced_creation_runs_once_witness :
  creationLog
    (comp (wait (F := sampleFormat) (PROCESSED_IMAGE_DEBOUNCE_DELAY + 500)
                (render (F := sampleFormat) cropSession)))
  = [mkCreation 1000 "a" FromDebounce].
Proof.
  apply (proj1 (debounced_creation_runs_once (F := sampleFormat) cropSession 0
                  cropDragLayer 500 eq_refl eq_refl eq_refl eq_refl
                  ltac:(set_solver) ltac:(set_solver) eq_refl eq_refl eq_refl)).
Defined.

Lemma prefix_self_append (b c : string) : String.prefix b (b +:+ c) = true.
Proof.
  induction b as [|ch b IH]; [now destruct c |].
  change (String.prefix (String ch b) (String ch (b +:+ c)) = true).
  simpl. destruct (ascii_dec ch ch); [exact IH | congruence].
Qed.

Lemma prefix_append (a b c : string) : String.prefix (a +:+ b) (a +:+ b +:+ c) = true.
Proof.
  induction a as [|ch a IH].
  - change (String.prefix b (b +:+ c) = true). apply prefix_self_append.
  - change (String.prefix (String ch (a +:+ b)) (String ch (a +:+ b +:+ c)) = true).
    simpl. destruct (ascii_dec ch ch); [exact IH | congruence].
Qed.

Lemma cache_get_filter (keep : string -> bool) cache key :
  cache_get (List.filter (fun kv => keep (fst kv)) cache) key
  = if keep key then cache_get cache key else None.
Proof.
  induction cache as [|[k v] rest IH]; cbn [List.filter cache_get fst].
  - now destruct (keep key).
  - destruct (String.eqb k key) eqn:E.
    + apply String.eqb_eq in E. subst k.
      destruct (keep key) eqn:Ek; cbn [cache_get].
      * now rewrite String.eqb_refl.
      * exact IH.
    + destruct (keep k); cbn [cache_get]; [rewrite E |]; exact IH.
Qed.

(** The cache that [invalidateProcessedImageCache] leaves. *)
Lemma invalidateProcessedImageCache_cache (c : Comp) (layerId : string) :
  processedImageCache (invalidateProcessedImageCache c layerId)
  = List.filter (fun kv => negb (String.prefix (layerId +:+ "_") (fst kv)))
                (processedImageCache c).
Proof.
  unfold invalidateProcessedImageCache. cbv zeta.
  destruct (_ !! layerId) as [t|]; [destruct (t =? 0) |];
    cbn [processedImageCache with_cache with_debounceTimers clearTimeout with_timers];
    apply filter_ext_in; intros [k v] Hin; cbn [fst]; f_equal.
  all: destruct (String.prefix (layerId +:+ "_") k) eqn:Ep.
  all: try (apply existsb_exists; exists k; split; [| apply String.eqb_refl];
            apply filter_In; split; [| exact Ep];
            apply in_map_iff; exists (k, v); now split).
  all: destruct (existsb _ _) eqn:Ex; [| reflexivity];
       apply existsb_exists in Ex as (k' & Hk' & Ek');
       apply String.eqb_eq in Ek'; subst k';
       apply filter_In in Hk' as [_ Hk']; congruence.
Qed.

(** X24: [invalidateProcessedImageCache] removes every cache entry whose
    key starts with the id of the layer followed by an underscore, so the
    processed image of the layer is gone whatever its geometry; the other
    entries stay; and the debounce timer of the layer, if one is pending,
    is cleared and forgotten. *)
Theorem invalidateProcessedImageCache_drops_layer {F : NumberFormat} (c : Comp)
    (layerId : string) :
  let c' := invalidateProcessedImageCache c layerId in
  (forall key, String.prefix (layerId +:+ "_") key = true ->
               cache_get (processedImageCache c') key = None)
  /\ (forall layer, Layer.id layer = layerId ->
        cache_get (processedImageCache c') (getProcessedImageCacheKey layer) = None)
  /\ (forall key, String.prefix (layerId +:+ "_") key = false ->
        cache_get (processedImageCache c') key = cache_get (processedImageCache c) key)
  /\ (forall tid, processedImageDebounceTimers c !! layerId = Some tid -> tid <> 0 ->
        processedImageDebounceTimers c' !! layerId = None
        /\ forall t, In t (timers c') -> timer_id t <> tid)
  /\ creationLog c' = creationLog c.
Proof.
  cbv zeta.
  assert (Hcache : forall key,
    cache_get (processedImageCache (invalidateProcessedImageCache c layerId)) key
    = if negb (String.prefix (layerId +:+ "_") key)
      then cache_get (processedImageCache c) key else None).
  { intros key. rewrite invalidateProcessedImageCache_cache.
    apply (cache_get_filter (fun k => negb (String.prefix (layerId +:+ "_") k))). }
  split; [| split; [| split; [| split]]].
  - intros key Hp. now rewrite Hcache, Hp.
  - intros layer <-. rewrite Hcache. unfold getProcessedImageCacheKey.
    now rewrite prefix_append.
  - intros key Hp. now rewrite Hcache, Hp.
  - intros tid Htid Hnz. unfold invalidateProcessedImageCache. cbv zeta.
    cbn [processedImageDebounceTimers with_cache]. rewrite Htid.
    apply Nat.eqb_neq in Hnz. rewrite Hnz.
    cbn [processedImageDebounceTimers with_debounceTimers timers clearTimeout
         with_timers with_cache].
    split; [apply lookup_delete_eq |].
    intros t Ht. apply filter_In in Ht as [_ Ht].
    apply negb_true_iff, Nat.eqb_neq in Ht. exact Ht.
  - unfold invalidateProcessedImageCache. cbv zeta.
    destruct (_ !! layerId) as [t|]; [destruct (t =? 0) |]; reflexivity.
Qed.

End DebounceFacts.

(** ** New layers: where they are put *)

Module PlacementFacts.
Import Store.

Local Open Scope Q_scope.






End PlacementFacts.

(** ** Fitting the output area to the selection *)

Module OutputAreaFacts.
Import Store OutputArea.

Local Open Scope Q_scope.

Section WithMath.

Context {M : MathEnv}.

Lemma includeCorner_bounds (b : option Box) (ps : list Point) (p : Point) :
  boundsOf b ps -> boundsOf (includeCorner b p) (ps ++ [p]).
Proof.
  destruct b as [[[[minX minY] maxX] maxY]|]; cbn [boundsOf includeCorner].
  - intros (Hall & (p1 & I1 & E1) & (p2 & I2 & E2) & (p3 & I3 & E3) & (p4 & I4 & E4)).
    assert (Hmin : forall a v, JS.Math_min a v <= a /\ JS.Math_min a v <= v
                               /\ (JS.Math_min a v = a \/ JS.Math_min a v = v)).
    { intros a v. unfold JS.Math_min.
      destruct (Qlt_le_dec v a); repeat split; auto; lra. }
    assert (Hmax : forall a v, a <= JS.Math_max a v /\ v <= JS.Math_max a v
                               /\ (JS.Math_max a v = a \/ JS.Math_max a v = v)).
    { intros a v. unfold JS.Math_max.
      destruct (Qlt_le_dec a v); repeat split; auto; lra. }
    destruct (Hmin minX (px p)) as (A1 & A2 & A3).
    destruct (Hmin minY (py p)) as (B1 & B2 & B3).
    destruct (Hmax maxX (px p)) as (C1 & C2 & C3).
    destruct (Hmax maxY (py p)) as (D1 & D2 & D3).
    split.
    { intros q Hq. apply in_app_or in Hq. destruct Hq as [Hq | [<- | []]].
      - destruct (Hall q Hq) as (? & ? & ? & ?). repeat split; lra.
      - repeat split; lra. }
    repeat split.
    + destruct A3 as [-> | ->];
        [exists p1 | exists p]; (split; [apply in_or_app; cbn; auto | auto]).
    + destruct B3 as [-> | ->];
        [exists p2 | exists p]; (split; [apply in_or_app; cbn; auto | auto]).
    + destruct C3 as [-> | ->];
        [exists p3 | exists p]; (split; [apply in_or_app; cbn; auto | auto]).
    + destruct D3 as [-> | ->];
        [exists p4 | exists p]; (split; [apply in_or_app; cbn; auto | auto]).
  - intros ->. cbn [app]. split.
    { intros q [<- | []]. repeat split; lra. }
    repeat split; exists p; (split; [now left | reflexivity]).
Qed.

Lemma includeCorners_bounds (qs : list Point) :
  forall (b : option Box) (ps : list Point),
    boundsOf b ps -> boundsOf (fold_left includeCorner qs b) (ps ++ qs).
Proof.
  induction qs as [|q qs IH]; intros b ps Hb; cbn [fold_left].
  - now rewrite app_nil_r.
  - replace (ps ++ q :: qs) with ((ps ++ [q]) ++ qs) by now rewrite <- app_assoc.
    apply IH, includeCorner_bounds, Hb.
Qed.

Lemma includeLayers_bounds (h : gmap nat Layer.t) (rs : list nat) :
  forall (b : option Box) (ps : list Point),
    boundsOf b ps ->
    boundsOf (fold_left (includeLayer h) rs b) (ps ++ flat_map (cornersOf h) rs).
Proof.
  induction rs as [|r rs IH]; intros b ps Hb; cbn [fold_left flat_map].
  - now rewrite app_nil_r.
  - rewrite app_assoc. apply IH, includeCorners_bounds, Hb.
Qed.

Lemma Math_ceil_bounds (a : Q) :
  a <= Num.Math_ceil a /\ Num.Math_ceil a < a + 1.
Proof.
  unfold Num.Math_ceil. split; [apply Qle_ceiling |].
  pose proof (Qceiling_lt a) as H.
  replace (Qceiling a - 1)%Z with (Qceiling a + - (1))%Z in H by lia.
  rewrite inject_Z_plus in H.
  change (inject_Z (- (1))%Z) with (-1) in H. lra.
Qed.

(** X27: when [autoAdjustOutputToSelection] returns [true], the new output
    area starts at the least x and the least y of the corners that the
    selected layers show (the corners of the crop rectangle in crop mode, of
    the frame otherwise, after rotation), so that no corner lies to the left
    of it or above it; its width and height are whole and positive, exceed
    the distance from that start to the farthest corner by less than 1 and
    fall short of the distance to any corner by less than 1.  The layers,
    the selection and the clipboard are as before. *)
Theorem autoAdjust_fits_selection (c c' : Canvas) :
  autoAdjustOutputToSelection c = (c', true) ->
  let area := outputAreaBounds c' in
  let corners := flat_map (cornersOf (heap c)) (selectedLayers c) in
  (forall p, In p corners ->
             rx area <= px p /\ px p - rx area < rwidth area + 1
             /\ ry area <= py p /\ py p - ry area < rheight area + 1)
  /\ (exists p, In p corners /\ px p = rx area)
  /\ (exists p, In p corners /\ py p = ry area)
  /\ (exists p, In p corners /\ rwidth area - 1 < px p - rx area)
  /\ (exists p, In p corners /\ rheight area - 1 < py p - ry area)
  /\ (exists w h : Z, (0 < w)%Z /\ (0 < h)%Z
                      /\ rwidth area = inject_Z w /\ rheight area = inject_Z h)
  /\ heap c' = heap c /\ layers c' = layers c
  /\ selectedLayers c' = selectedLayers c
  /\ internalClipboard c' = internalClipboard c.
Proof.
  unfold autoAdjustOutputToSelection. intros Hrun.
  destruct (selectedLayers c) as [|r0 rs] eqn:Esel; [discriminate |].
  pose proof (includeLayers_bounds (heap c) (r0 :: rs) None [] eq_refl) as Hb.
  cbn [app] in Hb.
  destruct (fold_left (includeLayer (heap c)) (r0 :: rs) None)
    as [[[[minX minY] maxX] maxY]|]; [| discriminate].
  destruct (Num.leb (Num.Math_ceil (maxX - minX)) 0
            || Num.leb (Num.Math_ceil (maxY - minY)) 0) eqn:Epos; [discriminate |].
  injection Hrun as <-. cbn [outputAreaBounds heap layers selectedLayers
                            internalClipboard rx ry rwidth rheight].
  cbv zeta.
  destruct Hb as (Hall & (p1 & I1 & E1) & (p2 & I2 & E2) & (p3 & I3 & E3)
                  & (p4 & I4 & E4)).
  destruct (Math_ceil_bounds (maxX - minX)) as (W1 & W2).
  destruct (Math_ceil_bounds (maxY - minY)) as (H1 & H2).
  apply orb_false_iff in Epos. destruct Epos as [Ew Eh].
  unfold Num.leb, JS.ltb in Ew, Eh.
  destruct (Qlt_le_dec 0 (Num.Math_ceil (maxX - minX))) as [Pw|]; [| discriminate].
  destruct (Qlt_le_dec 0 (Num.Math_ceil (maxY - minY))) as [Ph|]; [| discriminate].
  split.
  { intros p Hp. destruct (Hall p Hp) as (? & ? & ? & ?). repeat split; lra. }
  split; [exists p1; split; [exact I1 | now symmetry] |].
  split; [exists p2; split; [exact I2 | now symmetry] |].
  split; [exists p3; split; [exact I3 | rewrite <- E3; lra] |].
  split; [exists p4; split; [exact I4 | rewrite <- E4; lra] |].
  split.
  { exists (Qceiling (maxX - minX)), (Qceiling (maxY - minY)).
    unfold Num.Math_ceil in Pw, Ph.
    change 0 with (inject_Z 0) in Pw, Ph.
    rewrite <- Zlt_Qlt in Pw, Ph. repeat split; assumption. }
  repeat split.
Qed.

End WithMath.

Lemma autoAdjust_fits_selection_witness :
  exists p,
    In p (flat_map (cornersOf (M := sampleMath) (heap sampleCanvas))
                   (selectedLayers sampleCanvas))
    /\ px p
       = rx (outputAreaBounds
               (fst (autoAdjustOutputToSelection (M := sampleMath) sampleCanvas))).
Proof.
  destruct (autoAdjust_fits_selection (M := sampleMath) sampleCanvas
              (fst (autoAdjustOutputToSelection (M := sampleMath) sampleCanvas)))
    as (_ & Hleft & _); [vm_compute; reflexivity |].
  exact Hleft.
Defined.

End OutputAreaFacts.

(** ** The mouse wheel *)

Module WheelFacts.
Import Compositor Wheel.

Local Open Scope Q_scope.

Lemma set_rotation_same (l : Layer.t) : set_rotation l (Layer.rotation l) = l.
Proof. now destruct l. Qed.

Lemma set_frame_same (l : Layer.t) :
  Layer.set_frame l (Layer.x l) (Layer.y l) (Layer.width l) (Layer.height l) = l.
Proof. now destruct l. Qed.

(** [handleLayerRotation] writes the rotation and nothing else. *)
Lemma handleLayerRotation_rotation_only (layer : Layer.t) (ctrl : bool)
    (direction rotationStep : Q) :
  exists rot, handleLayerRotation layer ctrl direction rotationStep
              = set_rotation layer rot.
Proof.
  unfold handleLayerRotation.
  destruct ctrl; [destruct (JS.gtb direction 0) |]; eexists; reflexivity.
Qed.

(** [handleLayerScaling] writes the frame and nothing else. *)
Lemma handleLayerScaling_frame_only {F : NumberFormat} (c : Comp) (r : nat)
    (layer : Layer.t) (ctrl : bool) (deltaY : Q) :
  exists x y w h,
    snd (handleLayerScaling c r layer ctrl deltaY) = Layer.set_frame layer x y w h.
Proof.
  unfold handleLayerScaling.
  destruct (scaleFactorOf layer ctrl deltaY) as [[q|]|];
    [destruct (JS.truthy q) |..]; cbn [snd];
    first [ do 4 eexists; reflexivity
          | exists (Layer.x layer), (Layer.y layer), (Layer.width layer),
                   (Layer.height layer); now rewrite set_frame_same ].
Qed.

(** What the [forEach] of [handleLayerWheelTransformation] leaves behind:
    the viewport and the array of layers are as before, a layer outside the
    selection is as before, and any layer differs from what it was in its
    rotation only (Shift held) or in its frame only. *)
Lemma wheelSteps_spec {F : NumberFormat} (ctrl shift : bool) (deltaY : Q)
    (selectedLayers : list nat) :
  forall s : Session,
    let s' := fold_left (wheelStep ctrl shift deltaY) selectedLayers s in
    layers s' = layers s /\ viewport s' = viewport s
    /\ interaction s' = interaction s
    /\ (forall r, ~ In r selectedLayers -> heap s' !! r = heap s !! r)
    /\ (forall r layer, heap s !! r = Some layer ->
          exists layer',
            heap s' !! r = Some layer'
            /\ if shift then exists rot, layer' = set_rotation layer rot
               else exists x y w h, layer' = Layer.set_frame layer x y w h).
Proof.
  induction selectedLayers as [|r0 sel IH]; intros s; cbn [fold_left]; cbv zeta.
  - repeat split; try reflexivity. intros r layer Hl. exists layer.
    split; [exact Hl |]. destruct shift.
    + exists (Layer.rotation layer). now rewrite set_rotation_same.
    + exists (Layer.x layer), (Layer.y layer), (Layer.width layer),
             (Layer.height layer). now rewrite set_frame_same.
  - destruct (IH (wheelStep ctrl shift deltaY s r0)) as (Hls & Hvp & Hia & Hout & Hin).
    assert (Hstep :
      layers (wheelStep ctrl shift deltaY s r0) = layers s
      /\ viewport (wheelStep ctrl shift deltaY s r0) = viewport s
      /\ interaction (wheelStep ctrl shift deltaY s r0) = interaction s
      /\ (forall r, r <> r0 ->
            heap (wheelStep ctrl shift deltaY s r0) !! r = heap s !! r)
      /\ (forall layer, heap s !! r0 = Some layer ->
            exists layer',
              heap (wheelStep ctrl shift deltaY s r0) !! r0 = Some layer'
              /\ if shift then exists rot, layer' = set_rotation layer rot
                 else exists x y w h, layer' = Layer.set_frame layer x y w h)).
    { unfold wheelStep. destruct (heap s !! r0) as [layer0|] eqn:E0.
      - destruct shift.
        + cbn [layers viewport interaction heap].
          repeat split; try reflexivity.
          * intros r Hr. now apply lookup_insert_ne.
          * intros layer Hl. injection Hl as <-.
            rewrite lookup_insert_eq. eexists. split; [reflexivity |].
            apply handleLayerRotation_rotation_only.
        + pose proof (handleLayerScaling_frame_only (comp s) r0 layer0 ctrl deltaY)
            as Hframe.
          destruct (handleLayerScaling (comp s) r0 layer0 ctrl deltaY) as [c' layer'].
          cbn [snd] in Hframe. cbn [layers viewport interaction heap].
          repeat split; try reflexivity.
          * intros r Hr. now apply lookup_insert_ne.
          * intros layer Hl. injection Hl as <-.
            rewrite lookup_insert_eq. exists layer'. split; [reflexivity | exact Hframe].
      - repeat split; try reflexivity. intros layer Hl. discriminate. }
    destruct Hstep as (Sls & Svp & Sia & Sout & Sin).
    split; [congruence |]. split; [congruence |]. split; [congruence |]. split.
    + intros r Hr. rewrite Hout by (intros Hin'; apply Hr; now right).
      apply Sout. intros ->. apply Hr. now left.
    + intros r layer Hl.
      assert (Hmid : exists mid,
                 heap (wheelStep ctrl shift deltaY s r0) !! r = Some mid
                 /\ if shift then exists rot, mid = set_rotation layer rot
                    else exists x y w h, mid = Layer.set_frame layer x y w h).
      { destruct (Nat.eq_dec r r0) as [-> | Hne]; [now apply Sin |].
        exists layer. rewrite (Sout r Hne). split; [exact Hl |]. destruct shift.
        - exists (Layer.rotation layer). now rewrite set_rotation_same.
        - exists (Layer.x layer), (Layer.y layer), (Layer.width layer),
                 (Layer.height layer). now rewrite set_frame_same. }
      destruct Hmid as (mid & Hmid & Hch).
      destruct (Hin r mid Hmid) as (layer' & Hl' & Hch').
      exists layer'. split; [exact Hl' |]. destruct shift.
      * destruct Hch as [rot ->]. destruct Hch' as [rot' ->]. now exists rot'.
      * destruct Hch as (x & y & w & h & ->).
        destruct Hch' as (x' & y' & w' & h' & ->). now exists x', y', w', h'.
Qed.

(** X30: a wheel event either zooms the viewport or transforms the selected
    layers, never both.  With the mask tool active, with nothing selected
    or with the pointer off the selected layers it sets the viewport to
    what [performZoomOperation] gives for the factor of the notch and
    leaves every layer as it is.  Otherwise the viewport stays, a layer
    outside the selection is as before, and a layer differs from what it
    was in its rotation only when Shift is held, in its frame (x, y, width,
    height) only when it is not.  The array of layers and the interaction
    state are never touched. *)
Theorem wheel_zooms_or_transforms {M : MathEnv} {F : NumberFormat} (s : Session)
    (selectedLayers : list nat) (maskToolActive isShiftPressed : bool)
    (world : Point) (deltaY : Q) (ctrlKey shiftKey : bool) :
  let s' := handleWheel s selectedLayers maskToolActive isShiftPressed world
                        deltaY ctrlKey shiftKey in
  layers s' = layers s /\ interaction s' = interaction s
  /\ if maskToolActive || (length selectedLayers =? 0)%nat
        || negb (isPointInSelectedLayers (heap s) selectedLayers (px world) (py world))
     then heap s' = heap s
          /\ viewport s'
             = performZoomOperation (viewport s) world (wheelZoomFactor deltaY)
     else viewport s' = viewport s
          /\ (forall r, ~ In r selectedLayers -> heap s' !! r = heap s !! r)
          /\ (forall r layer, heap s !! r = Some layer ->
                exists layer',
                  heap s' !! r = Some layer'
                  /\ if modifier isShiftPressed shiftKey
                     then exists rot, layer' = set_rotation layer rot
                     else exists x y w h, layer' = Layer.set_frame layer x y w h).
Proof.
  cbv zeta. unfold handleWheel.
  destruct (maskToolActive || (length selectedLayers =? 0)%nat) eqn:Ezoom;
    cbn [orb]; [repeat split |].
  destruct (isPointInSelectedLayers (heap s) selectedLayers (px world) (py world));
    cbn [negb]; [| repeat split].
  unfold handleLayerWheelTransformation. cbn [render].
  cbn [layers interaction heap viewport with_comp].
  destruct (wheelSteps_spec (modifier (isCtrlPressed (interaction s)) ctrlKey)
              (modifier isShiftPressed shiftKey) deltaY selectedLayers s)
    as (Hls & Hvp & Hia & Hout & Hin).
  repeat split; assumption.
Qed.

End WheelFacts.

(** ** Wheel scaling, with rounding *)

Module WheelScalingFacts.
Import Wheel RoundingFacts.

Local Open Scope Q_scope.

(** X2: scaling a layer with the wheel, with or without Ctrl, changes its
    frame only, and keeps the centre of the layer and the proportion of its
    sides up to rounding: when every operation is off by a relative error
    [u] at most, the centre moves by [4 * u * (|x| + |width| + |width'|)] at
    most (likewise for y), and [width' * height] differs from
    [width * height'] by [5 * u * |width' * height|] at most. *)
Theorem wheel_scaling_keeps_centre (u : Q) (rnd : Q -> Q) (layer : Layer.t)
    (isCtrlPressed : bool) (deltaY : Q) :
  0 <= u -> u <= 1 # 100 -> Rounded.roundsWithin u rnd ->
  let layer' := Rounded.handleLayerScaling rnd layer isCtrlPressed deltaY in
  layer' = Layer.set_frame layer (Layer.x layer') (Layer.y layer')
                           (Layer.width layer') (Layer.height layer')
  /\ Qabs (Layer.x layer' + Layer.width layer' / 2
           - (Layer.x layer + Layer.width layer / 2))
     <= 4 * u * (Qabs (Layer.x layer) + Qabs (Layer.width layer)
                 + Qabs (Layer.width layer'))
  /\ Qabs (Layer.y layer' + Layer.height layer' / 2
           - (Layer.y layer + Layer.height layer / 2))
     <= 4 * u * (Qabs (Layer.y layer) + Qabs (Layer.height layer)
                 + Qabs (Layer.height layer'))
  /\ Qabs (Layer.width layer' * Layer.height layer
           - Layer.width layer * Layer.height layer')
     <= 5 * u * Qabs (Layer.width layer' * Layer.height layer).
Proof.
  intros Hu0 Hu1 Hrnd. cbv zeta. unfold Rounded.handleLayerScaling.
  assert (Hsame :
    layer = Layer.set_frame layer (Layer.x layer) (Layer.y layer)
                            (Layer.width layer) (Layer.height layer)
    /\ Qabs (Layer.x layer + Layer.width layer / 2
             - (Layer.x layer + Layer.width layer / 2))
       <= 4 * u * (Qabs (Layer.x layer) + Qabs (Layer.width layer)
                   + Qabs (Layer.width layer))
    /\ Qabs (Layer.y layer + Layer.height layer / 2
             - (Layer.y layer + Layer.height layer / 2))
       <= 4 * u * (Qabs (Layer.y layer) + Qabs (Layer.height layer)
                   + Qabs (Layer.height layer))
    /\ Qabs (Layer.width layer * Layer.height layer
             - Layer.width layer * Layer.height layer)
       <= 5 * u * Qabs (Layer.width layer * Layer.height layer)).
  { split; [now destruct layer |].
    pose proof (Qabs_nonneg (Layer.x layer)). pose proof (Qabs_nonneg (Layer.y layer)).
    pose proof (Qabs_nonneg (Layer.width layer)).
    pose proof (Qabs_nonneg (Layer.height layer)).
    pose proof (Qabs_nonneg (Layer.width layer * Layer.height layer)).
    assert (Z : forall v : Q, Qabs (v - v) == 0).
    { intros v. assert (E : v - v == 0) by ring. now rewrite E. }
    rewrite !Z. repeat split; nra. }
  destruct (Rounded.scaleFactorOf rnd layer isCtrlPressed deltaY) as [[sf|]|];
    [| exact Hsame | exact Hsame].
  destruct (JS.truthy sf); [| exact Hsame].
  cbn [Layer.x Layer.y Layer.width Layer.height Layer.set_frame].
  split; [reflexivity |].
  split; [apply centre_error with
            (a := rnd (Layer.width layer - rnd (Layer.width layer * sf)))
            (b := rnd (rnd (Layer.width layer - rnd (Layer.width layer * sf)) / 2));
          try assumption; apply Hrnd |].
  split; [apply centre_error with
            (a := rnd (Layer.height layer - rnd (Layer.height layer * sf)))
            (b := rnd (rnd (Layer.height layer - rnd (Layer.height layer * sf)) / 2));
          try assumption; apply Hrnd |].
  apply proportion_error with (sf := sf); try assumption; apply Hrnd.
Qed.

Lemma wheel_scaling_keeps_centre_witness :
  Rounded.roundsWithin (1 # 9007199254740992) roundAway
  /\ Qabs (Layer.x (Rounded.handleLayerScaling roundAway (sampleStoreLayer 0) true (-1))
           + Layer.width (Rounded.handleLayerScaling roundAway
                            (sampleStoreLayer 0) true (-1)) / 2
           - (Layer.x (sampleStoreLayer 0) + Layer.width (sampleStoreLayer 0) / 2))
     <= 1 # 1000000000000.
Proof.
  split; [exact roundAway_within |].
  pose proof (wheel_scaling_keeps_centre (1 # 9007199254740992) roundAway
                (sampleStoreLayer 0) true (-1)
                ltac:(discriminate) ltac:(discriminate) roundAway_within)
    as (_ & Hx & _).
  eapply Qle_trans; [exact Hx |]. vm_compute. discriminate.
Defined.

(** X3: with Ctrl held, a wheel notch leaves the layer as it is when it
    would bring the larger side under 10 pixels, and changes the larger
    side by one pixel otherwise, up to rounding: when every operation is off
    by a relative error [u] at most, the side differs from the old one plus
    or minus 1 by [5 * u] times that number at most. *)
Theorem ctrl_wheel_scaling_one_pixel (u : Q) (rnd : Q -> Q) (layer : Layer.t)
    (deltaY : Q) :
  0 <= u -> u <= 1 # 100 -> Rounded.roundsWithin u rnd ->
  let direction := if JS.gtb deltaY 0 then -1 else 1 in
  let base := JS.Math_max (Layer.width layer) (Layer.height layer) in
  let layer' := Rounded.handleLayerScaling rnd layer true deltaY in
  (rnd (base + direction) < 10 -> layer' = layer)
  /\ (10 <= rnd (base + direction) ->
      (Layer.height layer <= Layer.width layer ->
       Qabs (Layer.width layer' - (Layer.width layer + direction))
       <= 5 * u * Qabs (Layer.width layer + direction))
      /\ (Layer.width layer < Layer.height layer ->
          Qabs (Layer.height layer' - (Layer.height layer + direction))
          <= 5 * u * Qabs (Layer.height layer + direction))).
Proof.
  intros Hu0 Hu1 Hrnd. cbv zeta.
  unfold Rounded.handleLayerScaling, Rounded.scaleFactorOf.
  set (direction := if JS.gtb deltaY 0 then -1 else 1).
  set (base := JS.Math_max (Layer.width layer) (Layer.height layer)).
  set (nb := rnd (base + direction)).
  assert (Hdir : direction == -1 \/ direction == 1)
    by (subst direction; destruct (JS.gtb deltaY 0); [left | right]; reflexivity).
  split.
  - intros Hlt. now rewrite (proj2 (JSFacts.ltb_true nb 10) Hlt).
  - intros Hge. rewrite (proj2 (JSFacts.ltb_false nb 10) Hge).
    pose proof (Hrnd (base + direction)) as Hnb. fold nb in Hnb.
    assert (Hbase : 0 < base).
    { apply Qabs_Qle_condition in Hnb. destruct Hnb as [H1 H2].
      destruct (Qlt_le_dec 0 (base + direction)) as [Hp | Hn].
      - rewrite (Qabs_pos (base + direction)) in H2 by lra.
        destruct Hdir as [Hd | Hd]; rewrite Hd in *; nra.
      - rewrite (Qabs_neg (base + direction)) in H2 by lra. nra. }
    unfold Rounded.div.
    assert (Hnz : Qeq_bool base 0 = false).
    { apply not_true_is_false. intros H. apply Qeq_bool_iff in H. lra. }
    rewrite Hnz.
    set (sf := rnd (nb / base)).
    pose proof (Hrnd (nb / base)) as Hsf. fold sf in Hsf.
    assert (Hsfpos : 0 < sf).
    { assert (Hq : 0 < nb / base) by (apply Qlt_shift_div_l; lra).
      apply Qabs_Qle_condition in Hsf. rewrite (Qabs_pos (nb / base)) in Hsf by lra.
      destruct Hsf as [H1 H2]. nra. }
    assert (Htruthy : JS.truthy sf = true).
    { unfold JS.truthy. apply negb_true_iff, not_true_is_false.
      intros H. apply Qeq_bool_iff in H. lra. }
    rewrite Htruthy. cbn [Layer.width Layer.height Layer.set_frame].
    split.
    + intros Hwh.
      assert (Eb : base = Layer.width layer).
      { subst base. unfold JS.Math_max.
        destruct (Qlt_le_dec (Layer.width layer) (Layer.height layer)); [lra | reflexivity]. }
      rewrite Eb in *.
      apply one_pixel_error with (b := Layer.width layer) (nb := nb) (sf := sf);
        try assumption. apply Hrnd.
    + intros Hwh.
      assert (Eb : base = Layer.height layer).
      { subst base. unfold JS.Math_max.
        destruct (Qlt_le_dec (Layer.width layer) (Layer.height layer)); [reflexivity | lra]. }
      rewrite Eb in *.
      apply one_pixel_error with (b := Layer.height layer) (nb := nb) (sf := sf);
        try assumption. apply Hrnd.
Qed.

Lemma ctrl_wheel_scaling_one_pixel_witness :
  Rounded.roundsWithin (1 # 9007199254740992) roundAway
  /\ Qabs (Layer.width (Rounded.handleLayerScaling roundAway (sampleStoreLayer 0)
                          true (-1))
           - 101)
     <= 1 # 1000000000000.
Proof.
  split; [exact roundAway_within |].
  pose proof (ctrl_wheel_scaling_one_pixel (1 # 9007199254740992) roundAway
                (sampleStoreLayer 0) (-1)
                ltac:(discriminate) ltac:(discriminate) roundAway_within)
    as (_ & Hstep).
  destruct Hstep as (Hw & _); [vm_compute; discriminate |].
  eapply Qle_trans; [apply Hw; vm_compute; discriminate |].
  vm_compute. discriminate.
Defined.

End WheelScalingFacts.

(** ** Placing a new layer, with rounding *)

Module RoundedPlacementFacts.
Import Store RoundingFacts.

Local Open Scope Q_scope.

(** X25: [addLayerWithImage], given an image of positive size, an area that
    is not of negative size and properties without geometry, stores the new
    layer and selects it.  In the modes 'default' and 'mouse' the layer has
    the size of the image; in the mode 'fit' its sides keep the proportion
    of the image, are not larger than the area and one of them fills it.
    The layer is centred on the area, or on the last mouse position in the
    mode 'mouse'.  All of this holds up to rounding: a relative error [u] of
    every operation lets the centre be off by [4 * u] (mouse: [3 * u]) times
    the sizes involved, the proportion by [5 * u] and the sides by [3 * u]
    times their size. *)
Theorem addLayerWithImage_placement (u : Q) (rnd : Q -> Q) (c : Canvas)
    (image : ImageRes) (layerProps : LayerProps) (addMode : AddMode)
    (targetArea : option Rect) (newId newImageId : string) :
  0 <= u -> u <= 1 # 100 -> Rounded.roundsWithin u rnd ->
  0 < img_width image -> 0 < img_height image ->
  0 <= rwidth (or_default targetArea (outputAreaBounds c)) ->
  0 <= rheight (or_default targetArea (outputAreaBounds c)) ->
  p_x layerProps = None -> p_y layerProps = None ->
  p_width layerProps = None -> p_height layerProps = None ->
  exists c' r layer,
    Rounded.addLayerWithImage rnd c (Some image) layerProps addMode targetArea
                              newId newImageId
    = Some (c', r)
    /\ heap c' !! r = Some layer
    /\ selectedLayers c' = [r]
    /\ let area := or_default targetArea (outputAreaBounds c) in
       match addMode with
       | A_fit =>
         Qabs (Layer.x layer + Layer.width layer / 2 - (rx area + rwidth area / 2))
         <= 4 * u * (Qabs (rx area) + Qabs (rwidth area) + Qabs (Layer.width layer))
         /\ Qabs (Layer.y layer + Layer.height layer / 2
                  - (ry area + rheight area / 2))
            <= 4 * u * (Qabs (ry area) + Qabs (rheight area)
                        + Qabs (Layer.height layer))
         /\ Qabs (Layer.width layer * img_height image
                  - img_width image * Layer.height layer)
            <= 5 * u * Qabs (Layer.width layer * img_height image)
         /\ Layer.width layer <= (1 + 3 * u) * rwidth area
         /\ Layer.height layer <= (1 + 3 * u) * rheight area
         /\ (Qabs (Layer.width layer - rwidth area) <= 3 * u * rwidth area
             \/ Qabs (Layer.height layer - rheight area) <= 3 * u * rheight area)
       | A_default =>
         Layer.width layer = img_width image
         /\ Layer.height layer = img_height image
         /\ Qabs (Layer.x layer + Layer.width layer / 2 - (rx area + rwidth area / 2))
            <= 4 * u * (Qabs (rx area) + Qabs (rwidth area) + Qabs (Layer.width layer))
         /\ Qabs (Layer.y layer + Layer.height layer / 2
                  - (ry area + rheight area / 2))
            <= 4 * u * (Qabs (ry area) + Qabs (rheight area)
                        + Qabs (Layer.height layer))
       | A_mouse =>
         Layer.width layer = img_width image
         /\ Layer.height layer = img_height image
         /\ Qabs (Layer.x layer + Layer.width layer / 2 - px (lastMousePosition c))
            <= 3 * u * (Qabs (px (lastMousePosition c)) + Qabs (Layer.width layer))
         /\ Qabs (Layer.y layer + Layer.height layer / 2 - py (lastMousePosition c))
            <= 3 * u * (Qabs (py (lastMousePosition c)) + Qabs (Layer.height layer))
       end.
Proof.
  intros Hu0 Hu1 Hrnd Hw Hh Haw Hah Hx Hy Hpw Hph.
  unfold Rounded.addLayerWithImage.
  set (area := or_default targetArea (outputAreaBounds c)) in *.
  destruct addMode; cbv zeta; do 3 eexists;
    (split; [reflexivity |]); (split; [apply lookup_insert_eq |]);
    (split; [reflexivity |]);
    unfold spreadProps; rewrite Hx, Hy, Hpw, Hph;
    cbn [or_default Layer.x Layer.y Layer.width Layer.height].
  - split; [reflexivity |]. split; [reflexivity |].
    split; (eapply centre_error; [exact Hu0 | exact Hu1 | apply Hrnd ..]).
  - set (sw := rnd (rwidth area / img_width image)).
    set (sh := rnd (rheight area / img_height image)).
    set (scale := JS.Math_min sw sh).
    assert (Hsw0 : 0 <= sw).
    { pose proof (Hrnd (rwidth area / img_width image)) as H. fold sw in H.
      assert (Hq : 0 <= rwidth area / img_width image)
        by (apply Qle_shift_div_l; lra).
      rewrite (Qabs_pos _ Hq) in H. apply Qabs_Qle_condition in H.
      destruct H as [H1 H2]. nra. }
    assert (Hsh0 : 0 <= sh).
    { pose proof (Hrnd (rheight area / img_height image)) as H. fold sh in H.
      assert (Hq : 0 <= rheight area / img_height image)
        by (apply Qle_shift_div_l; lra).
      rewrite (Qabs_pos _ Hq) in H. apply Qabs_Qle_condition in H.
      destruct H as [H1 H2]. nra. }
    assert (Hscale : 0 <= scale /\ scale <= sw /\ scale <= sh
                     /\ (scale = sw \/ scale = sh)).
    { subst scale. unfold JS.Math_min.
      destruct (Qlt_le_dec sh sw); repeat split; auto; lra. }
    destruct Hscale as (Hs0 & Hs1 & Hs2 & Hs3).
    destruct (fit_side_error u (img_width image) (rwidth area) sw scale
                (rnd (img_width image * scale)))
      as [Wle Wfill]; try assumption; try apply Hrnd.
    destruct (fit_side_error u (img_height image) (rheight area) sh scale
                (rnd (img_height image * scale)))
      as [Hle Hfill]; try assumption; try apply Hrnd.
    split; [eapply centre_error; [exact Hu0 | exact Hu1 | apply Hrnd ..] |].
    split; [eapply centre_error; [exact Hu0 | exact Hu1 | apply Hrnd ..] |].
    split; [apply proportion_error with (sf := scale); try assumption; apply Hrnd |].
    split; [exact Wle |]. split; [exact Hle |].
    destruct Hs3 as [E | E]; [left; now apply Wfill | right; now apply Hfill].
  - split; [reflexivity |]. split; [reflexivity |].
    split; (eapply mouse_centre_error; [exact Hu0 | exact Hu1 | apply Hrnd ..]).
Qed.

Lemma addLayerWithImage_placement_witness :
  Rounded.roundsWithin (1 # 9007199254740992) roundAway
  /\ exists c' r layer,
       Rounded.addLayerWithImage roundAway sampleCanvas (Some (mkImage 9 49 49))
                                 noProps A_fit None "n" "i"
       = Some (c', r)
       /\ heap c' !! r = Some layer
       /\ Layer.width layer <= (1 + 3 * (1 # 9007199254740992)) * 512.
Proof.
  split; [exact roundAway_within |].
  destruct (addLayerWithImage_placement (1 # 9007199254740992) roundAway sampleCanvas
              (mkImage 9 49 49) noProps A_fit None "n" "i")
    as (c' & r & layer & Hrun & Hheap & _ & Hfit);
    try reflexivity; try discriminate; try exact roundAway_within.
  exists c', r, layer. cbv zeta in Hfit.
  destruct Hfit as (_ & _ & _ & Hle & _).
  split; [exact Hrun |]. split; [exact Hheap | exact Hle].
Defined.

End RoundedPlacementFacts.
